(** * vite-plugin-llm-spider: the harvesting and publishing pipeline

    A shallow embedding of [src/index.js]: option merging, route
    normalisation, the exclusion filter, the output-path mapping, the
    batched crawl scheduler with its per-route capture operation, and the
    assembly of [llms.txt]; and of what the published build
    ([dist/index.js]) adds to it, the static mode that reads the HTML
    files of the output directory.

    JavaScript strings are modelled by [string]; a character stands for one
    code unit (restricted to the range 0..255).  Numbers that the code uses
    as counters, depths and indices are integers ([Z]), lengths are [nat]. *)

From Stdlib Require Import String Ascii List ZArith Lia Bool Arith DecimalString.
From Stdlib Require Import Permutation Sorted.
From Stdlib Require OrderedTypeEx.
Import ListNotations.

Local Open Scope string_scope.
Local Open Scope list_scope.

(** String concatenation, written apart from list append. *)
Infix "^^" := String.append (at level 60, right associativity).

(* ------------------------------------------------------------------ *)
(** ** String primitives used by the plugin *)

Module Str.

(** [s.startsWith(p)] *)
Fixpoint startsWith (s p : string) {struct p} : bool :=
  match p with
  | EmptyString => true
  | String b p' =>
      match s with
      | EmptyString => false
      | String a s' => Ascii.eqb a b && startsWith s' p'
      end
  end.

(** [s.endsWith(p)]: some suffix of [s] is [p]. *)
Fixpoint endsWith (s p : string) : bool :=
  if String.eqb s p then true
  else match s with
       | EmptyString => false
       | String _ s' => endsWith s' p
       end.

(** [s.includes(p)]: [p] is a prefix of some suffix of [s]. *)
Fixpoint includes (s p : string) : bool :=
  if startsWith s p then true
  else match s with
       | EmptyString => false
       | String _ s' => includes s' p
       end.

(** [s.indexOf(c)] for a one-character needle; [-1] when absent. *)
Fixpoint indexOf (s : string) (c : ascii) : Z :=
  match s with
  | EmptyString => (-1)%Z
  | String a s' =>
      if Ascii.eqb a c then 0%Z
      else let i := indexOf s' c in
           if (i <? 0)%Z then (-1)%Z else (i + 1)%Z
  end.

(** [s.slice(a, b)] for indices [0 <= a], [0 <= b]. *)
Definition slice (s : string) (a b : Z) : string :=
  String.substring (Z.to_nat a) (Z.to_nat (b - a)) s.

(** [s.slice(a)] for an index [0 <= a]. *)
Fixpoint sliceFrom (s : string) (a : nat) : string :=
  match a, s with
  | O, _ => s
  | S a', String _ s' => sliceFrom s' a'
  | S _, EmptyString => EmptyString
  end.

(** White space in the sense of [String.prototype.trim], among the code
    units 0..255: TAB, LF, VT, FF, CR, SPACE and NBSP. *)
Definition isWhiteSpace (c : ascii) : bool :=
  let n := nat_of_ascii c in
  ((9 <=? n)%nat && (n <=? 13)%nat) || (n =? 32)%nat || (n =? 160)%nat.

Fixpoint trimStart (s : string) : string :=
  match s with
  | EmptyString => EmptyString
  | String c s' => if isWhiteSpace c then trimStart s' else s
  end.

Fixpoint trimEnd (s : string) : string :=
  match s with
  | EmptyString => EmptyString
  | String c s' =>
      match trimEnd s' with
      | EmptyString => if isWhiteSpace c then EmptyString else String c EmptyString
      | t => String c t
      end
  end.

(** [s.trim()] *)
Definition trim (s : string) : string := trimEnd (trimStart s).

(** [s.replace(/\/{2,}/g, "/")]: every maximal run of slashes becomes one. *)
Fixpoint collapseSlashes (s : string) : string :=
  match s with
  | EmptyString => EmptyString
  | String c s' =>
      match s' with
      | String c' _ =>
          if Ascii.eqb c "/" && Ascii.eqb c' "/" then collapseSlashes s'
          else String c (collapseSlashes s')
      | EmptyString => String c EmptyString
      end
  end.

(** [s.replace(/\\/g, "/")] *)
Fixpoint backslashToSlash (s : string) : string :=
  match s with
  | EmptyString => EmptyString
  | String c s' =>
      String (if Ascii.eqb c "\" then "/"%char else c) (backslashToSlash s')
  end.

(** Truthiness of a string: [!!s]. *)
Definition truthy (s : string) : bool := negb (String.eqb s "").

(** [a || b] on strings. *)
Definition orElse (a b : string) : string := if truthy a then a else b.

(** Splitting at every ["/"], as [s.split("/")] does: the pieces of
    ["a//b/"] are ["a"], [""], ["b"], [""]. *)
Fixpoint splitSlash (s : string) : list string :=
  match s with
  | EmptyString => [EmptyString]
  | String c s' =>
      if Ascii.eqb c "/" then EmptyString :: splitSlash s'
      else match splitSlash s' with
           | seg :: rest => String c seg :: rest
           | [] => [String c EmptyString]
           end
  end.

(** [segs.join("/")] *)
Fixpoint joinSlash (segs : list string) : string :=
  match segs with
  | [] => EmptyString
  | [seg] => seg
  | seg :: rest => seg ^^ "/" ^^ joinSlash rest
  end.

Definition nl : string := String (ascii_of_nat 10) EmptyString.

End Str.

(* ------------------------------------------------------------------ *)
(** ** Route normalisation and the exclusion filter *)

(** [normalizeRoute(input, { stripQuery })]; [None] is the [null] result. *)
Definition normalizeRoute (input : string) (stripQuery : bool) : option string :=
  if negb (Str.truthy input) then None
  else if Str.startsWith input "mailto:"
          || Str.startsWith input "tel:"
          || Str.startsWith input "javascript:" then None
  else
    let s := Str.trim input in
    if Str.startsWith s "http://" || Str.startsWith s "https://" then None
    else
      let hashIdx := Str.indexOf s "#" in
      let s := if (0 <=? hashIdx)%Z then Str.slice s 0 hashIdx else s in
      let s :=
        if stripQuery then
          let qIdx := Str.indexOf s "?" in
          if (0 <=? qIdx)%Z then Str.slice s 0 qIdx else s
        else s in
      if negb (Str.truthy s) then None
      else
        let s :=
          if negb (Str.startsWith s "/") then
            if Str.startsWith s "./" then Str.sliceFrom s 1 else "/" ^^ s
          else s in
        Some (Str.collapseSlashes s).

(** An entry of [options.exclude]: a string, or a [RegExp] given by the
    result of its [test] method (a stateless pattern: no [g] or [y] flag).
    The rules as objects, with the [lastIndex] that those flags keep
    between two tests, are in [Stateful] below. *)
Inductive ExclusionRule : Type :=
| Literal (p : string)
| Pattern (test : string -> bool).

Definition ruleMatches (route : string) (p : ExclusionRule) : bool :=
  match p with
  | Pattern test => test route
  | Literal lit => Str.includes route lit
  end.

(** [isExcluded(route)]: [(options.exclude || []).some(...)]. *)
Definition isExcluded (exclude : list ExclusionRule) (route : string) : bool :=
  existsb (ruleMatches route) exclude.

(* ------------------------------------------------------------------ *)
(** ** Output paths *)

(** [routeToMdWebPath(route)] *)
Definition routeToMdWebPath (route : string) : string :=
  if String.eqb route "/" then "index.html.md"
  else if Str.endsWith route "/" then Str.sliceFrom route 1 ^^ "index.html.md"
  else Str.sliceFrom route 1 ^^ ".md".

(** Node's [path.posix]: the part of it that [path.posix.join] needs. *)
Module PosixPath.

(** One step of [normalizeString]: [acc] holds the kept segments, last
    one first.  Empty and ["."] segments are dropped; [".."] removes the
    last kept segment unless there is none or it is [".."] itself, in
    which case it is kept when the path is relative. *)
Definition pushSegment (allowAboveRoot : bool) (acc : list string)
           (seg : string) : list string :=
  if String.eqb seg "" || String.eqb seg "." then acc
  else if String.eqb seg ".." then
    match acc with
    | last :: acc' =>
        if String.eqb last ".." then
          (if allowAboveRoot then ".." :: acc else acc)
        else acc'
    | [] => if allowAboveRoot then [".."] else []
    end
  else seg :: acc.

Definition normalizeString (path : string) (allowAboveRoot : bool) : string :=
  Str.joinSlash
    (rev (fold_left (pushSegment allowAboveRoot) (Str.splitSlash path) [])).

(** [path.posix.normalize(path)] *)
Definition normalize (path : string) : string :=
  if String.eqb path "" then "."
  else
    let isAbsolute := Str.startsWith path "/" in
    let trailingSeparator := Str.endsWith path "/" in
    let p := normalizeString path (negb isAbsolute) in
    if String.eqb p "" then
      (if isAbsolute then "/" else if trailingSeparator then "./" else ".")
    else
      let p := if trailingSeparator then p ^^ "/" else p in
      if isAbsolute then "/" ^^ p else p.

(** [path.posix.join(a, b)]: empty arguments are skipped, the rest are
    glued with ["/"] and the result is normalised. *)
Definition join (a b : string) : string :=
  match Str.truthy a, Str.truthy b with
  | false, false => "."
  | true, false => normalize a
  | false, true => normalize b
  | true, true => normalize (a ^^ "/" ^^ b)
  end.

End PosixPath.

(** The [mdRelPath] computed in [captureOne] from [options.output.mode]
    and [options.output.subdir]. *)
Definition mdRelPath (mode subdir route : string) : string :=
  if String.eqb mode "subdir"
  then PosixPath.join subdir (routeToMdWebPath route)
  else routeToMdWebPath route.


(** A path segment that [path.posix.normalize] keeps as it is. *)
Definition plainSegment (seg : string) : bool :=
  negb (String.eqb seg "" || String.eqb seg "." || String.eqb seg "..").

(** A relative path made of plain segments only. *)
Definition plainPath (p : string) : bool :=
  forallb plainSegment (Str.splitSlash p).

(** A single plain segment: a directory name. *)
Definition plainName (name : string) : bool :=
  plainSegment name && negb (Str.includes name "/").

(* ------------------------------------------------------------------ *)
(** ** Option merging *)

Module Js.

#[local] Set Warnings "-register-all".

(** The values an options object is made of.  An object is the list of
    its own enumerable properties in insertion order. *)
Inductive value : Type :=
| VUndefined
| VNull
| VBool (b : bool)
| VNum (n : Z)
| VStr (s : string)
| VRegExp (source : string)
| VFun (name : string)
| VArr (items : list value)
| VObj (fields : list (string * value)).

(** [fields[key]], [undefined] when the key is absent. *)
Fixpoint get (key : string) (fields : list (string * value)) : value :=
  match fields with
  | [] => VUndefined
  | (k, v) :: rest => if String.eqb k key then v else get key rest
  end.

(** [fields[key] = v]: an existing property keeps its place. *)
Fixpoint set (key : string) (v : value) (fields : list (string * value))
  : list (string * value) :=
  match fields with
  | [] => [(key, v)]
  | (k, w) :: rest =>
      if String.eqb k key then (k, v) :: rest else (k, w) :: set key v rest
  end.

Definition truthy (v : value) : bool :=
  match v with
  | VUndefined | VNull | VBool false => false
  | VNum n => negb (n =? 0)%Z
  | VStr s => Str.truthy s
  | _ => true
  end.

(** [v && typeof v === 'object' && !Array.isArray(v) && !(v instanceof RegExp)] *)
Definition isPlainObject (v : value) : bool :=
  match v with
  | VObj _ => true
  | _ => false
  end.

(** The property name of an array index. *)
Definition indexKey (i : nat) : string :=
  DecimalString.NilEmpty.string_of_uint (Nat.to_uint i).

Fixpoint indexed (i : nat) (items : list value) : list (string * value) :=
  match items with
  | [] => []
  | v :: rest => (indexKey i, v) :: indexed (S i) rest
  end.

Fixpoint chars (s : string) : list value :=
  match s with
  | EmptyString => []
  | String c s' => VStr (String c EmptyString) :: chars s'
  end.

(** The own enumerable properties, that is [{ ...v }]. *)
Definition ownProps (v : value) : list (string * value) :=
  match v with
  | VObj fields => fields
  | VArr items => indexed 0 items
  | VStr s => indexed 0 (chars s)
  | _ => []
  end.

(** [v[key]] for an own enumerable property.  An inherited property is a
    method or a prototype object, whose spread is empty like that of
    [{}], so [deepMerge] cannot tell it from an absent one. *)
Definition prop (v : value) (key : string) : value := get key (ownProps v).

(** [v || {}] *)
Definition orEmptyObject (v : value) : value :=
  if truthy v then v else VObj [].

(** [deepMerge(target, source)].  [source] is an object at every
    recursive call; at the top it is [userOptions]. *)
Fixpoint deepMerge (target source : value) {struct source} : value :=
  match source with
  | VObj fields =>
      VObj
        ((fix loop (fields result : list (string * value)) {struct fields} :=
            match fields with
            | [] => result
            | (key, v) :: rest =>
                loop rest
                  (set key
                     (if isPlainObject v
                      then deepMerge (orEmptyObject (prop target key)) v
                      else v)
                     result)
            end) fields (ownProps target))
  | VArr items =>
      VObj
        ((fix loop (i : nat) (items : list value)
              (result : list (string * value)) {struct items} :=
            match items with
            | [] => result
            | v :: rest =>
                loop (S i) rest
                  (set (indexKey i)
                     (if isPlainObject v
                      then deepMerge (orEmptyObject (prop target (indexKey i))) v
                      else v)
                     result)
            end) 0 items (ownProps target))
  | VStr s => VObj (fold_left (fun result kv => set (fst kv) (snd kv) result)
                              (indexed 0 (chars s)) (ownProps target))
  | _ => VObj (ownProps target)
  end.

(** The loop of [deepMerge] over the properties of an object source. *)
Fixpoint mergeFields (target : value) (fields result : list (string * value))
  : list (string * value) :=
  match fields with
  | [] => result
  | (key, v) :: rest =>
      mergeFields target rest
        (set key
           (if isPlainObject v
            then deepMerge (orEmptyObject (prop target key)) v
            else v)
           result)
  end.

(** [v.k1.k2...]: following a path of property names. *)
Fixpoint getPath (v : value) (path : list string) : value :=
  match path with
  | [] => v
  | key :: rest => getPath (prop v key) rest
  end.

(** No object repeats a property name. *)
Fixpoint uniqueKeys (keys : list string) : bool :=
  match keys with
  | [] => true
  | k :: rest => negb (existsb (String.eqb k) rest) && uniqueKeys rest
  end.

Fixpoint wellFormed (v : value) : bool :=
  match v with
  | VObj fields =>
      uniqueKeys (map fst fields)
      && (fix all (fields : list (string * value)) : bool :=
            match fields with
            | [] => true
            | (_, w) :: rest => wellFormed w && all rest
            end) fields
  | VArr items =>
      (fix all (items : list value) : bool :=
         match items with
         | [] => true
         | w :: rest => wellFormed w && all rest
         end) items
  | _ => true
  end.

(** The [defaults] of the plugin. *)
Definition defaults : value :=
  VObj
    [ ("enabled", VBool true);
      ("routes", VUndefined);
      ("crawl",
        VObj [ ("enabled", VBool false);
               ("seeds", VArr [VStr "/"]);
               ("maxDepth", VNum 2);
               ("maxPages", VNum 50);
               ("concurrency", VNum 3);
               ("stripQuery", VBool true) ]);
      ("exclude", VArr [VStr "/login"; VStr "/admin"; VStr "/account"]);
      ("render",
        VObj [ ("waitUntil", VStr "networkidle2");
               ("timeoutMs", VNum 30000);
               ("waitForSelector", VNull);
               ("postLoadDelayMs", VNum 0);
               ("blockRequests",
                 VArr [ VRegExp "google-analytics\.com";
                        VRegExp "googletagmanager\.com";
                        VRegExp "segment\.com";
                        VRegExp "hotjar\.com" ]);
               ("launchOptions", VObj [ ("headless", VStr "new") ]);
               ("beforeGoto", VFun "beforeGoto");
               ("beforeExtract", VFun "beforeExtract") ]);
      ("extract",
        VObj [ ("mainSelector",
                 VArr [VStr "main"; VStr "#main-content"; VStr "[data-main]"]);
               ("removeSelectors",
                 VArr [ VStr "script"; VStr "style"; VStr "noscript";
                        VStr "nav"; VStr "header"; VStr "footer";
                        VStr "svg"; VStr "iframe"; VStr "[role='alert']";
                        VStr ".cookie"; VStr ".cookie-banner"; VStr ".modal" ]) ]);
      ("markdown",
        VObj [ ("addFrontmatter", VBool true);
               ("turndown",
                 VObj [ ("headingStyle", VStr "atx");
                        ("codeBlockStyle", VStr "fenced");
                        ("emDelimiter", VStr "_") ]) ]);
      ("output",
        VObj [ ("mode", VStr "sibling");
               ("subdir", VStr "ai");
               ("llmsTxtFileName", VStr "llms.txt");
               ("llmsTitle", VNull);
               ("llmsSummary",
                 VStr "LLM-friendly index of important pages and their Markdown equivalents.");
               ("sort", VBool true) ]);
      ("logLevel", VStr "info") ].

End Js.

(* ------------------------------------------------------------------ *)
(** ** Data of the pipeline *)

(** [RouteDef]: an absent optional property is [None]. *)
Module RouteDef.
Record t : Type := mk
  { path : string;
    title : option string;
    section : option string;
    optional : option bool;
    notes : option string }.
End RouteDef.

(** An element of [captured]. *)
Module Captured.
Record t : Type := mk
  { route : string;
    title : string;
    section : string;
    optional : bool;
    notes : option string;
    mdRelPath : string }.
End Captured.

(** An element of [queue]; the depth [-1] is the placeholder that link
    harvesting writes. *)
Module Entry.
Record t : Type := mk { route : string; depth : Z }.
End Entry.

Module Crawl.
Record t : Type := mk
  { enabled : bool;
    seeds : option (list string);
    maxDepth : Z;
    maxPages : Z;
    concurrency : Z;
    stripQuery : bool }.
End Crawl.

Module Output.
Record t : Type := mk
  { mode : string;
    subdir : string;
    llmsTitle : option string;
    llmsSummary : string;
    sort : bool }.
End Output.

(** The merged [options], with the properties the pipeline reads. *)
Module Options.
Record t : Type := mk
  { enabled : bool;
    routes : option (list RouteDef.t);
    crawl : Crawl.t;
    exclude : list ExclusionRule;
    output : Output.t }.
End Options.

(** What the pipeline reads of Vite's resolved configuration:
    [resolvedConfig.base] and [resolvedConfig.env.mode]. *)
Module ResolvedConfig.
Record t : Type := mk { base : string; mode : option string }.
End ResolvedConfig.

(** The awaited steps inside the [try] block of [captureOne]. *)
Inductive Step : Type :=
| BeforeGoto        (* options.render.beforeGoto *)
| Goto              (* page.goto *)
| WaitForSelector   (* page.waitForSelector *)
| BeforeExtract     (* options.render.beforeExtract *)
| Content           (* page.content *)
| Extract           (* cheerio: load, remove, select *)
| Convert           (* turndown *)
| Mkdir             (* fs.mkdir *)
| WriteFile.        (* fs.writeFile *)

(** What rendering a route comes to.  [Escapes]: [browser.newPage],
    [page.setRequestInterception] or [page.close] rejects, all of them
    outside the [try] block.  [Fails s]: step [s] throws inside it.
    [Rendered titleText hrefs]: every step succeeds; [titleText] is
    [$("title").text()] and [hrefs] are the [href] attributes of the
    anchors left after the removal selectors. *)
Inductive PageResult : Type :=
| Escapes
| Fails (s : Step)
| Rendered (titleText : string) (hrefs : list string).

Definition Site : Type := string -> PageResult.

(** The three collections that [closeBundle] shares with [captureOne].
    The [Set] [visited] is kept as the list of its [add] calls, latest
    first; [visited.has] is membership. *)
Record State : Type := mkState
  { visited : list string;
    captured : list Captured.t;
    queue : list Entry.t }.

Definition has (visited : list string) (route : string) : bool :=
  existsb (String.eqb route) visited.

(** A callback of the batch that is suspended at an [await]. *)
Inductive Task : Type :=
| InFlight (route : string) (depth : Z)
    (* inside captureOne, after visited.add(route) *)
| Closing (depth : Z).
    (* captureOne is over; the loop that patches depths has not run yet *)

(** How a run of [closeBundle] ends. *)
Inductive Outcome : Type :=
| Skipped                                               (* options.enabled is false *)
| Rejected                                              (* an exception escaped *)
| Written (llms : string) (captured : list Captured.t) (* llms.txt written *)
| OutOfFuel.                                            (* the loop was cut short *)

Inductive LoopResult : Type :=
| LoopDone (st : State)
| LoopRejected
| LoopOutOfFuel.

Definition optString (o : option string) : string :=
  match o with Some s => s | None => EmptyString end.

(** [!!b] for an optional boolean. *)
Definition optBool (o : option bool) : bool :=
  match o with Some b => b | None => false end.

(* ------------------------------------------------------------------ *)
(** ** The pipeline *)

Section Pipeline.

Variable options : Options.t.
Variable resolvedConfig : ResolvedConfig.t.
Variable site : Site.
(** [a.localeCompare(b)]: negative, zero or positive. *)
Variable localeCompare : string -> string -> Z.

Definition crawlEnabled : bool := Crawl.enabled (Options.crawl options).

(** [routeDefs], resolved from [options.routes]. *)
Definition resolveRoute (r : RouteDef.t) : RouteDef.t :=
  RouteDef.mk
    (Str.orElse (optString (normalizeRoute (RouteDef.path r) true)) "/")
    (RouteDef.title r)
    (Some (Str.orElse (optString (RouteDef.section r)) "Pages"))
    (Some (optBool (RouteDef.optional r)))
    (RouteDef.notes r).

Definition routeDefs : list RouteDef.t :=
  match Options.routes options with
  | Some (r :: rs) => map resolveRoute (r :: rs)
  | _ =>
      if crawlEnabled then []
      else [RouteDef.mk "/" None (Some "Pages") None None]
  end.

Definition basePath : string :=
  Str.backslashToSlash (Str.orElse (ResolvedConfig.base resolvedConfig) "/").

Definition normalizedBase : string :=
  if Str.endsWith basePath "/" then basePath else basePath ^^ "/".

(** The seeding of [queue]. *)
Definition seedQueue : list Entry.t :=
  if crawlEnabled then
    flat_map
      (fun seed =>
         match normalizeRoute seed (Crawl.stripQuery (Options.crawl options)) with
         | Some nr => [Entry.mk nr 0]
         | None => []
         end)
      (match Crawl.seeds (Options.crawl options) with
       | Some seeds => seeds
       | None => ["/"]
       end)
  else map (fun rd => Entry.mk (RouteDef.path rd) 0) routeDefs.

Definition maxDepth : Z :=
  if crawlEnabled then Crawl.maxDepth (Options.crawl options) else 0%Z.

Definition maxPages : Z :=
  if crawlEnabled then Crawl.maxPages (Options.crawl options)
  else Z.of_nat (length seedQueue).

Definition concurrency : Z :=
  if crawlEnabled then Crawl.concurrency (Options.crawl options) else 3%Z.

(** The guards of [captureOne], up to [visited.add(route)]: [None] when
    the call returns at a guard. *)
Definition captureOne_enter (route : string) (st : State) : option State :=
  if has (visited st) route then None
  else if isExcluded (Options.exclude options) route then None
  else if (maxPages <=? Z.of_nat (length (captured st)))%Z then None
  else Some (mkState (route :: visited st) (captured st) (queue st)).

(** The record pushed on [captured]. *)
Definition capturedRecord (route titleText : string) : Captured.t :=
  let title := Str.orElse (Str.trim titleText) route in
  let meta := find (fun r => String.eqb (RouteDef.path r) route) routeDefs in
  Captured.mk
    route
    (Str.orElse
       (match meta with Some m => optString (RouteDef.title m) | None => "" end)
       title)
    (Str.orElse
       (match meta with Some m => optString (RouteDef.section m) | None => "" end)
       "Pages")
    (match meta with Some m => optBool (RouteDef.optional m) | None => false end)
    (match meta with Some m => RouteDef.notes m | None => None end)
    (mdRelPath (Output.mode (Options.output options))
               (Output.subdir (Options.output options)) route).

(** A harvested route made relative to the base. *)
Definition baseRelative (n : string) : string :=
  if negb (String.eqb normalizedBase "/") && Str.startsWith n normalizedBase then
    let b := "/" ^^ Str.sliceFrom n (String.length normalizedBase) in
    if String.eqb b "//" then "/" else Str.collapseSlashes b
  else n.

(** The loop over [hrefs]: what it pushes on [queue]. *)
Fixpoint harvest (visited : list string) (hrefs : list string) : list Entry.t :=
  match hrefs with
  | [] => []
  | href :: rest =>
      match normalizeRoute href (Crawl.stripQuery (Options.crawl options)) with
      | None => harvest visited rest
      | Some n =>
          let b := baseRelative n in
          if negb (has visited b) && negb (isExcluded (Options.exclude options) b)
          then Entry.mk b (-1) :: harvest visited rest
          else harvest visited rest
      end
  end.

(** [captureOne] from [browser.newPage()] to the end of its [try] block;
    [None] when a rejection escapes the call. *)
Definition captureOne_body (route : string) (st : State) : option State :=
  match site route with
  | Escapes => None
  | Fails _ => Some st
  | Rendered titleText hrefs =>
      Some (mkState
              (visited st)
              (captured st ++ [capturedRecord route titleText])
              (if crawlEnabled
               then queue st ++ harvest (visited st) hrefs
               else queue st))
  end.

(** The loop after [await captureOne(route)] in the batch callback. *)
Definition patchEntry (depth : Z) (e : Entry.t) : Entry.t :=
  if (Entry.depth e =? -1)%Z then Entry.mk (Entry.route e) (depth + 1) else e.

Definition patchDepths (depth : Z) (st : State) : State :=
  if crawlEnabled
  then mkState (visited st) (captured st) (map (patchEntry depth) (queue st))
  else st.

(** [queue.splice(0, concurrency).map(...)]: the batch and what is left. *)
Definition spliceCount : nat := Z.to_nat concurrency.

Definition fixDepth (item : Entry.t) : Entry.t :=
  Entry.mk (Entry.route item)
           (if (0 <=? Entry.depth item)%Z then Entry.depth item else 1%Z).

Definition takeBatch (q : list Entry.t) : list Entry.t * list Entry.t :=
  (map fixDepth (firstn spliceCount q), skipn spliceCount q).

(** [batch.map(async ...)]: every callback runs up to its first [await]
    that suspends, in the order of the batch. *)
Fixpoint dispatch (batch : list Entry.t) (st : State) : list Task * State :=
  match batch with
  | [] => ([], st)
  | e :: rest =>
      if crawlEnabled && (maxDepth <? Entry.depth e)%Z then dispatch rest st
      else
        match captureOne_enter (Entry.route e) st with
        | None =>
            let (tasks, st') := dispatch rest st in
            (Closing (Entry.depth e) :: tasks, st')
        | Some st1 =>
            let (tasks, st') := dispatch rest st1 in
            (InFlight (Entry.route e) (Entry.depth e) :: tasks, st')
        end
  end.

(** Resuming a suspended callback up to its next suspension: what is
    left of it, and the state; [None] when it rejects. *)
Definition resume (t : Task) (st : State) : option (option Task * State) :=
  match t with
  | InFlight route depth =>
      match captureOne_body route st with
      | None => None
      | Some st' => Some (Some (Closing depth), st')
      end
  | Closing depth => Some (None, patchDepths depth st)
  end.

(** Running a callback to its end without interleaving. *)
Definition finish (t : Task) (st : State) : option State :=
  match t with
  | InFlight route depth =>
      match captureOne_body route st with
      | None => None
      | Some st' => Some (patchDepths depth st')
      end
  | Closing depth => Some (patchDepths depth st)
  end.

Fixpoint flush (tasks : list Task) (st : State) : option State :=
  match tasks with
  | [] => Some st
  | t :: rest =>
      match finish t st with
      | None => None
      | Some st' => flush rest st'
      end
  end.

Fixpoint replaceAt (i : nat) (ot : option Task) (tasks : list Task) : list Task :=
  match tasks, i with
  | [], _ => []
  | _ :: rest, O => match ot with Some t' => t' :: rest | None => rest end
  | t :: rest, S i' => t :: replaceAt i' ot rest
  end.

(** [await Promise.all(...)]: the suspended callbacks are resumed one at
    a time.  Each number of [sched] picks the next one to resume (modulo
    how many are suspended); when [sched] is used up the rest run to
    their end in the order of the batch. *)
Fixpoint drain (sched : list nat) (tasks : list Task) (st : State) : option State :=
  match sched with
  | [] => flush tasks st
  | c :: sched' =>
      match tasks with
      | [] => Some st
      | _ :: _ =>
          let i := c mod length tasks in
          match nth_error tasks i with
          | None => flush tasks st
          | Some t =>
              match resume t st with
              | None => None
              | Some (ot, st') => drain sched' (replaceAt i ot tasks) st'
              end
          end
      end
  end.

(** One turn of the [while] loop. *)
Definition runBatch (sched : list nat) (st : State) : option State :=
  let (batch, rest) := takeBatch (queue st) in
  let (tasks, st') := dispatch batch (mkState (visited st) (captured st) rest) in
  drain sched tasks st'.

Definition loopGuard (st : State) : bool :=
  negb (Nat.eqb (length (queue st)) 0)
  && (Z.of_nat (length (captured st)) <? maxPages)%Z.

(** The [while] loop; [scheds] gives the schedule of each batch. *)
Fixpoint loop (fuel : nat) (scheds : list (list nat)) (st : State) : LoopResult :=
  match fuel with
  | O => LoopOutOfFuel
  | S fuel' =>
      if loopGuard st then
        match runBatch (hd [] scheds) st with
        | None => LoopRejected
        | Some st' => loop fuel' (tl scheds) st'
        end
      else LoopDone st
  end.

(** [[...captured].sort((a, b) => a.route.localeCompare(b.route))].
    [Array.prototype.sort] is stable, and with a consistent comparator it
    returns the sorted arrangement that keeps equal elements in their
    order; insertion from the right computes that arrangement. *)
Fixpoint insertByRoute (x : Captured.t) (l : list Captured.t) : list Captured.t :=
  match l with
  | [] => [x]
  | y :: l' =>
      if (localeCompare (Captured.route x) (Captured.route y) <=? 0)%Z
      then x :: l
      else y :: insertByRoute x l'
  end.

Definition sortByRoute (l : list Captured.t) : list Captured.t :=
  fold_right insertByRoute [] l.

Definition items (captured : list Captured.t) : list Captured.t :=
  if Output.sort (Options.output options) then sortByRoute captured else captured.

(** [bySection.set(s, [...(bySection.get(s) || []), item])] on a [Map],
    kept as the list of its entries in insertion order. *)
Fixpoint addToSection (s : string) (item : Captured.t)
         (bySection : list (string * list Captured.t))
  : list (string * list Captured.t) :=
  match bySection with
  | [] => [(s, [item])]
  | (k, its) :: rest =>
      if String.eqb k s then (k, its ++ [item]) :: rest
      else (k, its) :: addToSection s item rest
  end.

(** The grouping loop: [bySection] and [optionalItems]. *)
Definition groupItems (its : list Captured.t)
  : list (string * list Captured.t) * list Captured.t :=
  fold_left
    (fun acc item =>
       if Captured.optional item then (fst acc, snd acc ++ [item])
       else (addToSection (Str.orElse (Captured.section item) "Pages") item (fst acc),
             snd acc))
    its ([], []).

(** [makeLlmsLink(relMdPath)] *)
Definition makeLlmsLink (relMdPath : string) : string :=
  Str.backslashToSlash relMdPath.

Definition renderItem (it : Captured.t) : string :=
  let link := makeLlmsLink (Captured.mdRelPath it) in
  let label := Str.orElse (Captured.title it) (Captured.route it) in
  let notes :=
    if Str.truthy (optString (Captured.notes it))
    then ": " ^^ optString (Captured.notes it) else "" in
  "- [" ^^ label ^^ "](" ^^ link ^^ ")" ^^ notes ^^ Str.nl.

Definition renderItems (its : list Captured.t) : string :=
  String.concat "" (map renderItem its).

Definition renderSection (entry : string * list Captured.t) : string :=
  "## " ^^ fst entry ^^ Str.nl ^^ Str.nl ^^ renderItems (snd entry) ^^ Str.nl.

Definition llmsTitle : string :=
  Str.orElse (optString (Output.llmsTitle (Options.output options)))
             (Str.orElse (optString (ResolvedConfig.mode resolvedConfig)) "Site").

(** The text of [llms.txt]. *)
Definition renderLlms (captured : list Captured.t) : string :=
  let (bySection, optionalItems) := groupItems (items captured) in
  "# " ^^ llmsTitle ^^ Str.nl ^^ Str.nl
  ^^ "> " ^^ Output.llmsSummary (Options.output options) ^^ Str.nl ^^ Str.nl
  ^^ String.concat "" (map renderSection bySection)
  ^^ (match optionalItems with
      | [] => ""
      | _ :: _ => "## Optional" ^^ Str.nl ^^ Str.nl ^^ renderItems optionalItems ^^ Str.nl
      end).

Definition initialState : State := mkState [] [] seedQueue.

(** [closeBundle()], from the seeding of the queue to [llms.txt]. *)
Definition closeBundle (fuel : nat) (scheds : list (list nat)) : Outcome :=
  if negb (Options.enabled options) then Skipped
  else
    match loop fuel scheds initialState with
    | LoopDone st => Written (renderLlms (captured st)) (captured st)
    | LoopRejected => Rejected
    | LoopOutOfFuel => OutOfFuel
    end.

End Pipeline.

(** Byte-wise comparison, standing in for [localeCompare] in examples. *)
Definition byteCompare (a b : string) : Z :=
  match String.compare a b with
  | Eq => 0%Z
  | Lt => (-1)%Z
  | Gt => 1%Z
  end.

(** The routes of the callbacks that are inside [captureOne]. *)
Definition pending (tasks : list Task) : list string :=
  flat_map (fun t => match t with InFlight r _ => [r] | Closing _ => [] end) tasks.

Definition capturedRoutes (st : State) : list string :=
  map Captured.route (captured st).

(** The invariant of the three collections, with [P] the routes of the
    callbacks inside [captureOne]: no route was added to [visited] twice;
    the pending and the captured routes are pairwise distinct, were all
    added to [visited], and none of them is excluded. *)
Definition Inv (options : Options.t) (P : list string) (st : State) : Prop :=
  NoDup (visited st)
  /\ NoDup (P ++ capturedRoutes st)
  /\ incl (P ++ capturedRoutes st) (visited st)
  /\ Forall (fun r => isExcluded (Options.exclude options) r = false)
            (P ++ capturedRoutes st).

(** The options with another [crawl.concurrency]. *)
Definition withConcurrency (c : Z) (options : Options.t) : Options.t :=
  Options.mk
    (Options.enabled options)
    (Options.routes options)
    (Crawl.mk (Crawl.enabled (Options.crawl options))
              (Crawl.seeds (Options.crawl options))
              (Crawl.maxDepth (Options.crawl options))
              (Crawl.maxPages (Options.crawl options))
              c
              (Crawl.stripQuery (Options.crawl options)))
    (Options.exclude options)
    (Options.output options).

(** Two runs end alike: both skipped, both rejected, both cut short, or
    both with the same text of [llms.txt] over the same pages. *)
Definition sameIndex (a b : Outcome) : Prop :=
  match a, b with
  | Skipped, Skipped => True
  | Rejected, Rejected => True
  | OutOfFuel, OutOfFuel => True
  | Written llms1 pages1, Written llms2 pages2 =>
      llms1 = llms2 /\ Permutation pages1 pages2
  | _, _ => False
  end.

(** The records that the given routes push when their captures end. *)
Definition renderedPages (options : Options.t) (site : Site) (routes : list string)
  : list Captured.t :=
  flat_map
    (fun r =>
       match site r with
       | Rendered titleText _ => [capturedRecord options r titleText]
       | _ => []
       end)
    routes.

(** The order that the sort of the index goes by. *)
Definition routeLe (localeCompare : string -> string -> Z) (x y : Captured.t) : Prop :=
  (localeCompare (Captured.route x) (Captured.route y) <= 0)%Z.

(** What draining a batch comes to in explicit mode: it rejects when a
    pending route escapes, and otherwise adds the pages of the pending
    routes that render, in some order. *)
Definition drained (options : Options.t) (site : Site)
           (tasks : list Task) (st : State) (result : option State) : Prop :=
  match result with
  | None => exists r, In r (pending tasks) /\ site r = Escapes
  | Some st' =>
      (forall r, In r (pending tasks) -> site r <> Escapes)
      /\ visited st' = visited st
      /\ queue st' = queue st
      /\ Permutation (captured st') (captured st ++ renderedPages options site (pending tasks))
  end.

(** Two states of two runs that went through the same batches. *)
Definition sameProgress (st1 st2 : State) : Prop :=
  visited st1 = visited st2
  /\ queue st1 = queue st2
  /\ Permutation (captured st1) (captured st2).

Definition sameLoopResult (a b : LoopResult) : Prop :=
  match a, b with
  | LoopDone st1, LoopDone st2 => sameProgress st1 st2
  | LoopRejected, LoopRejected => True
  | LoopOutOfFuel, LoopOutOfFuel => True
  | _, _ => False
  end.

(** The depth that a callback patches placeholders from. *)
Definition taskDepth (t : Task) : Z :=
  match t with
  | InFlight _ depth => depth
  | Closing depth => depth
  end.

(** The state between two batches of an explicit run: the queue has not
    grown; every declared route is still queued, or was added to
    [visited], or is excluded; and every route added to [visited] that
    renders has its page captured. *)
Definition settled (options : Options.t) (site : Site) (st : State) : Prop :=
  (length (captured st) + length (queue st) <= length (seedQueue options))%nat
  /\ (forall e, In e (seedQueue options) ->
                In e (queue st)
                \/ In (Entry.route e) (visited st)
                \/ isExcluded (Options.exclude options) (Entry.route e) = true)
  /\ (forall r titleText hrefs,
         In r (visited st) -> site r = Rendered titleText hrefs ->
         In (capturedRecord options r titleText) (captured st)).

(* ------------------------------------------------------------------ *)
(** ** Further parts of the plugin *)

(** *** Logging *)

(** The three channels of [log]: whether a call on the channel prints
    under the given [options.logLevel]. *)
Module Log.

Definition info (logLevel : string) : bool :=
  String.eqb logLevel "info" || String.eqb logLevel "debug".

Definition debug (logLevel : string) : bool := String.eqb logLevel "debug".

Definition warn (logLevel : string) : bool := negb (String.eqb logLevel "silent").

End Log.

(** *** Files and URLs *)

(** [path.join(...parts)] with [path] being [path.posix], as it is on a
    POSIX platform: empty arguments are skipped, the others are glued
    with ["/"], and the result is normalised. *)
Definition joinAll (parts : list string) : string :=
  match filter Str.truthy parts with
  | [] => "."
  | kept => PosixPath.normalize (Str.joinSlash kept)
  end.



(** [resolvedConfig.build.outDir || "dist"] *)
Definition distDir (outDir : string) : string := Str.orElse outDir "dist".

(** [routeToMdFsPath(distDir, route)], with [options.output.mode] and
    [options.output.subdir]. *)
Definition routeToMdFsPath (mode subdir distDir route : string) : string :=
  let rel := routeToMdWebPath route in
  if String.eqb mode "subdir" then joinAll [distDir; subdir; rel]
  else joinAll [distDir; rel].

(** [route.replace(/^\//, "")] *)
Definition stripLeadingSlash (s : string) : string :=
  match s with
  | String c s' => if Ascii.eqb c "/" then s' else s
  | EmptyString => s
  end.

(** A port number as a template literal prints it. *)
Definition decimal (n : nat) : string :=
  DecimalString.NilEmpty.string_of_uint (Nat.to_uint n).

(** The origin of the preview server. *)
Definition origin (port : nat) : string := "http://127.0.0.1:" ^^ decimal port.

(** [baseUrl]: the origin followed by [normalizedBase]. *)
Definition baseUrl (resolvedConfig : ResolvedConfig.t) (port : nat) : string :=
  origin port ^^ normalizedBase resolvedConfig.

(** [pageUrl], the address that [page.goto] is given for a route. *)
Definition pageUrl (resolvedConfig : ResolvedConfig.t) (port : nat) (route : string)
  : string :=
  if String.eqb route "/" then baseUrl resolvedConfig port
  else baseUrl resolvedConfig port ^^ stripLeadingSlash route.

(** *** The main content of a page *)

(** The document once the removal selectors are applied: [dom sel] is
    [$(sel).first().html()], and [None] when [sel] matches nothing. *)
Definition Dom : Type := string -> option string.

(** [options.extract.mainSelector]: one selector or an array of them.  A
    falsy selector ([null], [undefined], the empty string) is [""]. *)
Inductive MainSelector : Type :=
| OneSelector (sel : string)
| SelectorList (sels : list string).

(** [Array.isArray(m) ? m : [m]] *)
Definition mainSelectors (m : MainSelector) : list string :=
  match m with
  | SelectorList sels => sels
  | OneSelector sel => [sel]
  end.

(** The loop over [mainSelectors]: it stops at the first selector that
    matches. *)
Fixpoint selectMain (dom : Dom) (sels : list string) : option string :=
  match sels with
  | [] => None
  | sel :: rest =>
      if negb (Str.truthy sel) then selectMain dom rest
      else match dom sel with
           | Some html => Some html
           | None => selectMain dom rest
           end
  end.

(** [mainHtml] after the fallback to [main] and [body]. *)
Definition mainHtml (dom : Dom) (m : MainSelector) : option string :=
  let found := selectMain dom (mainSelectors m) in
  if Str.truthy (optString found) then found
  else match dom "main" with
       | Some html => Some html
       | None => dom "body"
       end.

(** What is handed to [turndown]: [mainHtml || ""]. *)
Definition markdownSource (dom : Dom) (m : MainSelector) : string :=
  optString (mainHtml dom m).

(* ------------------------------------------------------------------ *)
(** ** Static mode

    The published build ([dist/index.js]) has a second way to produce the
    pages: with [options.static] it reads the HTML files of the output
    directory instead of rendering the routes in a browser. *)

(** [routeToHtmlFsPath(distDir, route)] *)
Definition routeToHtmlFsPath (distDir route : string) : string :=
  if String.eqb route "/" then joinAll [distDir; "index.html"]
  else if Str.endsWith route "/"
       then joinAll [distDir; Str.sliceFrom route 1; "index.html"]
       else joinAll [distDir; Str.sliceFrom route 1 ^^ ".html"].

(** [shouldUseStaticMode()]; [static] is [Some b] for the boolean [b] and
    [None] for any other value, such as the default ["auto"]. *)
Definition shouldUseStaticMode (static : option bool) (options : Options.t) : bool :=
  match static with
  | Some true => true
  | Some false => false
  | None => negb (crawlEnabled options)
  end.

Section StaticMode.

Variable options : Options.t.
Variable resolvedConfig : ResolvedConfig.t.
Variable localeCompare : string -> string -> Z.

(** [distDir] as [closeBundle] computes it. *)
Variable dist : string.

(** [fs.readFile(path, "utf8")]: [None] when it throws. *)
Variable readFile : string -> option string.

(** The steps from [cheerio.load] to [fs.writeFile] for a route and the
    HTML read for it: [$("title").text()] when they all succeed, [None]
    when one of them throws. *)
Variable process : string -> string -> option string.

(** [htmlContent] after the [try] blocks; [None] stands for [null] and
    for the [continue] of the innermost [catch]. *)
Definition htmlContent (route : string) : option string :=
  match readFile (routeToHtmlFsPath dist route) with
  | Some content => Some content
  | None =>
      if negb (Str.endsWith route "/") && negb (String.eqb route "/") then
        match readFile (joinAll [dist; Str.sliceFrom route 1; "index.html"]) with
        | Some content => Some content
        | None => readFile (joinAll [dist; "index.html"])
        end
      else None
  end.

(** The record pushed on [captured] for the declaration [rd]. *)
Definition staticRecord (rd : RouteDef.t) (titleText : string) : Captured.t :=
  let route := RouteDef.path rd in
  let title := Str.orElse (Str.trim titleText) route in
  Captured.mk
    route
    (Str.orElse (optString (RouteDef.title rd)) title)
    (Str.orElse (optString (RouteDef.section rd)) "Pages")
    (optBool (RouteDef.optional rd))
    (RouteDef.notes rd)
    (mdRelPath (Output.mode (Options.output options))
               (Output.subdir (Options.output options)) route).

(** The loop over [routeDefs]; [None] when an exception leaves it. *)
Fixpoint staticLoop (rds : list RouteDef.t) (captured : list Captured.t)
  : option (list Captured.t) :=
  match rds with
  | [] => Some captured
  | rd :: rest =>
      let route := RouteDef.path rd in
      if isExcluded (Options.exclude options) route then staticLoop rest captured
      else
        match htmlContent route with
        | None => staticLoop rest captured
        | Some content =>
            if negb (Str.truthy content) then staticLoop rest captured
            else
              match process route content with
              | None => None
              | Some titleText =>
                  staticLoop rest (captured ++ [staticRecord rd titleText])
              end
        end
  end.

(** [closeBundle()] when [useStaticMode] holds. *)
Definition closeBundleStatic : Outcome :=
  if negb (Options.enabled options) then Skipped
  else
    match staticLoop (routeDefs options) [] with
    | Some captured => Written (renderLlms options resolvedConfig localeCompare captured) captured
    | None => Rejected
    end.

(** What the loop pushes for one declaration when nothing throws. *)
Definition staticPage (rd : RouteDef.t) : list Captured.t :=
  if isExcluded (Options.exclude options) (RouteDef.path rd) then []
  else
    match htmlContent (RouteDef.path rd) with
    | None => []
    | Some content =>
        if negb (Str.truthy content) then []
        else match process (RouteDef.path rd) content with
             | None => []
             | Some titleText => [staticRecord rd titleText]
             end
    end.

(** The declaration is processed and a step of its processing throws. *)
Definition staticFailure (rd : RouteDef.t) : bool :=
  negb (isExcluded (Options.exclude options) (RouteDef.path rd))
  && match htmlContent (RouteDef.path rd) with
     | None => false
     | Some content =>
         Str.truthy content
         && match process (RouteDef.path rd) content with
            | None => true
            | Some _ => false
            end
     end.

End StaticMode.

(* ------------------------------------------------------------------ *)
(** ** Notions used in the statements *)

(** A route that starts with a slash. *)
Definition rooted (r : string) : bool := Str.startsWith r "/".

(** A route of the shape that [normalizeRoute] gives: it starts with a
    slash and holds no two slashes in a row and no ["#"]. *)
Definition wellShaped (r : string) : bool :=
  rooted r && negb (Str.includes r "//") && negb (Str.includes r "#").

(** A property of routes that holds of the routes of the suspended
    callbacks, of the queue and of the captured pages. *)
Definition routesSatisfy (P : string -> Prop) (tasks : list Task) (st : State) : Prop :=
  Forall P (pending tasks)
  /\ Forall (fun e => P (Entry.route e)) (queue st)
  /\ Forall P (capturedRoutes st).

(** No two different routes of the list tie under the comparison:
    neither is sorted after the other only when they are the same. *)
Definition noTies (localeCompare : string -> string -> Z) (routes : list string) : Prop :=
  forall a b,
    In a routes -> In b routes ->
    (localeCompare a b <= 0)%Z -> (localeCompare b a <= 0)%Z -> a = b.

(** The heading that an entry of the index is listed under. *)
Definition sectionOf (it : Captured.t) : string :=
  Str.orElse (Captured.section it) "Pages".

Definition inSection (k : string) (it : Captured.t) : bool :=
  negb (Captured.optional it) && String.eqb (sectionOf it) k.

(** The first occurrences of a list of names, in their order. *)
Fixpoint firstSeen (seen names : list string) : list string :=
  match names with
  | [] => []
  | k :: rest =>
      if existsb (String.eqb k) seen then firstSeen seen rest
      else k :: firstSeen (k :: seen) rest
  end.

(** The routes that a run can come to: the seeds of the queue and, when
    crawling, the links of the pages of such routes. *)
Inductive reachable (options : Options.t) (resolvedConfig : ResolvedConfig.t)
          (site : Site) : string -> Prop :=
| reach_seed (e : Entry.t) :
    In e (seedQueue options) -> reachable options resolvedConfig site (Entry.route e)
| reach_link (parent titleText : string) (hrefs : list string) (href n : string) :
    crawlEnabled options = true ->
    reachable options resolvedConfig site parent ->
    site parent = Rendered titleText hrefs ->
    In href hrefs ->
    normalizeRoute href (Crawl.stripQuery (Options.crawl options)) = Some n ->
    reachable options resolvedConfig site (baseRelative resolvedConfig n).

(** The routes that a crawl has to come to: the seeds that are not
    excluded and render, and the links of such pages that are not
    excluded and render. *)
Inductive crawlable (options : Options.t) (resolvedConfig : ResolvedConfig.t)
          (site : Site) : string -> Prop :=
| crawl_seed (e : Entry.t) (titleText : string) (hrefs : list string) :
    In e (seedQueue options) ->
    isExcluded (Options.exclude options) (Entry.route e) = false ->
    site (Entry.route e) = Rendered titleText hrefs ->
    crawlable options resolvedConfig site (Entry.route e)
| crawl_link (parent titleText : string) (hrefs : list string) (href n : string)
             (titleText' : string) (hrefs' : list string) :
    crawlable options resolvedConfig site parent ->
    site parent = Rendered titleText hrefs ->
    In href hrefs ->
    normalizeRoute href (Crawl.stripQuery (Options.crawl options)) = Some n ->
    isExcluded (Options.exclude options) (baseRelative resolvedConfig n) = false ->
    site (baseRelative resolvedConfig n) = Rendered titleText' hrefs' ->
    crawlable options resolvedConfig site (baseRelative resolvedConfig n).

(** A route that the crawl owes a visit in the state [st]: it is not
    excluded, and it is a seed or a link of a captured page. *)
Definition wanted (options : Options.t) (resolvedConfig : ResolvedConfig.t)
           (site : Site) (st : State) (r : string) : Prop :=
  isExcluded (Options.exclude options) r = false
  /\ ((exists e, In e (seedQueue options) /\ Entry.route e = r)
      \/ (exists parent titleText hrefs href n,
             In parent (capturedRoutes st)
             /\ site parent = Rendered titleText hrefs
             /\ In href hrefs
             /\ normalizeRoute href (Crawl.stripQuery (Options.crawl options)) = Some n
             /\ baseRelative resolvedConfig n = r)).

(** The invariant of a crawl, with [batch] the entries taken off the
    queue and not dispatched yet: a wanted route was added to [visited]
    or is waiting, and a route added to [visited] is inside
    [captureOne], or has its page captured, or failed. *)
Definition crawlInv (options : Options.t) (resolvedConfig : ResolvedConfig.t)
           (site : Site) (batch : list Entry.t) (tasks : list Task) (st : State) : Prop :=
  (forall r, wanted options resolvedConfig site st r ->
             In r (visited st)
             \/ In r (map Entry.route (queue st))
             \/ In r (map Entry.route batch))
  /\ (forall r, In r (visited st) ->
                In r (pending tasks)
                \/ In r (capturedRoutes st)
                \/ exists s, site r = Fails s).

(** The states that the loop is in between two batches. *)
Inductive betweenBatches (options : Options.t) (resolvedConfig : ResolvedConfig.t)
          (site : Site) : State -> Prop :=
| between_start : betweenBatches options resolvedConfig site (initialState options)
| between_batch (sched : list nat) (st st' : State) :
    betweenBatches options resolvedConfig site st ->
    loopGuard options st = true ->
    runBatch options resolvedConfig site sched st = Some st' ->
    betweenBatches options resolvedConfig site st'.

Module JsPath.
Import Js.

Definition hasKey (key : string) (fields : list (string * value)) : bool :=
  existsb (String.eqb key) (map fst fields).

(** [given source path]: the value that the user's options hold at
    [path], when the path leads through plain objects to a value that
    is not one (a scalar, [null], [undefined], an array, a [RegExp], a
    function). *)
Fixpoint given (source : value) (path : list string) : option value :=
  match path, source with
  | key :: rest, VObj fields =>
      if hasKey key fields then
        let v := get key fields in
        match rest with
        | [] => if isPlainObject v then None else Some v
        | _ :: _ => if isPlainObject v then given v rest else None
        end
      else None
  | _, _ => None
  end.


End JsPath.

(* ------------------------------------------------------------------ *)
(** ** Exclusion rules as objects

    An entry of [options.exclude] that is a [RegExp] is an object.  With
    the [g] or the [y] flag its [test] method starts at the [lastIndex]
    that the call before left and leaves its own, so [isExcluded] reads
    and writes state.  What follows is the pipeline once more, with the
    rules as such objects next to the three collections. *)

Module RegExp.

(** The flags of the object and the matcher of its pattern:
    [matcher s i] is the index at which a match that starts at index [i]
    of [s] ends, when there is one. *)
Record t : Type := mk
  { global : bool;
    sticky : bool;
    matcher : string -> nat -> option nat }.

(** The flags under which [lastIndex] is read and written. *)
Definition keepsIndex (re : t) : bool := global re || sticky re.

(** The search of [RegExpBuiltinExec]: the match is tried at index [i]
    and, unless the pattern is sticky, at the indices after it, up to
    the length of [s]. *)
Fixpoint search (re : t) (s : string) (i tries : nat) : option nat :=
  if (String.length s <? i)%nat then None
  else
    match matcher re s i with
    | Some e => Some e
    | None =>
        if sticky re then None
        else match tries with
             | O => None
             | S tries' => search re s (S i) tries'
             end
    end.

(** [re.test(s)] when [re.lastIndex] is [lastIndex]: the result and the
    [lastIndex] that the call leaves. *)
Definition test (re : t) (lastIndex : nat) (s : string) : bool * nat :=
  let start := if keepsIndex re then lastIndex else O in
  match search re s start (String.length s) with
  | Some e => (true, if keepsIndex re then e else lastIndex)
  | None => (false, if keepsIndex re then O else lastIndex)
  end.

(** The pattern that matches the text [p], such as [/\/admin/]. *)
Definition ofText (global sticky : bool) (p : string) : t :=
  mk global sticky
     (fun s i =>
        if Str.startsWith (Str.sliceFrom s i) p then Some (i + String.length p)%nat
        else None).

End RegExp.

Module Stateful.

(** An entry of [options.exclude]: a string, or a [RegExp] object with
    its [lastIndex]. *)
Inductive Rule : Type :=
| Text (p : string)
| Regex (re : RegExp.t) (lastIndex : nat).

(** [isExcluded(route)]: [some] stops at the first rule that matches;
    every [RegExp] that it tested keeps the [lastIndex] of that test. *)
Fixpoint isExcluded (exclude : list Rule) (route : string) : bool * list Rule :=
  match exclude with
  | [] => (false, [])
  | Text p :: rest =>
      if Str.includes route p then (true, Text p :: rest)
      else let (found, rest') := isExcluded rest route in (found, Text p :: rest')
  | Regex re lastIndex :: rest =>
      let (matched, lastIndex') := RegExp.test re lastIndex route in
      if matched then (true, Regex re lastIndex' :: rest)
      else let (found, rest') := isExcluded rest route in
           (found, Regex re lastIndex' :: rest')
  end.

(** A rule without state: a string, or a [RegExp] with neither flag. *)
Definition stateless (rule : Rule) : Prop :=
  match rule with
  | Text _ => True
  | Regex re _ => RegExp.keepsIndex re = false
  end.

(** The rule as a predicate on routes: whether [test] holds of a route
    when [lastIndex] is [0]. *)
Definition view (rule : Rule) : ExclusionRule :=
  match rule with
  | Text p => Literal p
  | Regex re _ => Pattern (fun route => fst (RegExp.test re O route))
  end.

(** The merged [options], with the rules as objects. *)
Record Options : Type := mkOptions
  { enabled : bool;
    routes : option (list RouteDef.t);
    crawl : Crawl.t;
    exclude : list Rule;
    output : Output.t }.

(** The same options with every rule as a predicate. *)
Definition plain (o : Options) : Options.t :=
  Options.mk (enabled o) (routes o) (crawl o) (map view (exclude o)) (output o).

(** The collections of [closeBundle] and the rules of [options.exclude]
    as they stand. *)
Record World : Type := mkWorld
  { collections : State;
    rules : list Rule }.

Section Pipeline.

Variable options : Options.
Variable resolvedConfig : ResolvedConfig.t.
Variable site : Site.
Variable localeCompare : string -> string -> Z.

(** The guards of [captureOne], up to [visited.add(route)]: whether the
    call went past them. *)
Definition captureOne_enter (route : string) (w : World) : bool * World :=
  let st := collections w in
  if has (visited st) route then (false, w)
  else
    let (excluded, rules') := isExcluded (rules w) route in
    if excluded then (false, mkWorld st rules')
    else if (maxPages (plain options) <=? Z.of_nat (length (captured st)))%Z
         then (false, mkWorld st rules')
         else (true, mkWorld (mkState (route :: visited st) (captured st) (queue st))
                             rules').

(** The loop over [hrefs]: what it pushes on [queue]. *)
Fixpoint harvest (visited hrefs : list string) (rules : list Rule)
  : list Entry.t * list Rule :=
  match hrefs with
  | [] => ([], rules)
  | href :: rest =>
      match normalizeRoute href (Crawl.stripQuery (crawl options)) with
      | None => harvest visited rest rules
      | Some n =>
          let b := baseRelative resolvedConfig n in
          if has visited b then harvest visited rest rules
          else
            let (excluded, rules') := isExcluded rules b in
            if excluded then harvest visited rest rules'
            else let (found, rules'') := harvest visited rest rules' in
                 (Entry.mk b (-1) :: found, rules'')
      end
  end.

(** [captureOne] from [browser.newPage()] to the end of its [try] block;
    [None] when a rejection escapes the call. *)
Definition captureOne_body (route : string) (w : World) : option World :=
  let st := collections w in
  match site route with
  | Escapes => None
  | Fails _ => Some w
  | Rendered titleText hrefs =>
      let pages := captured st ++ [capturedRecord (plain options) route titleText] in
      if crawlEnabled (plain options) then
        let (found, rules') := harvest (visited st) hrefs (rules w) in
        Some (mkWorld (mkState (visited st) pages (queue st ++ found)) rules')
      else Some (mkWorld (mkState (visited st) pages (queue st)) (rules w))
  end.

(** The loop after [await captureOne(route)] in the batch callback. *)
Definition patchDepths (depth : Z) (w : World) : World :=
  mkWorld (patchDepths (plain options) depth (collections w)) (rules w).

(** [batch.map(async ...)]: every callback runs up to its first [await]
    that suspends, in the order of the batch. *)
Fixpoint dispatch (batch : list Entry.t) (w : World) : list Task * World :=
  match batch with
  | [] => ([], w)
  | e :: rest =>
      if crawlEnabled (plain options) && (maxDepth (plain options) <? Entry.depth e)%Z
      then dispatch rest w
      else
        let (entered, w1) := captureOne_enter (Entry.route e) w in
        let (tasks, w') := dispatch rest w1 in
        ((if entered then InFlight (Entry.route e) (Entry.depth e)
          else Closing (Entry.depth e)) :: tasks, w')
  end.

Definition resume (t : Task) (w : World) : option (option Task * World) :=
  match t with
  | InFlight route depth =>
      match captureOne_body route w with
      | None => None
      | Some w' => Some (Some (Closing depth), w')
      end
  | Closing depth => Some (None, patchDepths depth w)
  end.

Definition finish (t : Task) (w : World) : option World :=
  match t with
  | InFlight route depth =>
      match captureOne_body route w with
      | None => None
      | Some w' => Some (patchDepths depth w')
      end
  | Closing depth => Some (patchDepths depth w)
  end.

Fixpoint flush (tasks : list Task) (w : World) : option World :=
  match tasks with
  | [] => Some w
  | t :: rest =>
      match finish t w with
      | None => None
      | Some w' => flush rest w'
      end
  end.

(** [await Promise.all(...)] under the schedule [sched]. *)
Fixpoint drain (sched : list nat) (tasks : list Task) (w : World) : option World :=
  match sched with
  | [] => flush tasks w
  | c :: sched' =>
      match tasks with
      | [] => Some w
      | _ :: _ =>
          let i := c mod length tasks in
          match nth_error tasks i with
          | None => flush tasks w
          | Some t =>
              match resume t w with
              | None => None
              | Some (ot, w') => drain sched' (replaceAt i ot tasks) w'
              end
          end
      end
  end.

(** One turn of the [while] loop. *)
Definition runBatch (sched : list nat) (w : World) : option World :=
  let st := collections w in
  let (batch, rest) := takeBatch (plain options) (queue st) in
  let (tasks, w') :=
    dispatch batch (mkWorld (mkState (visited st) (captured st) rest) (rules w)) in
  drain sched tasks w'.

(** The [while] loop; [scheds] gives the schedule of each batch. *)
Fixpoint loop (fuel : nat) (scheds : list (list nat)) (w : World) : LoopResult :=
  match fuel with
  | O => LoopOutOfFuel
  | S fuel' =>
      if loopGuard (plain options) (collections w) then
        match runBatch (hd [] scheds) w with
        | None => LoopRejected
        | Some w' => loop fuel' (tl scheds) w'
        end
      else LoopDone (collections w)
  end.

Definition initialWorld : World :=
  mkWorld (initialState (plain options)) (exclude options).

(** [closeBundle()] of [src/index.js], from the seeding of the queue to
    [llms.txt]. *)
Definition closeBundle (fuel : nat) (scheds : list (list nat)) : Outcome :=
  if negb (enabled options) then Skipped
  else
    match loop fuel scheds initialWorld with
    | LoopDone st =>
        Written (renderLlms (plain options) resolvedConfig localeCompare (captured st))
                (captured st)
    | LoopRejected => Rejected
    | LoopOutOfFuel => OutOfFuel
    end.

End Pipeline.

End Stateful.

(* ------------------------------------------------------------------ *)
(** ** The published build

    [closeBundle] of [dist/index.js] branches on [shouldUseStaticMode]:
    the loop over [routeDefs] that reads the HTML files, or the preview
    server and the browser as in [src/index.js]. *)

Module Published.

Section Build.

(** [options.static]: [Some b] for the boolean [b], [None] for any other
    value, such as the default ["auto"]. *)
Variable static : option bool.
Variable options : Stateful.Options.
Variable resolvedConfig : ResolvedConfig.t.
Variable site : Site.
Variable localeCompare : string -> string -> Z.
(** [distDir], [fs.readFile] and the steps from [cheerio.load] to
    [fs.writeFile], as for [staticLoop]. *)
Variable dist : string.
Variable readFile : string -> option string.
Variable process : string -> string -> option string.

(** The loop over [routeDefs] in static mode; [None] when an exception
    leaves it. *)
Fixpoint staticLoop (rds : list RouteDef.t) (captured : list Captured.t)
         (rules : list Stateful.Rule) : option (list Captured.t) :=
  match rds with
  | [] => Some captured
  | rd :: rest =>
      let route := RouteDef.path rd in
      let (excluded, rules') := Stateful.isExcluded rules route in
      if excluded then staticLoop rest captured rules'
      else
        match htmlContent dist readFile route with
        | None => staticLoop rest captured rules'
        | Some content =>
            if negb (Str.truthy content) then staticLoop rest captured rules'
            else
              match process route content with
              | None => None
              | Some titleText =>
                  staticLoop rest
                             (captured ++ [staticRecord (Stateful.plain options) rd titleText])
                             rules'
              end
        end
  end.

Definition useStaticMode : bool := shouldUseStaticMode static (Stateful.plain options).

(** [closeBundle()] of the published build. *)
Definition closeBundle (fuel : nat) (scheds : list (list nat)) : Outcome :=
  if negb (Stateful.enabled options) then Skipped
  else if useStaticMode then
    match staticLoop (routeDefs (Stateful.plain options)) [] (Stateful.exclude options) with
    | Some captured =>
        Written (renderLlms (Stateful.plain options) resolvedConfig localeCompare captured)
                captured
    | None => Rejected
    end
  else
    match Stateful.loop options resolvedConfig site fuel scheds
                        (Stateful.initialWorld options) with
    | LoopDone st =>
        Written (renderLlms (Stateful.plain options) resolvedConfig localeCompare
                            (captured st))
                (captured st)
    | LoopRejected => Rejected
    | LoopOutOfFuel => OutOfFuel
    end.

End Build.

End Published.

(** The declared routes' pages in explicit mode: the record of a declared
    route that is not excluded and that renders. *)
Definition declaredPage (options : Options.t) (site : Site) (p : Captured.t) : Prop :=
  exists e titleText hrefs,
    In e (seedQueue options)
    /\ isExcluded (Options.exclude options) (Entry.route e) = false
    /\ site (Entry.route e) = Rendered titleText hrefs
    /\ p = capturedRecord options (Entry.route e) titleText.

(* ================================================================== *)
(** * Properties *)

(** ** Strings *)

Lemma splitSlash_not_nil (s : string) : Str.splitSlash s <> [].
Proof.
  destruct s as [|c s]; simpl; [discriminate|].
  destruct (Ascii.eqb c "/"); [discriminate|].
  destruct (Str.splitSlash s); discriminate.
Qed.

Lemma joinSlash_cons (seg : string) (rest : list string) :
  rest <> [] -> Str.joinSlash (seg :: rest) = seg ^^ "/" ^^ Str.joinSlash rest.
Proof. destruct rest; [congruence | reflexivity]. Qed.

Lemma joinSlash_splitSlash (s : string) : Str.joinSlash (Str.splitSlash s) = s.
Proof.
  induction s as [|c s IH]; [reflexivity|].
  simpl Str.splitSlash.
  destruct (Ascii.eqb c "/") eqn:Hc.
  - apply Ascii.eqb_eq in Hc; subst c.
    rewrite joinSlash_cons by apply splitSlash_not_nil.
    now rewrite IH.
  - pose proof (splitSlash_not_nil s) as Hn.
    destruct (Str.splitSlash s) as [|seg rest]; [congruence|].
    destruct rest as [|seg' rest'].
    + simpl in *. now rewrite IH.
    + rewrite joinSlash_cons in IH by discriminate.
      rewrite joinSlash_cons by discriminate.
      simpl. f_equal. exact IH.
Qed.

Lemma splitSlash_app (a b : string) :
  Str.splitSlash (a ^^ "/" ^^ b) = Str.splitSlash a ++ Str.splitSlash b.
Proof.
  induction a as [|c a IH]; [reflexivity|].
  cbn [String.append Str.splitSlash]. destruct (Ascii.eqb c "/").
  - cbn [String.append] in IH. now rewrite IH.
  - cbn [String.append] in IH. rewrite IH.
    pose proof (splitSlash_not_nil a) as Hn.
    destruct (Str.splitSlash a); [congruence | reflexivity].
Qed.

Lemma startsWith_slash_head (s : string) :
  Str.startsWith s "/" = true -> exists rest, Str.splitSlash s = "" :: rest.
Proof.
  destruct s as [|c s]; [discriminate|].
  cbn [Str.startsWith Str.splitSlash].
  destruct (Ascii.eqb c "/"); [eauto | discriminate].
Qed.

Lemma endsWith_slash_last (s : string) :
  Str.endsWith s "/" = true ->
  exists l, l <> [] /\ Str.splitSlash s = l ++ [""].
Proof.
  induction s as [|c s IH]; [discriminate|].
  cbn [Str.endsWith Str.splitSlash].
  destruct (String.eqb (String c s) "/") eqn:He.
  - apply String.eqb_eq in He. inversion He; subst. intros _.
    exists [""]. split; [discriminate | reflexivity].
  - intros H. destruct (IH H) as (l & Hl & El). rewrite El.
    destruct (Ascii.eqb c "/").
    + exists ("" :: l). split; [discriminate | reflexivity].
    + destruct l as [|seg l']; [congruence|].
      exists (String c seg :: l'). split; [discriminate | reflexivity].
Qed.
Lemma startsWith_iff (s p : string) :
  Str.startsWith s p = true <-> exists rest, s = p ^^ rest.
Proof.
  revert s. induction p as [|b p IH]; intros s; simpl.
  - split; [eauto | reflexivity].
  - destruct s as [|a s].
    + split; [discriminate | intros (rest & H); discriminate].
    + rewrite andb_true_iff, Ascii.eqb_eq, IH. split.
      * intros (-> & rest & ->). eauto.
      * intros (rest & H). injection H as -> ->. eauto.
Qed.

(** [includes] is the search for a substring. *)
Lemma includes_iff (s p : string) :
  Str.includes s p = true <-> exists before after, s = before ^^ p ^^ after.
Proof.
  split.
  - induction s as [|c s IH]; cbn [Str.includes].
    + destruct (Str.startsWith "" p) eqn:E; [|discriminate].
      apply startsWith_iff in E as (rest & E). intros _. exists "", rest. exact E.
    + destruct (Str.startsWith (String c s) p) eqn:E.
      * apply startsWith_iff in E as (rest & E). intros _. exists "", rest. exact E.
      * intros H. destruct (IH H) as (a & b & ->). now exists (String c a), b.
  - intros (a & b & ->). induction a as [|c a IH]; cbn [String.append Str.includes].
    + assert (E : Str.startsWith (p ^^ b) p = true) by (apply startsWith_iff; eauto).
      destruct (p ^^ b); cbn [Str.includes]; now rewrite E.
    + rewrite IH. now destruct (Str.startsWith _ p).
Qed.

(** ** Output paths *)

Lemma pushSegment_plain (allow : bool) (acc : list string) (seg : string) :
  plainSegment seg = true -> PosixPath.pushSegment allow acc seg = seg :: acc.
Proof.
  unfold plainSegment, PosixPath.pushSegment.
  destruct (String.eqb seg ""), (String.eqb seg "."), (String.eqb seg "..");
    simpl; intros H; try discriminate; reflexivity.
Qed.

Lemma fold_pushSegment_plain (allow : bool) (segs acc : list string) :
  forallb plainSegment segs = true ->
  fold_left (PosixPath.pushSegment allow) segs acc = rev segs ++ acc.
Proof.
  revert acc. induction segs as [|seg segs IH]; intros acc H; [reflexivity|].
  simpl in H. apply andb_true_iff in H as [Hs Hr].
  simpl. rewrite pushSegment_plain by assumption.
  rewrite IH by assumption. now rewrite <- app_assoc.
Qed.

Lemma plainPath_not_empty (p : string) : plainPath p = true -> Str.truthy p = true.
Proof. destruct p; [discriminate | reflexivity]. Qed.

Lemma normalize_plain (p : string) :
  plainPath p = true -> PosixPath.normalize p = p.
Proof.
  intros Hp. unfold PosixPath.normalize.
  pose proof (plainPath_not_empty p Hp) as Ht.
  unfold Str.truthy in Ht. apply negb_true_iff in Ht. rewrite Ht.
  assert (Hs : Str.startsWith p "/" = false).
  { destruct (Str.startsWith p "/") eqn:E; [|reflexivity].
    apply startsWith_slash_head in E as (rest & E).
    unfold plainPath in Hp. rewrite E in Hp. discriminate. }
  assert (He : Str.endsWith p "/" = false).
  { destruct (Str.endsWith p "/") eqn:E; [|reflexivity].
    apply endsWith_slash_last in E as (l & _ & E).
    unfold plainPath in Hp. rewrite E, forallb_app in Hp.
    apply andb_true_iff in Hp as [_ Hp]. discriminate. }
  rewrite Hs, He. simpl negb.
  unfold PosixPath.normalizeString.
  rewrite fold_pushSegment_plain by exact Hp.
  rewrite app_nil_r, rev_involutive, joinSlash_splitSlash, Ht.
  reflexivity.
Qed.

Lemma splitSlash_no_slash (name : string) :
  Str.includes name "/" = false -> Str.splitSlash name = [name].
Proof.
  induction name as [|c name IH]; [reflexivity|].
  cbn [Str.includes Str.startsWith Str.splitSlash].
  destruct (Ascii.eqb c "/"); simpl; [discriminate|].
  intros H; now rewrite IH.
Qed.

Lemma join_plain (name rel : string) :
  plainName name = true -> plainPath rel = true ->
  PosixPath.join name rel = name ^^ "/" ^^ rel.
Proof.
  intros Hn Hr. unfold plainName in Hn.
  apply andb_true_iff in Hn as [Hseg Hns]. apply negb_true_iff in Hns.
  assert (Hp : plainPath (name ^^ "/" ^^ rel) = true).
  { unfold plainPath. rewrite splitSlash_app, forallb_app.
    rewrite splitSlash_no_slash by assumption.
    unfold plainPath in Hr. simpl. now rewrite Hseg, Hr. }
  unfold PosixPath.join.
  assert (Ht : Str.truthy name = true).
  { destruct name; [discriminate | reflexivity]. }
  rewrite Ht, (plainPath_not_empty rel Hr).
  now apply normalize_plain.
Qed.

(** ** Option merging *)
Module JsFacts.
Import Js.

Lemma get_set_same (k : string) (v : value) (fs : list (string * value)) :
  get k (set k v fs) = v.
Proof.
  induction fs as [|[k0 w] fs IH]; simpl.
  - now rewrite String.eqb_refl.
  - destruct (String.eqb k0 k) eqn:E; simpl; rewrite E; [reflexivity | exact IH].
Qed.

Lemma get_set_other (k k' : string) (v : value) (fs : list (string * value)) :
  k' <> k -> get k (set k' v fs) = get k fs.
Proof.
  intros Hne. induction fs as [|[k0 w] fs IH]; simpl.
  - apply String.eqb_neq in Hne. now rewrite Hne.
  - destruct (String.eqb k0 k') eqn:E; simpl.
    + apply String.eqb_eq in E. subst k0.
      apply String.eqb_neq in Hne. now rewrite Hne.
    + now rewrite IH.
Qed.

Lemma get_absent (k : string) (fs : list (string * value)) :
  existsb (String.eqb k) (map fst fs) = false -> get k fs = VUndefined.
Proof.
  induction fs as [|[k0 w] fs IH]; simpl; [reflexivity|].
  rewrite String.eqb_sym. destruct (String.eqb k0 k); simpl; [discriminate | exact IH].
Qed.

Lemma deepMerge_object (target : value) (fields : list (string * value)) :
  deepMerge target (VObj fields) = VObj (mergeFields target fields (ownProps target)).
Proof.
  simpl. f_equal. generalize (ownProps target) as result.
  induction fields as [|[k v] fields IH]; intros result; [reflexivity|].
  simpl. apply IH.
Qed.

(** What the merge stores under [key] for the source value [v]. *)
Lemma mergeFields_get (target : value) (k : string)
      (fields result : list (string * value)) :
  uniqueKeys (map fst fields) = true ->
  get k (mergeFields target fields result) =
    if existsb (String.eqb k) (map fst fields)
    then (let v := get k fields in
          if isPlainObject v then deepMerge (orEmptyObject (prop target k)) v else v)
    else get k result.
Proof.
  revert result. induction fields as [|[k0 v0] fields IH]; intros result Hu.
  - reflexivity.
  - simpl in Hu. apply andb_true_iff in Hu as [Hk0 Hu].
    apply negb_true_iff in Hk0.
    cbn [mergeFields map fst existsb get].
    rewrite IH by exact Hu.
    destruct (String.eqb k k0) eqn:E.
    + apply String.eqb_eq in E. subst k0.
      rewrite Hk0, String.eqb_refl. simpl. apply get_set_same.
    + rewrite String.eqb_sym in E. rewrite E. simpl.
      destruct (existsb (String.eqb k) (map fst fields)); [reflexivity|].
      apply get_set_other. now apply String.eqb_neq.
Qed.

Lemma getPath_undefined (path : list string) : getPath VUndefined path = VUndefined.
Proof. induction path; simpl; auto. Qed.

Lemma wellFormed_object (fields : list (string * value)) :
  wellFormed (VObj fields) = true ->
  uniqueKeys (map fst fields) = true
  /\ forall k, wellFormed (get k fields) = true.
Proof.
  simpl. intros H. apply andb_true_iff in H as [Hu Hall]. split; [exact Hu|].
  clear Hu. intros k. induction fields as [|[k0 v0] fields IH]; [reflexivity|].
  apply andb_true_iff in Hall as [H0 Hall]. simpl.
  destruct (String.eqb k0 k); [exact H0 | now apply IH].
Qed.

End JsFacts.

(** ** The scheduler: what every resumption preserves *)

Section Scheduler.

Variable options : Options.t.
Variable resolvedConfig : ResolvedConfig.t.
Variable site : Site.

Local Abbreviation enter := (captureOne_enter options).
Local Abbreviation body := (captureOne_body options resolvedConfig site).
Local Abbreviation patch := (patchDepths options).
Local Abbreviation resume' := (resume options resolvedConfig site).
Local Abbreviation finish' := (finish options resolvedConfig site).
Local Abbreviation flush' := (flush options resolvedConfig site).
Local Abbreviation drain' := (drain options resolvedConfig site).
Local Abbreviation dispatch' := (dispatch options).
Local Abbreviation runBatch' := (runBatch options resolvedConfig site).
Local Abbreviation loop' := (loop options resolvedConfig site).

Lemma has_true_iff (visited : list string) (route : string) :
  has visited route = true <-> In route visited.
Proof.
  unfold has. rewrite existsb_exists. split.
  - intros (x & Hin & He). apply String.eqb_eq in He. now subst.
  - intros Hin. exists route. split; [exact Hin | apply String.eqb_refl].
Qed.

Lemma has_false_iff (visited : list string) (route : string) :
  has visited route = false <-> ~ In route visited.
Proof.
  rewrite <- has_true_iff. destruct (has visited route); split; intros; congruence.
Qed.

(** The guards of [captureOne]. *)
Lemma captureOne_enter_some (route : string) (st st' : State) :
  enter route st = Some st' ->
  ~ In route (visited st)
  /\ isExcluded (Options.exclude options) route = false
  /\ (Z.of_nat (length (captured st)) < maxPages options)%Z
  /\ st' = mkState (route :: visited st) (captured st) (queue st).
Proof.
  unfold captureOne_enter.
  destruct (has (visited st) route) eqn:Hv; [discriminate|].
  destruct (isExcluded (Options.exclude options) route) eqn:He; [discriminate|].
  destruct (maxPages options <=? Z.of_nat (length (captured st)))%Z eqn:Hm; [discriminate|].
  intros [= <-]. apply has_false_iff in Hv. apply Z.leb_gt in Hm. auto.
Qed.

Lemma captureOne_body_some (route : string) (st st' : State) :
  body route st = Some st' ->
  visited st' = visited st
  /\ ((captured st' = captured st /\ queue st' = queue st
       /\ exists s, site route = Fails s)
      \/ (exists titleText hrefs,
             site route = Rendered titleText hrefs
             /\ captured st' = captured st ++ [capturedRecord options route titleText]
             /\ queue st' =
                  if crawlEnabled options
                  then queue st ++ harvest options resolvedConfig (visited st) hrefs
                  else queue st)).
Proof.
  unfold captureOne_body. destruct (site route) as [|s|t h]; [discriminate| |].
  - intros [= <-]. split; [reflexivity|]. left. eauto.
  - intros [= <-]. split; [reflexivity|]. right. exists t, h. auto.
Qed.

Lemma patchDepths_visited (d : Z) (st : State) : visited (patch d st) = visited st.
Proof. unfold patchDepths. now destruct (crawlEnabled options). Qed.

Lemma patchDepths_captured (d : Z) (st : State) : captured (patch d st) = captured st.
Proof. unfold patchDepths. now destruct (crawlEnabled options). Qed.

Lemma patchDepths_queue_length (d : Z) (st : State) :
  length (queue (patch d st)) = length (queue st).
Proof. unfold patchDepths. destruct (crawlEnabled options); simpl; [apply length_map | reflexivity]. Qed.

Lemma capturedRecord_route (route titleText : string) :
  Captured.route (capturedRecord options route titleText) = route.
Proof. reflexivity. Qed.

Lemma Inv_perm (P P' : list string) (st : State) :
  Permutation P P' -> Inv options P st -> Inv options P' st.
Proof.
  intros HP (Hv & Hn & Hi & He).
  assert (HP' : Permutation (P ++ capturedRoutes st) (P' ++ capturedRoutes st))
    by now apply Permutation_app_tail.
  repeat split.
  - exact Hv.
  - eapply Permutation_NoDup; eauto.
  - intros x Hx. apply Hi. eapply Permutation_in; [symmetry; exact HP' | exact Hx].
  - eapply Permutation_Forall; eauto.
Qed.

(** *** Tasks *)

Lemma replaceAt_pending_inflight (tasks : list Task) (i : nat) (r : string) (d d' : Z) :
  nth_error tasks i = Some (InFlight r d) ->
  Permutation (pending tasks) (r :: pending (replaceAt i (Some (Closing d')) tasks)).
Proof.
  revert i. induction tasks as [|t tasks IH]; intros [|i] H; simpl in H; try discriminate.
  - injection H as ->. reflexivity.
  - cbn [replaceAt]. destruct t as [r0 d0|d0]; cbn [pending flat_map app].
    + rewrite perm_swap. constructor. now apply IH.
    + now apply IH.
Qed.

Lemma replaceAt_pending_closing (tasks : list Task) (i : nat) (d : Z) :
  nth_error tasks i = Some (Closing d) ->
  pending (replaceAt i None tasks) = pending tasks.
Proof.
  revert i. induction tasks as [|t tasks IH]; intros [|i] H; simpl in H; try discriminate.
  - injection H as ->. reflexivity.
  - cbn [replaceAt pending flat_map]. f_equal. now apply IH.
Qed.

(** Draining follows resumptions: a relation between the suspended
    callbacks and the state that every resumption preserves holds, with
    no callback left, of the state that [drain] returns. *)
Lemma drain_preserves (R : list Task -> State -> Prop) :
  (forall tasks st i t ot st',
      nth_error tasks i = Some t -> resume' t st = Some (ot, st') ->
      R tasks st -> R (replaceAt i ot tasks) st') ->
  forall sched tasks st st',
    R tasks st -> drain' sched tasks st = Some st' -> R [] st'.
Proof.
  intros Hstep.
  assert (Hflush : forall tasks st st', R tasks st -> flush' tasks st = Some st' -> R [] st').
  { induction tasks as [|t tasks IH]; intros st st' HR Hf; simpl in Hf.
    - now injection Hf as <-.
    - destruct (finish' t st) as [st1|] eqn:Hfin; [|discriminate].
      apply (IH st1 st'); [|exact Hf].
      destruct t as [r d|d]; simpl in Hfin.
      + destruct (body r st) as [st0|] eqn:Hb; [|discriminate].
        injection Hfin as <-.
        assert (H1 : R (Closing d :: tasks) st0).
        { apply (Hstep (InFlight r d :: tasks) st 0 (InFlight r d) (Some (Closing d)) st0);
            [reflexivity | simpl; now rewrite Hb | exact HR]. }
        apply (Hstep (Closing d :: tasks) st0 0 (Closing d) None (patch d st0));
          [reflexivity | reflexivity | exact H1].
      + injection Hfin as <-.
        apply (Hstep (Closing d :: tasks) st 0 (Closing d) None (patch d st));
          [reflexivity | reflexivity | exact HR]. }
  induction sched as [|c sched IH]; intros tasks st st' HR Hd; simpl in Hd.
  - eapply Hflush; eauto.
  - destruct tasks as [|t0 tasks0].
    + now injection Hd as <-.
    + remember (t0 :: tasks0) as tasks eqn:Et.
      destruct (nth_error tasks (c mod length tasks)) as [t|] eqn:Hn.
      * destruct (resume' t st) as [[ot st1]|] eqn:Hr; [|discriminate].
        eapply IH; [|exact Hd]. eapply Hstep; eauto.
      * eapply Hflush; eauto.
Qed.

(** *** The invariant of the three collections *)

Lemma Inv_shrink (X P P' : list string) (st st' : State) :
  visited st' = visited st ->
  Permutation (P ++ capturedRoutes st) (X ++ P' ++ capturedRoutes st') ->
  Inv options P st -> Inv options P' st'.
Proof.
  intros Hv HP (Hn & Hd & Hi & He). unfold Inv. rewrite Hv.
  repeat split.
  - exact Hn.
  - apply (NoDup_app_remove_l X). eapply Permutation_NoDup; eauto.
  - intros x Hx. apply Hi. eapply Permutation_in; [symmetry; exact HP|].
    apply in_or_app. now right.
  - apply (Permutation_Forall HP) in He. apply Forall_app in He. tauto.
Qed.

Lemma Inv_initial : Inv options [] (initialState options).
Proof.
  unfold Inv, initialState, capturedRoutes. simpl.
  repeat split; try constructor. intros x [].
Qed.

Lemma Inv_enter (P : list string) (route : string) (st st' : State) :
  Inv options P st -> enter route st = Some st' -> Inv options (route :: P) st'.
Proof.
  intros (Hv & Hn & Hi & He) H.
  apply captureOne_enter_some in H as (Hnv & Hx & _ & ->).
  unfold Inv, capturedRoutes in *. simpl.
  repeat split.
  - now constructor.
  - constructor; [|exact Hn]. intros Hin. apply Hnv, Hi, Hin.
  - intros x [<-|Hx']; [now left | right; now apply Hi].
  - now constructor.
Qed.

Lemma Inv_resume (tasks : list Task) (st : State) (i : nat) (t : Task)
      (ot : option Task) (st' : State) :
  nth_error tasks i = Some t -> resume' t st = Some (ot, st') ->
  Inv options (pending tasks) st -> Inv options (pending (replaceAt i ot tasks)) st'.
Proof.
  intros Hn Hr HI. destruct t as [r d|d]; simpl in Hr.
  - destruct (body r st) as [st1|] eqn:Hb; [|discriminate].
    injection Hr as <- <-.
    pose proof (replaceAt_pending_inflight tasks i r d d Hn) as HP.
    apply captureOne_body_some in Hb as (Hv & [(Hc & _ & _)|(tt & hh & _ & Hc & _)]).
    + apply (Inv_shrink [r] (pending tasks) _ st st1 Hv); [|exact HI].
      unfold capturedRoutes. rewrite Hc.
      change ([r] ++ ?a ++ ?b) with ((r :: a) ++ b).
      now apply Permutation_app_tail.
    + apply (Inv_shrink [] (pending tasks) _ st st1 Hv); [|exact HI].
      unfold capturedRoutes. rewrite Hc, map_app. simpl.
      rewrite app_assoc.
      etransitivity; [apply Permutation_app_tail; exact HP|].
      simpl. apply Permutation_cons_append.
  - injection Hr as <- <-.
    rewrite (replaceAt_pending_closing tasks i d Hn).
    apply (Inv_shrink [] (pending tasks) _ st (patch d st));
      [apply patchDepths_visited | | exact HI].
    unfold capturedRoutes. now rewrite patchDepths_captured.
Qed.

Lemma Inv_drain (sched : list nat) (tasks : list Task) (st st' : State) :
  Inv options (pending tasks) st -> drain' sched tasks st = Some st' ->
  Inv options [] st'.
Proof.
  intros HI Hd.
  apply (drain_preserves (fun tasks st => Inv options (pending tasks) st)) in Hd;
    [exact Hd | | exact HI].
  intros. eapply Inv_resume; eauto.
Qed.

Lemma Inv_dispatch (batch : list Entry.t) (P : list string)
      (st st' : State) (tasks : list Task) :
  Inv options P st -> dispatch' batch st = (tasks, st') ->
  Inv options (pending tasks ++ P) st'.
Proof.
  revert P st st' tasks.
  induction batch as [|e batch IH]; intros P st st' tasks HI Hd; simpl in Hd.
  - now injection Hd as <- <-.
  - destruct (crawlEnabled options && (maxDepth options <? Entry.depth e)%Z).
    + now apply (IH P st).
    + destruct (enter (Entry.route e) st) as [st1|] eqn:He.
      * destruct (dispatch' batch st1) as [tasks1 st2] eqn:Hd1.
        injection Hd as <- <-.
        apply (Inv_enter _ _ _ _ HI) in He.
        apply (IH _ _ _ _ He) in Hd1.
        eapply Inv_perm; [|exact Hd1].
        simpl. symmetry. apply Permutation_middle.
      * destruct (dispatch' batch st) as [tasks1 st2] eqn:Hd1.
        injection Hd as <- <-. simpl. now apply (IH P st).
Qed.

Lemma Inv_runBatch (sched : list nat) (st st' : State) :
  Inv options [] st -> runBatch' sched st = Some st' -> Inv options [] st'.
Proof.
  unfold runBatch. intros HI.
  destruct (takeBatch options (queue st)) as [batch rest].
  destruct (dispatch' batch (mkState (visited st) (captured st) rest))
    as [tasks st1] eqn:Hd.
  intros Hdr. apply Inv_dispatch with (P := []) in Hd; [|exact HI].
  rewrite app_nil_r in Hd. eapply Inv_drain; eauto.
Qed.

Lemma Inv_loop (fuel : nat) (scheds : list (list nat)) (st st' : State) :
  Inv options [] st -> loop' fuel scheds st = LoopDone st' -> Inv options [] st'.
Proof.
  revert scheds st. induction fuel as [|fuel IH]; intros scheds st HI; simpl.
  - discriminate.
  - destruct (loopGuard options st).
    + destruct (runBatch' (hd [] scheds) st) as [st1|] eqn:Hb; [|discriminate].
      apply IH. eapply Inv_runBatch; eauto.
    + now intros [= <-].
Qed.

End Scheduler.

(** ** Failure containment and termination *)

Section Containment.

Variable options : Options.t.
Variable resolvedConfig : ResolvedConfig.t.
Variable site : Site.

Local Abbreviation body := (captureOne_body options resolvedConfig site).
Local Abbreviation patch := (patchDepths options).
Local Abbreviation resume' := (resume options resolvedConfig site).
Local Abbreviation flush' := (flush options resolvedConfig site).
Local Abbreviation drain' := (drain options resolvedConfig site).
Local Abbreviation runBatch' := (runBatch options resolvedConfig site).
Local Abbreviation loop' := (loop options resolvedConfig site).

(** A property of the state that resumptions keep and that does not
    depend on [visited] or [queue] being extended or cut is kept by the
    loop. *)
Lemma loop_preserves (R : State -> Prop) :
  (forall t st ot st', resume' t st = Some (ot, st') -> R st -> R st') ->
  (forall v c q v' q', R (mkState v c q) -> R (mkState v' c q')) ->
  forall fuel scheds st st',
    R st -> loop' fuel scheds st = LoopDone st' -> R st'.
Proof.
  intros Hres Hframe.
  assert (Hdisp : forall batch st tasks st',
             dispatch options batch st = (tasks, st') -> R st -> R st').
  { induction batch as [|e batch IH]; intros st tasks st' Hd HR; simpl in Hd.
    - now injection Hd as _ <-.
    - destruct (crawlEnabled options && (maxDepth options <? Entry.depth e)%Z).
      + eapply IH; eauto.
      + destruct (captureOne_enter options (Entry.route e) st) as [st1|] eqn:He.
        * destruct (dispatch options batch st1) as [tasks1 st2] eqn:Hd1.
          injection Hd as _ <-. eapply IH; [exact Hd1|].
          apply captureOne_enter_some in He as (_ & _ & _ & ->).
          destruct st. eapply Hframe; eauto.
        * destruct (dispatch options batch st) as [tasks1 st2] eqn:Hd1.
          injection Hd as _ <-. eapply IH; eauto. }
  induction fuel as [|fuel IH]; intros scheds st st' HR; simpl.
  - discriminate.
  - destruct (loopGuard options st).
    + destruct (runBatch' (hd [] scheds) st) as [st1|] eqn:Hb; [|discriminate].
      apply IH. unfold runBatch in Hb.
      destruct (takeBatch options (queue st)) as [batch rest].
      destruct (dispatch options batch (mkState (visited st) (captured st) rest))
        as [tasks st0] eqn:Hd.
      apply (drain_preserves options resolvedConfig site (fun _ st => R st)) in Hb.
      * exact Hb.
      * intros. eapply Hres; eauto.
      * eapply Hdisp; [exact Hd|]. destruct st. eapply Hframe; eauto.
    + now intros [= <-].
Qed.

(** Every captured page belongs to a route that rendered. *)
Lemma captured_pages_rendered (fuel : nat) (scheds : list (list nat)) (st : State) :
  loop' fuel scheds (initialState options) = LoopDone st ->
  Forall (fun p => exists t h, site (Captured.route p) = Rendered t h) (captured st).
Proof.
  apply (loop_preserves
           (fun st => Forall (fun p => exists t h, site (Captured.route p) = Rendered t h)
                             (captured st))).
  - intros t st0 ot st' Hr HR. destruct t as [r d|d]; simpl in Hr.
    + destruct (body r st0) as [st1|] eqn:Hb; [|discriminate].
      injection Hr as _ <-.
      apply captureOne_body_some in Hb as (_ & [(-> & _)|(tt & hh & Hs & -> & _)]).
      * exact HR.
      * apply Forall_app. split; [exact HR|]. constructor; [|constructor].
        simpl. eauto.
    + injection Hr as _ <-. now rewrite patchDepths_captured.
  - auto.
  - constructor.
Qed.

Lemma dispatch_frame (batch : list Entry.t) (st st' : State) (tasks : list Task) :
  dispatch options batch st = (tasks, st') ->
  captured st' = captured st /\ queue st' = queue st.
Proof.
  revert st st' tasks. induction batch as [|e batch IH]; intros st st' tasks Hd; simpl in Hd.
  - injection Hd as _ <-. auto.
  - destruct (crawlEnabled options && (maxDepth options <? Entry.depth e)%Z).
    + eapply IH; eauto.
    + destruct (captureOne_enter options (Entry.route e) st) as [st1|] eqn:He.
      * destruct (dispatch options batch st1) as [tasks1 st2] eqn:Hd1.
        injection Hd as _ <-. apply IH in Hd1 as [-> ->].
        apply captureOne_enter_some in He as (_ & _ & _ & ->). auto.
      * destruct (dispatch options batch st) as [tasks1 st2] eqn:Hd1.
        injection Hd as _ <-. eapply IH; eauto.
Qed.

(** Resumptions only add captured pages, and without a new page the
    queue keeps its length. *)
Lemma drain_progress (sched : list nat) (tasks : list Task) (st st' : State) :
  drain' sched tasks st = Some st' ->
  (length (captured st) <= length (captured st'))%nat
  /\ (length (captured st') = length (captured st) ->
      length (queue st') = length (queue st)).
Proof.
  apply (drain_preserves options resolvedConfig site
           (fun _ s => (length (captured st) <= length (captured s))%nat
                       /\ (length (captured s) = length (captured st) ->
                           length (queue s) = length (queue st)))).
  - intros tasks0 s i t ot s' _ Hr [Hle Hq].
    destruct t as [r d|d]; simpl in Hr.
    + destruct (body r s) as [s1|] eqn:Hb; [|discriminate].
      injection Hr as _ <-.
      apply captureOne_body_some in Hb as (_ & [(-> & -> & _)|(tt & hh & _ & -> & _)]).
      * auto.
      * rewrite length_app. simpl. split; lia.
    + injection Hr as _ <-.
      rewrite patchDepths_captured, patchDepths_queue_length. auto.
  - auto.
Qed.

(** *** Termination *)

Hypothesis no_escape : forall r, site r <> Escapes.

Lemma body_total (route : string) (st : State) : exists st', body route st = Some st'.
Proof.
  unfold captureOne_body. specialize (no_escape route).
  destruct (site route); [congruence | eauto | eauto].
Qed.

Lemma flush_total (tasks : list Task) (st : State) : exists st', flush' tasks st = Some st'.
Proof.
  revert st. induction tasks as [|t tasks IH]; intros st; simpl; [eauto|].
  destruct t as [r d|d]; simpl.
  - destruct (body_total r st) as [st1 ->]. apply IH.
  - apply IH.
Qed.

Lemma drain_total (sched : list nat) (tasks : list Task) (st : State) :
  exists st', drain' sched tasks st = Some st'.
Proof.
  revert tasks st. induction sched as [|c sched IH]; intros tasks st; simpl.
  - apply flush_total.
  - destruct tasks as [|t0 tasks0]; [eauto|].
    destruct (nth_error (t0 :: tasks0) (c mod length (t0 :: tasks0))) as [t|].
    + destruct t as [r d|d]; simpl.
      * destruct (body_total r st) as [st1 ->]. apply IH.
      * apply IH.
    + apply flush_total.
Qed.

Hypothesis concurrency_positive : (1 <= concurrency options)%Z.

(** A batch captures a page, or leaves the captured pages as they are and
    the queue shorter. *)
Lemma runBatch_progress (sched : list nat) (st st' : State) :
  queue st <> [] -> runBatch' sched st = Some st' ->
  (length (captured st) < length (captured st'))%nat
  \/ (length (captured st') = length (captured st)
      /\ (length (queue st') < length (queue st))%nat).
Proof.
  intros Hq. unfold runBatch, takeBatch.
  destruct (dispatch options (map (fixDepth) (firstn (spliceCount options) (queue st)))
                     (mkState (visited st) (captured st)
                              (skipn (spliceCount options) (queue st))))
    as [tasks st0] eqn:Hd.
  intros Hdr.
  apply dispatch_frame in Hd as [Hc0 Hq0]. simpl in Hc0, Hq0.
  apply drain_progress in Hdr as [Hle Hsame]. rewrite Hc0 in Hle, Hsame.
  destruct (Nat.eq_dec (length (captured st')) (length (captured st))) as [E|E]; [|lia].
  right. split; [exact E|]. rewrite (Hsame E), Hq0, length_skipn.
  assert (1 <= spliceCount options)%nat by (unfold spliceCount; lia).
  destruct (queue st); [congruence | cbn [length]; lia].
Qed.

Lemma runBatch_total (sched : list nat) (st : State) :
  exists st', runBatch' sched st = Some st'.
Proof.
  unfold runBatch. destruct (takeBatch options (queue st)) as [batch rest].
  destruct (dispatch options batch (mkState (visited st) (captured st) rest)).
  apply drain_total.
Qed.

(** The loop ends: the number of pages still allowed and the length of
    the queue decrease lexicographically. *)
Lemma loop_terminates (scheds : list (list nat)) (st : State) :
  exists fuel st', loop' fuel scheds st = LoopDone st'.
Proof.
  remember (Z.to_nat (maxPages options - Z.of_nat (length (captured st)))) as n1 eqn:E1.
  revert scheds st E1.
  induction n1 as [n1 IH1] using lt_wf_ind. intros scheds st E1.
  remember (length (queue st)) as n2 eqn:E2.
  revert scheds st E1 E2.
  induction n2 as [n2 IH2] using lt_wf_ind. intros scheds st E1 E2.
  destruct (loopGuard options st) eqn:Hg.
  - unfold loopGuard in Hg. apply andb_true_iff in Hg as [Hq Hc].
    apply negb_true_iff, Nat.eqb_neq in Hq. apply Z.ltb_lt in Hc.
    destruct (runBatch_total (hd [] scheds) st) as [st1 Hb].
    assert (Hne : queue st <> []) by (destruct (queue st); [easy | discriminate]).
    destruct (runBatch_progress _ _ _ Hne Hb) as [Hgrow|[Hsame Hshort]].
    + destruct (IH1 (Z.to_nat (maxPages options - Z.of_nat (length (captured st1)))))
        with (scheds := tl scheds) (st := st1) as (fuel & st' & Hl); [lia | reflexivity|].
      exists (S fuel), st'. simpl. unfold loopGuard.
      replace (negb (length (queue st) =? 0)%nat) with true
        by (symmetry; now apply negb_true_iff, Nat.eqb_neq).
      replace (Z.of_nat (length (captured st)) <? maxPages options)%Z with true
        by (symmetry; now apply Z.ltb_lt).
      simpl. now rewrite Hb.
    + destruct (IH2 (length (queue st1))) with (scheds := tl scheds) (st := st1)
        as (fuel & st' & Hl); [lia | rewrite Hsame; exact E1 | reflexivity|].
      exists (S fuel), st'. simpl. unfold loopGuard.
      replace (negb (length (queue st) =? 0)%nat) with true
        by (symmetry; now apply negb_true_iff, Nat.eqb_neq).
      replace (Z.of_nat (length (captured st)) <? maxPages options)%Z with true
        by (symmetry; now apply Z.ltb_lt).
      simpl. now rewrite Hb.
  - exists 1%nat, st. simpl. now rewrite Hg.
Qed.

End Containment.

(** ** The index and the order of the captured pages *)

Section SortedIndex.

Variable localeCompare : string -> string -> Z.

Hypothesis cmp_total : forall a b, (localeCompare a b <= 0 \/ localeCompare b a <= 0)%Z.
Hypothesis cmp_trans :
  forall a b c, (localeCompare a b <= 0 -> localeCompare b c <= 0 -> localeCompare a c <= 0)%Z.
Hypothesis cmp_antisym :
  forall a b, (localeCompare a b <= 0)%Z -> (localeCompare b a <= 0)%Z -> a = b.

Local Abbreviation le := (routeLe localeCompare).
Local Abbreviation insert := (insertByRoute localeCompare).
Local Abbreviation sort := (sortByRoute localeCompare).

Lemma insertByRoute_perm (x : Captured.t) (l : list Captured.t) :
  Permutation (insert x l) (x :: l).
Proof.
  induction l as [|y l IH]; simpl; [reflexivity|].
  destruct (localeCompare (Captured.route x) (Captured.route y) <=? 0)%Z.
  - reflexivity.
  - rewrite IH. apply perm_swap.
Qed.

Lemma sortByRoute_perm (l : list Captured.t) : Permutation (sort l) l.
Proof.
  induction l as [|x l IH]; simpl; [reflexivity|].
  rewrite insertByRoute_perm. now constructor.
Qed.

Lemma insertByRoute_sorted (x : Captured.t) (l : list Captured.t) :
  StronglySorted le l -> StronglySorted le (insert x l).
Proof.
  induction 1 as [|y l Hs IH Hall]; simpl.
  - repeat constructor.
  - destruct (localeCompare (Captured.route x) (Captured.route y) <=? 0)%Z eqn:E.
    + apply Z.leb_le in E. constructor; [now constructor|].
      constructor; [exact E|].
      eapply Forall_impl; [|exact Hall]. intros z Hz. unfold routeLe in *. eauto.
    + apply Z.leb_gt in E. constructor; [exact IH|].
      eapply Permutation_Forall; [symmetry; apply insertByRoute_perm|].
      constructor; [|exact Hall].
      unfold routeLe. destruct (cmp_total (Captured.route y) (Captured.route x)); [assumption | lia].
Qed.

Lemma sortByRoute_sorted (l : list Captured.t) : StronglySorted le (sort l).
Proof.
  induction l as [|x l IH]; simpl; [constructor | now apply insertByRoute_sorted].
Qed.

(** Two sorted arrangements of the same pages are the same list, when
    pages that compare equal in both directions are the same page. *)
Lemma sorted_perm_unique (l1 l2 : list Captured.t) :
  StronglySorted le l1 -> StronglySorted le l2 -> Permutation l1 l2 ->
  (forall x y, In x l1 -> In y l1 -> le x y -> le y x -> x = y) ->
  l1 = l2.
Proof.
  intros H1. revert l2. induction H1 as [|x l1 Hs1 IH Hall1]; intros l2 H2 HP Hanti.
  - apply Permutation_nil in HP. now subst.
  - destruct l2 as [|y l2]; [apply Permutation_sym, Permutation_nil in HP; discriminate|].
    inversion H2 as [|? ? Hs2 Hall2]; subst.
    assert (Hxy : x = y).
    { assert (Hx : In x (y :: l2)) by (eapply Permutation_in; [exact HP | now left]).
      assert (Hy : In y (x :: l1)) by (eapply Permutation_in; [symmetry; exact HP | now left]).
      destruct Hx as [->|Hx]; [reflexivity|].
      destruct Hy as [->|Hy]; [reflexivity|].
      rewrite Forall_forall in Hall1, Hall2.
      apply Hanti; [now left | now right | now apply Hall1 | now apply Hall2]. }
    subst y. f_equal. apply IH.
    + exact Hs2.
    + eapply Permutation_cons_inv; eauto.
    + intros a b Ha Hb. apply Hanti; now right.
Qed.

Lemma NoDup_map_injective {A B : Type} (f : A -> B) (l : list A) (x y : A) :
  NoDup (map f l) -> In x l -> In y l -> f x = f y -> x = y.
Proof.
  induction l as [|a l IH]; simpl; [tauto|].
  intros Hn Hx Hy Hf. apply NoDup_cons_iff in Hn as [Hna Hn].
  destruct Hx as [->|Hx], Hy as [->|Hy]; auto.
  - exfalso. apply Hna. rewrite Hf. now apply in_map.
  - exfalso. apply Hna. rewrite <- Hf. now apply in_map.
Qed.

(** The sorted list depends on the set of captured pages only. *)
Lemma sortByRoute_permutation (l1 l2 : list Captured.t) :
  NoDup (map Captured.route l1) -> Permutation l1 l2 -> sort l1 = sort l2.
Proof.
  intros Hn HP. apply sorted_perm_unique.
  - apply sortByRoute_sorted.
  - apply sortByRoute_sorted.
  - now rewrite !sortByRoute_perm.
  - intros x y Hx Hy Hxy Hyx.
    apply (NoDup_map_injective Captured.route l1); [exact Hn | | | ].
    + eapply Permutation_in; [apply sortByRoute_perm | exact Hx].
    + eapply Permutation_in; [apply sortByRoute_perm | exact Hy].
    + now apply cmp_antisym.
Qed.

End SortedIndex.
(** ** Explicit mode: what a run captures *)

Section Explicit.

Variable options : Options.t.
Variable resolvedConfig : ResolvedConfig.t.
Variable site : Site.

Hypothesis explicit : Crawl.enabled (Options.crawl options) = false.

Local Abbreviation body := (captureOne_body options resolvedConfig site).
Local Abbreviation resume' := (resume options resolvedConfig site).
Local Abbreviation flush' := (flush options resolvedConfig site).
Local Abbreviation drain' := (drain options resolvedConfig site).
Local Abbreviation pages := (renderedPages options site).
Local Abbreviation drained' := (drained options site).

Lemma patchDepths_explicit (d : Z) (st : State) : patchDepths options d st = st.
Proof. unfold patchDepths, crawlEnabled. now rewrite explicit. Qed.

Lemma body_explicit (route : string) (st : State) :
  match body route st with
  | None => site route = Escapes
  | Some st' =>
      site route <> Escapes
      /\ st' = mkState (visited st) (captured st ++ pages [route]) (queue st)
  end.
Proof.
  unfold captureOne_body, renderedPages, crawlEnabled. rewrite explicit. simpl.
  destruct (site route) as [|s|t h]; [reflexivity| |].
  - split; [discriminate|]. rewrite app_nil_r. now destruct st.
  - split; [discriminate|]. reflexivity.
Qed.

Lemma pending_nth_error (tasks : list Task) (i : nat) (r : string) (d : Z) :
  nth_error tasks i = Some (InFlight r d) -> In r (pending tasks).
Proof.
  intros H. eapply Permutation_in.
  - symmetry. apply (replaceAt_pending_inflight tasks i r d d H).
  - now left.
Qed.

Lemma renderedPages_perm (l l' : list string) :
  Permutation l l' -> Permutation (pages l) (pages l').
Proof. apply Permutation_flat_map. Qed.

Lemma drained_step (tasks tasks' : list Task) (r : string) (st : State)
      (result : option State) :
  Permutation (pending tasks) (r :: pending tasks') ->
  site r <> Escapes ->
  drained' tasks' (mkState (visited st) (captured st ++ pages [r]) (queue st)) result ->
  drained' tasks st result.
Proof.
  intros HP Hr. destruct result as [st'|]; unfold drained; cbn [visited captured queue].
  - intros (Hne & Hv & Hq & Hc). repeat split; try assumption.
    + intros r' Hin. apply (Permutation_in _ HP) in Hin as [<-|Hin]; [exact Hr | now apply Hne].
    + rewrite Hc, <- app_assoc. apply Permutation_app_head.
      unfold renderedPages. rewrite <- flat_map_app.
      apply Permutation_flat_map. now symmetry.
  - intros (r' & Hin & He). exists r'. split; [|exact He].
    eapply Permutation_in; [symmetry; exact HP | now right].
Qed.

Lemma flush_explicit (tasks : list Task) (st : State) :
  drained' tasks st (flush' tasks st).
Proof.
  revert st. induction tasks as [|t tasks IH]; intros st.
  - simpl. repeat split; try tauto. now rewrite app_nil_r.
  - cbn [flush]. destruct t as [r d|d]; cbn [finish].
    + pose proof (body_explicit r st) as Hb.
      destruct (body r st) as [st1|].
      * destruct Hb as [Hr ->]. rewrite patchDepths_explicit.
        apply (drained_step (InFlight r d :: tasks) tasks r);
          [reflexivity | exact Hr | apply IH].
      * exists r. split; [now left | exact Hb].
    + rewrite patchDepths_explicit. apply IH.
Qed.

Lemma drain_explicit (sched : list nat) (tasks : list Task) (st : State) :
  drained' tasks st (drain' sched tasks st).
Proof.
  revert tasks st. induction sched as [|c sched IH]; intros tasks st.
  - apply flush_explicit.
  - cbn [drain]. destruct tasks as [|t0 tasks0].
    + simpl. repeat split; try tauto. now rewrite app_nil_r.
    + remember (t0 :: tasks0) as tasks eqn:Et. clear Et.
      destruct (nth_error tasks (c mod length tasks)) as [t|] eqn:Hn;
        [|apply flush_explicit].
      destruct t as [r d|d]; cbn [resume].
      * pose proof (body_explicit r st) as Hb.
        destruct (body r st) as [st1|].
        -- destruct Hb as [Hr ->].
           eapply drained_step;
             [apply (replaceAt_pending_inflight _ _ _ _ d Hn) | exact Hr | apply IH].
        -- exists r. split; [eapply pending_nth_error; eauto | exact Hb].
      * rewrite patchDepths_explicit.
        unfold drained. rewrite <- (replaceAt_pending_closing _ _ _ Hn). apply IH.
Qed.

End Explicit.
(** ** Explicit mode: two runs that differ in scheduling *)

Section Agreement.

Variables o1 o2 : Options.t.
Variable resolvedConfig : ResolvedConfig.t.
Variable site : Site.

Hypothesis explicit1 : Crawl.enabled (Options.crawl o1) = false.
Hypothesis explicit2 : Crawl.enabled (Options.crawl o2) = false.
Hypothesis same_routes : Options.routes o1 = Options.routes o2.
Hypothesis same_exclude : Options.exclude o1 = Options.exclude o2.
Hypothesis same_output : Options.output o1 = Options.output o2.

Lemma routeDefs_agree : routeDefs o1 = routeDefs o2.
Proof. unfold routeDefs, crawlEnabled. now rewrite same_routes, explicit1, explicit2. Qed.

Lemma seedQueue_agree : seedQueue o1 = seedQueue o2.
Proof. unfold seedQueue, crawlEnabled. now rewrite explicit1, explicit2, routeDefs_agree. Qed.

Lemma maxPages_agree : maxPages o1 = maxPages o2.
Proof. unfold maxPages, crawlEnabled. now rewrite explicit1, explicit2, seedQueue_agree. Qed.

Lemma spliceCount_agree : spliceCount o1 = spliceCount o2.
Proof. unfold spliceCount, concurrency, crawlEnabled. now rewrite explicit1, explicit2. Qed.

Lemma renderedPages_agree (routes : list string) :
  renderedPages o1 site routes = renderedPages o2 site routes.
Proof.
  unfold renderedPages, capturedRecord. now rewrite routeDefs_agree, same_output.
Qed.

Lemma dispatch_agree (batch : list Entry.t) (st1 st2 : State) :
  visited st1 = visited st2 ->
  length (captured st1) = length (captured st2) ->
  exists tasks v,
    dispatch o1 batch st1 = (tasks, mkState v (captured st1) (queue st1))
    /\ dispatch o2 batch st2 = (tasks, mkState v (captured st2) (queue st2)).
Proof.
  revert st1 st2. induction batch as [|e batch IH]; intros st1 st2 Hv Hl.
  - exists [], (visited st1). simpl. split; [now destruct st1 | rewrite Hv; now destruct st2].
  - cbn [dispatch]. unfold crawlEnabled. rewrite explicit1, explicit2. cbn [andb].
    unfold captureOne_enter. rewrite <- same_exclude, <- maxPages_agree, <- Hv, <- Hl.
    destruct (has (visited st1) (Entry.route e)
              || isExcluded (Options.exclude o1) (Entry.route e)
              || (maxPages o1 <=? Z.of_nat (length (captured st1)))%Z) eqn:Hg.
    + assert (Hnone :
               (if has (visited st1) (Entry.route e) then None
                else if isExcluded (Options.exclude o1) (Entry.route e) then None
                else if (maxPages o1 <=? Z.of_nat (length (captured st1)))%Z then None
                else Some (mkState (Entry.route e :: visited st1) (captured st1) (queue st1)))
               = None).
      { destruct (has _ _); [reflexivity|].
        destruct (isExcluded _ _); [reflexivity|].
        destruct (_ <=? _)%Z; [reflexivity | discriminate]. }
      rewrite Hnone.
      assert (Hnone2 :
               (if has (visited st1) (Entry.route e) then None
                else if isExcluded (Options.exclude o1) (Entry.route e) then None
                else if (maxPages o1 <=? Z.of_nat (length (captured st1)))%Z then None
                else Some (mkState (Entry.route e :: visited st1) (captured st2) (queue st2)))
               = None).
      { destruct (has _ _); [reflexivity|].
        destruct (isExcluded _ _); [reflexivity|].
        destruct (_ <=? _)%Z; [reflexivity | discriminate]. }
      rewrite Hnone2.
      destruct (IH st1 st2 Hv Hl) as (tasks & v & -> & ->).
      exists (Closing (Entry.depth e) :: tasks), v. auto.
    + apply orb_false_iff in Hg as [Hg H3]. apply orb_false_iff in Hg as [H1 H2].
      rewrite H1, H2, H3.
      destruct (IH (mkState (Entry.route e :: visited st1) (captured st1) (queue st1))
                   (mkState (Entry.route e :: visited st1) (captured st2) (queue st2))
                   eq_refl Hl) as (tasks & v & -> & ->).
      exists (InFlight (Entry.route e) (Entry.depth e) :: tasks), v. auto.
Qed.

Lemma runBatch_agree (sched1 sched2 : list nat) (st1 st2 : State) :
  sameProgress st1 st2 ->
  match runBatch o1 resolvedConfig site sched1 st1,
        runBatch o2 resolvedConfig site sched2 st2 with
  | Some st1', Some st2' =>
      sameProgress st1' st2' /\ queue st1' = skipn (spliceCount o1) (queue st1)
  | None, None => True
  | _, _ => False
  end.
Proof.
  intros (Hv & Hq & Hc). unfold runBatch, takeBatch.
  rewrite <- spliceCount_agree, <- Hq.
  destruct (dispatch_agree (map fixDepth (firstn (spliceCount o1) (queue st1)))
              (mkState (visited st1) (captured st1) (skipn (spliceCount o1) (queue st1)))
              (mkState (visited st2) (captured st2) (skipn (spliceCount o1) (queue st1)))
              Hv (Permutation_length Hc)) as (tasks & v & -> & ->).
  cbn [captured queue].
  pose proof (drain_explicit o1 resolvedConfig site explicit1 sched1 tasks
                (mkState v (captured st1) (skipn (spliceCount o1) (queue st1)))) as D1.
  pose proof (drain_explicit o2 resolvedConfig site explicit2 sched2 tasks
                (mkState v (captured st2) (skipn (spliceCount o1) (queue st1)))) as D2.
  destruct (drain o1 _ _ sched1 tasks _) as [a|], (drain o2 _ _ sched2 tasks _) as [b|];
    unfold drained in D1, D2; cbn [visited captured queue] in D1, D2.
  - destruct D1 as (_ & Hv1 & Hq1 & Hc1), D2 as (_ & Hv2 & Hq2 & Hc2).
    split; [|exact Hq1]. repeat split; try congruence.
    rewrite Hc1, Hc2, renderedPages_agree. now apply Permutation_app_tail.
  - destruct D1 as (Hne & _), D2 as (r & Hin & He). exact (Hne r Hin He).
  - destruct D2 as (Hne & _), D1 as (r & Hin & He). exact (Hne r Hin He).
  - exact I.
Qed.

Lemma loopGuard_agree (st1 st2 : State) :
  sameProgress st1 st2 -> loopGuard o1 st1 = loopGuard o2 st2.
Proof.
  intros (_ & Hq & Hc). unfold loopGuard.
  now rewrite Hq, (Permutation_length Hc), maxPages_agree.
Qed.

(** With the same fuel the two loops end alike. *)
Lemma loop_agree (fuel : nat) (scheds1 scheds2 : list (list nat)) (st1 st2 : State) :
  sameProgress st1 st2 ->
  sameLoopResult (loop o1 resolvedConfig site fuel scheds1 st1)
                 (loop o2 resolvedConfig site fuel scheds2 st2).
Proof.
  revert scheds1 scheds2 st1 st2.
  induction fuel as [|fuel IH]; intros scheds1 scheds2 st1 st2 HR; cbn [loop].
  - exact I.
  - rewrite <- (loopGuard_agree st1 st2 HR).
    destruct (loopGuard o1 st1); [|exact HR].
    pose proof (runBatch_agree (hd [] scheds1) (hd [] scheds2) st1 st2 HR) as Hb.
    destruct (runBatch o1 _ _ _ st1) as [a|], (runBatch o2 _ _ _ st2) as [b|];
      try contradiction; [|exact I].
    apply IH. apply Hb.
Qed.

(** The loop of an explicit run makes at most one turn per queue entry. *)
Lemma loop_explicit_fuel (fuel : nat) (scheds : list (list nat)) (st : State) :
  (length (queue st) < fuel)%nat ->
  loop o1 resolvedConfig site fuel scheds st <> LoopOutOfFuel.
Proof.
  revert scheds st. induction fuel as [|fuel IH]; intros scheds st Hlt; [lia|].
  cbn [loop]. destruct (loopGuard o1 st) eqn:Hg; [|discriminate].
  assert (HR : sameProgress st st) by (repeat split; reflexivity).
  assert (Hself : forall s, match runBatch o1 resolvedConfig site s st with
                            | Some st' => queue st' = skipn (spliceCount o1) (queue st)
                            | None => True
                            end).
  { intros s. unfold runBatch, takeBatch.
    destruct (dispatch o1 _ _) as [tasks st0] eqn:Hd.
    pose proof (drain_explicit o1 resolvedConfig site explicit1 s tasks st0) as D.
    destruct (drain o1 _ _ s tasks st0) as [st'|]; [|exact I].
    destruct D as (_ & _ & -> & _).
    now apply dispatch_frame in Hd as [_ ->]. }
  specialize (Hself (hd [] scheds)).
  destruct (runBatch o1 resolvedConfig site (hd [] scheds) st) as [st'|]; [|discriminate].
  apply IH. rewrite Hself, length_skipn.
  unfold loopGuard in Hg. apply andb_true_iff in Hg as [Hq _].
  apply negb_true_iff, Nat.eqb_neq in Hq.
  assert (spliceCount o1 = 3%nat).
  { unfold spliceCount, concurrency, crawlEnabled. now rewrite explicit1. }
  lia.
Qed.

End Agreement.

(** ** The byte-wise comparison is a total order *)

Lemma byteCompare_le (a b : string) :
  (byteCompare a b <= 0)%Z <-> String.compare a b <> Gt.
Proof.
  unfold byteCompare. destruct (String.compare a b); split; intros; try lia; congruence.
Qed.

Lemma byteCompare_total (a b : string) :
  (byteCompare a b <= 0 \/ byteCompare b a <= 0)%Z.
Proof.
  rewrite !byteCompare_le, (String.compare_antisym a b).
  destruct (String.compare b a); simpl; [left | right | left]; congruence.
Qed.

Lemma byteCompare_antisym (a b : string) :
  (byteCompare a b <= 0)%Z -> (byteCompare b a <= 0)%Z -> a = b.
Proof.
  rewrite !byteCompare_le, (String.compare_antisym a b).
  destruct (String.compare b a) eqn:E; simpl; intros H1 H2; try congruence.
  symmetry. now apply String.compare_eq_iff.
Qed.

Lemma byteCompare_trans (a b c : string) :
  (byteCompare a b <= 0)%Z -> (byteCompare b c <= 0)%Z -> (byteCompare a c <= 0)%Z.
Proof.
  rewrite !byteCompare_le. intros Hab Hbc.
  destruct (String.compare a b) eqn:E1; [| |congruence].
  - apply String.compare_eq_iff in E1. now subst.
  - destruct (String.compare b c) eqn:E2; [| |congruence].
    + apply String.compare_eq_iff in E2. subst. congruence.
    + apply OrderedTypeEx.String_as_OT.cmp_lt in E1, E2.
      pose proof (OrderedTypeEx.String_as_OT.lt_trans _ _ _ E1 E2) as H.
      apply OrderedTypeEx.String_as_OT.cmp_lt in H.
      unfold OrderedTypeEx.String_as_OT.cmp in H. congruence.
Qed.

Lemma renderLlms_permutation
      (o1 o2 : Options.t) (resolvedConfig : ResolvedConfig.t)
      (localeCompare : string -> string -> Z) (pages1 pages2 : list Captured.t) :
  (forall a b, (localeCompare a b <= 0 \/ localeCompare b a <= 0)%Z) ->
  (forall a b c,
      (localeCompare a b <= 0 -> localeCompare b c <= 0 -> localeCompare a c <= 0)%Z) ->
  (forall a b, (localeCompare a b <= 0)%Z -> (localeCompare b a <= 0)%Z -> a = b) ->
  Options.output o1 = Options.output o2 ->
  Output.sort (Options.output o1) = true ->
  NoDup (map Captured.route pages1) ->
  Permutation pages1 pages2 ->
  renderLlms o1 resolvedConfig localeCompare pages1
  = renderLlms o2 resolvedConfig localeCompare pages2.
Proof.
  intros Htot Htr Hanti Hout Hsort Hn HP.
  unfold renderLlms, items, llmsTitle. rewrite <- Hout, Hsort.
  now rewrite (sortByRoute_permutation localeCompare Htot Htr Hanti pages1 pages2 Hn HP).
Qed.

(** The same, when the comparison is only known to tell the routes of
    the pages apart. *)
Lemma renderLlms_same_pages
      (o1 o2 : Options.t) (resolvedConfig : ResolvedConfig.t)
      (localeCompare : string -> string -> Z) (pages1 pages2 : list Captured.t) :
  (forall a b, (localeCompare a b <= 0 \/ localeCompare b a <= 0)%Z) ->
  (forall a b c,
      (localeCompare a b <= 0 -> localeCompare b c <= 0 -> localeCompare a c <= 0)%Z) ->
  noTies localeCompare (map Captured.route pages1) ->
  Options.output o1 = Options.output o2 ->
  Output.sort (Options.output o1) = true ->
  NoDup (map Captured.route pages1) ->
  Permutation pages1 pages2 ->
  renderLlms o1 resolvedConfig localeCompare pages1
  = renderLlms o2 resolvedConfig localeCompare pages2.
Proof.
  intros Htot Htr Hties Hout Hsort Hn HP.
  unfold renderLlms, items, llmsTitle. rewrite <- Hout, Hsort.
  assert (Hs : sortByRoute localeCompare pages1 = sortByRoute localeCompare pages2).
  { apply (sorted_perm_unique localeCompare).
    - now apply sortByRoute_sorted.
    - now apply sortByRoute_sorted.
    - now rewrite !sortByRoute_perm.
    - intros x y Hx Hy Hxy Hyx.
      assert (Hx' : In x pages1)
        by (eapply Permutation_in; [apply sortByRoute_perm | exact Hx]).
      assert (Hy' : In y pages1)
        by (eapply Permutation_in; [apply sortByRoute_perm | exact Hy]).
      apply (NoDup_map_injective Captured.route pages1); [exact Hn | exact Hx' | exact Hy' |].
      apply Hties; [now apply in_map | now apply in_map | exact Hxy | exact Hyx]. }
  now rewrite Hs.
Qed.

Lemma closeBundle_written
      (options : Options.t) (resolvedConfig : ResolvedConfig.t) (site : Site)
      (localeCompare : string -> string -> Z) (fuel : nat) (scheds : list (list nat))
      (llms : string) (pages : list Captured.t) :
  closeBundle options resolvedConfig site localeCompare fuel scheds = Written llms pages ->
  llms = renderLlms options resolvedConfig localeCompare pages
  /\ NoDup (map Captured.route pages).
Proof.
  unfold closeBundle. destruct (negb (Options.enabled options)); [discriminate|].
  destruct (loop options resolvedConfig site fuel scheds (initialState options))
    as [st| |] eqn:Hl; try discriminate.
  intros [= <- <-]. split; [reflexivity|].
  apply Inv_loop in Hl; [|apply Inv_initial].
  destruct Hl as (_ & Hn & _). exact Hn.
Qed.

(** ** How far the captured pages can exceed the cap *)

Section Cap.

Variable options : Options.t.
Variable resolvedConfig : ResolvedConfig.t.
Variable site : Site.

Lemma dispatch_pending_length (batch : list Entry.t) (st st' : State) (tasks : list Task) :
  dispatch options batch st = (tasks, st') ->
  (length (pending tasks) <= length batch)%nat.
Proof.
  revert st st' tasks. induction batch as [|e batch IH]; intros st st' tasks Hd; simpl in Hd.
  - injection Hd as <- _. simpl. lia.
  - destruct (crawlEnabled options && (maxDepth options <? Entry.depth e)%Z).
    + apply IH in Hd. simpl. lia.
    + destruct (captureOne_enter options (Entry.route e) st) as [st1|].
      * destruct (dispatch options batch st1) as [tasks1 st2] eqn:Hd1.
        injection Hd as <- _. apply IH in Hd1. simpl. lia.
      * destruct (dispatch options batch st) as [tasks1 st2] eqn:Hd1.
        injection Hd as <- _. apply IH in Hd1. simpl. lia.
Qed.




End Cap.
(** ** Depths in the queue *)

Section Depths.

Variable options : Options.t.
Variable resolvedConfig : ResolvedConfig.t.
Variable site : Site.

Lemma harvest_placeholders (visited hrefs : list string) :
  Forall (fun e => Entry.depth e = (-1)%Z)
         (harvest options resolvedConfig visited hrefs).
Proof.
  induction hrefs as [|href hrefs IH]; simpl; [constructor|].
  destruct (normalizeRoute href _); [|exact IH].
  destruct (negb _ && negb _); [constructor; [reflexivity | exact IH] | exact IH].
Qed.

Lemma dispatch_task_depths (batch : list Entry.t) (st st' : State) (tasks : list Task) :
  Forall (fun e => (0 <= Entry.depth e)%Z) batch ->
  dispatch options batch st = (tasks, st') ->
  Forall (fun t => (0 <= taskDepth t)%Z) tasks.
Proof.
  revert st st' tasks. induction batch as [|e batch IH]; intros st st' tasks Hb Hd;
    simpl in Hd.
  - injection Hd as <- _. constructor.
  - inversion Hb as [|? ? He Hb']; subst.
    destruct (crawlEnabled options && (maxDepth options <? Entry.depth e)%Z).
    + eapply IH; eauto.
    + destruct (captureOne_enter options (Entry.route e) st) as [st1|].
      * destruct (dispatch options batch st1) as [tasks1 st2] eqn:Hd1.
        injection Hd as <- _. constructor; [exact He | eapply IH; eauto].
      * destruct (dispatch options batch st) as [tasks1 st2] eqn:Hd1.
        injection Hd as <- _. constructor; [exact He | eapply IH; eauto].
Qed.

Lemma fixDepth_nonneg (q : list Entry.t) :
  Forall (fun e => (0 <= Entry.depth e)%Z) (map fixDepth q).
Proof.
  induction q as [|e q IH]; simpl; constructor; [|exact IH].
  unfold fixDepth. simpl. destruct (0 <=? Entry.depth e)%Z eqn:E; [now apply Z.leb_le | lia].
Qed.

Lemma patchEntry_resolved (d : Z) (q : list Entry.t) :
  Forall (fun e => (0 <= Entry.depth e)%Z) q -> map (patchEntry d) q = q.
Proof.
  induction 1 as [|e q He _ IH]; simpl; [reflexivity|].
  rewrite IH. unfold patchEntry.
  destruct (Entry.depth e =? -1)%Z eqn:E; [apply Z.eqb_eq in E; lia | reflexivity].
Qed.

Lemma Forall_replaceAt (P : Task -> Prop) (tasks : list Task) (i : nat) (ot : option Task) :
  Forall P tasks -> (forall t, ot = Some t -> P t) -> Forall P (replaceAt i ot tasks).
Proof.
  intros H Hot. revert i. induction H as [|t tasks Ht Hts IH]; intros i; simpl.
  - destruct i; constructor.
  - destruct i as [|i].
    + destruct ot; [constructor; auto | assumption].
    + constructor; [exact Ht | apply IH].
Qed.

Lemma replaceAt_some_not_nil (tasks : list Task) (i : nat) (t t' : Task) :
  nth_error tasks i = Some t -> replaceAt i (Some t') tasks <> [].
Proof.
  revert i. induction tasks as [|t0 tasks IH]; intros [|i] H; simpl in *; discriminate.
Qed.

(** After a batch no placeholder is left: with the queue resolved when
    the batch is formed, what the batch leaves is the rest of the queue
    followed by harvested entries of depth 1 or more. *)
Lemma runBatch_resolves_depths (sched : list nat) (st st' : State) :
  Forall (fun e => (0 <= Entry.depth e)%Z) (queue st) ->
  runBatch options resolvedConfig site sched st = Some st' ->
  exists harvested,
    queue st' = skipn (spliceCount options) (queue st) ++ harvested
    /\ Forall (fun e => (1 <= Entry.depth e)%Z) harvested.
Proof.
  intros Hq. unfold runBatch, takeBatch.
  set (rest := skipn (spliceCount options) (queue st)).
  assert (Hrest : Forall (fun e => (0 <= Entry.depth e)%Z) rest).
  { unfold rest. rewrite <- (firstn_skipn (spliceCount options) (queue st)) in Hq.
    now apply Forall_app in Hq. }
  destruct (dispatch options _ _) as [tasks st0] eqn:Hd.
  pose proof (dispatch_task_depths _ _ _ _ (fixDepth_nonneg _) Hd) as Ht.
  apply dispatch_frame in Hd as [_ Hq0]. simpl in Hq0.
  intros Hdr.
  apply (drain_preserves options resolvedConfig site
           (fun ts s =>
              Forall (fun t => (0 <= taskDepth t)%Z) ts
              /\ exists h,
                  queue s = rest ++ h
                  /\ Forall (fun e => Entry.depth e = (-1)%Z \/ (1 <= Entry.depth e)%Z) h
                  /\ (ts = [] -> Forall (fun e => (1 <= Entry.depth e)%Z) h)
                  /\ (crawlEnabled options = false -> h = [])))
    in Hdr.
  - destruct Hdr as (_ & h & Hh & _ & Hres & _). exists h. auto.
  - clear Hdr Ht. intros ts s i t ot s' Hn Hr (Hts & h & Hh & Hall & Hres & Hexp).
    destruct t as [r d|d]; simpl in Hr.
    + destruct (captureOne_body options resolvedConfig site r s) as [s1|] eqn:Hb;
        [|discriminate].
      injection Hr as <- <-. split.
      * apply Forall_replaceAt; [exact Hts|]. intros t [= <-].
        rewrite Forall_forall in Hts. apply (Hts (InFlight r d)).
        eapply nth_error_In; eauto.
      * apply captureOne_body_some in Hb as (_ & [(_ & -> & _)|(tt & hh & _ & _ & ->)]).
        -- exists h. repeat split; try assumption.
           intros E. exfalso. eapply replaceAt_some_not_nil; eauto.
        -- destruct (crawlEnabled options).
           ++ exists (h ++ harvest options resolvedConfig (visited s) hh).
              rewrite Hh, app_assoc. repeat split.
              ** apply Forall_app. split; [exact Hall|].
                 eapply Forall_impl; [|apply harvest_placeholders]. simpl. auto.
              ** intros E. exfalso. eapply replaceAt_some_not_nil; eauto.
              ** discriminate.
           ++ exists h. repeat split; try assumption.
              intros E. exfalso. eapply replaceAt_some_not_nil; eauto.
    + injection Hr as <- <-.
      assert (Hd0 : (0 <= d)%Z).
      { rewrite Forall_forall in Hts. apply (Hts (Closing d)). eapply nth_error_In; eauto. }
      split; [apply Forall_replaceAt; [exact Hts | discriminate]|].
      unfold patchDepths. destruct (crawlEnabled options); cbn [queue].
      * exists (map (patchEntry d) h). rewrite Hh, map_app, (patchEntry_resolved d rest Hrest).
        assert (Hp : Forall (fun e => (1 <= Entry.depth e)%Z) (map (patchEntry d) h)).
        { clear Hh Hres Hexp. induction Hall as [|e h He _ IH]; simpl; [constructor|].
          constructor; [|exact IH].
          unfold patchEntry. destruct (Entry.depth e =? -1)%Z eqn:E; simpl; [lia|].
          apply Z.eqb_neq in E. destruct He; [contradiction | assumption]. }
        repeat split; [|auto|discriminate].
        eapply Forall_impl; [|exact Hp]. simpl. auto.
      * exists h. rewrite (Hexp eq_refl) in *. repeat split; auto.
  - split; [exact Ht|]. exists []. rewrite app_nil_r. repeat split; auto.
Qed.

End Depths.
(** ** Route normalisation: what the result looks like *)

Lemma indexOf_cons (a c : ascii) (s : string) :
  Str.indexOf (String a s) c = (-1)%Z <-> a <> c /\ Str.indexOf s c = (-1)%Z.
Proof.
  cbn [Str.indexOf]. destruct (Ascii.eqb a c) eqn:E.
  - apply Ascii.eqb_eq in E. split; [discriminate | tauto].
  - apply Ascii.eqb_neq in E.
    destruct (Str.indexOf s c <? 0)%Z eqn:L.
    + split; [|reflexivity]. intros _. split; [exact E|].
      apply Z.ltb_lt in L. clear E. revert L.
      induction s as [|b s IH]; cbn [Str.indexOf]; [reflexivity|].
      destruct (Ascii.eqb b c); [lia|].
      destruct (Str.indexOf s c <? 0)%Z eqn:L'; [reflexivity|].
      apply Z.ltb_ge in L'. lia.
    + apply Z.ltb_ge in L. split; [lia | intros [_ H]; lia].
Qed.

Lemma indexOf_substring_absent (c : ascii) (s : string) (n : nat) :
  Str.indexOf s c = (-1)%Z -> Str.indexOf (String.substring 0 n s) c = (-1)%Z.
Proof.
  revert n. induction s as [|a s IH]; intros n H.
  - destruct n; reflexivity.
  - apply indexOf_cons in H as [Hne H]. destruct n as [|n]; [reflexivity|].
    cbn [String.substring]. apply indexOf_cons. split; [exact Hne | now apply IH].
Qed.

Lemma indexOf_nonneg (c : ascii) (s : string) :
  (-1 <= Str.indexOf s c)%Z.
Proof.
  induction s as [|a s IH]; cbn [Str.indexOf]; [lia|].
  destruct (Ascii.eqb a c); [lia|].
  destruct (Str.indexOf s c <? 0)%Z; lia.
Qed.

(** Cutting at the first occurrence leaves none. *)
Lemma indexOf_slice_absent (c : ascii) (s : string) :
  Str.indexOf (Str.slice s 0 (Str.indexOf s c)) c = (-1)%Z.
Proof.
  unfold Str.slice. rewrite Z.sub_0_r. simpl Z.to_nat at 1.
  induction s as [|a s IH]; [reflexivity|].
  cbn [Str.indexOf]. destruct (Ascii.eqb a c) eqn:E; [reflexivity|].
  apply Ascii.eqb_neq in E.
  destruct (Str.indexOf s c <? 0)%Z eqn:L.
  - reflexivity.
  - apply Z.ltb_ge in L.
    replace (Z.to_nat (Str.indexOf s c + 1)) with (S (Z.to_nat (Str.indexOf s c))) by lia.
    cbn [String.substring]. apply indexOf_cons. split; [exact E | exact IH].
Qed.

Lemma indexOf_collapse_absent (c : ascii) (s : string) :
  Str.indexOf s c = (-1)%Z -> Str.indexOf (Str.collapseSlashes s) c = (-1)%Z.
Proof.
  induction s as [|a s IH]; [reflexivity|].
  intros H. apply indexOf_cons in H as [Hne H]. cbn [Str.collapseSlashes].
  destruct s as [|b s']; [apply indexOf_cons; split; [exact Hne | reflexivity]|].
  destruct (Ascii.eqb a "/" && Ascii.eqb b "/"); [now apply IH|].
  apply indexOf_cons. split; [exact Hne | now apply IH].
Qed.

Lemma collapseSlashes_head (a : ascii) (s : string) :
  exists t, Str.collapseSlashes (String a s) = String a t.
Proof.
  revert a. induction s as [|b s IH]; intros a; cbn [Str.collapseSlashes]; [eauto|].
  destruct (Ascii.eqb a "/" && Ascii.eqb b "/") eqn:E; [|eauto].
  apply andb_true_iff in E as [Ea Eb].
  apply Ascii.eqb_eq in Ea, Eb. subst. apply IH.
Qed.

Lemma collapseSlashes_idempotent (s : string) :
  Str.collapseSlashes (Str.collapseSlashes s) = Str.collapseSlashes s.
Proof.
  induction s as [|a s IH]; [reflexivity|].
  cbn [Str.collapseSlashes]. destruct s as [|b s']; [reflexivity|].
  destruct (Ascii.eqb a "/" && Ascii.eqb b "/") eqn:E; [exact IH|].
  destruct (collapseSlashes_head b s') as [t Ht].
  rewrite Ht in *.
  change (Str.collapseSlashes (String a (String b t)))
    with (if Ascii.eqb a "/" && Ascii.eqb b "/"
          then Str.collapseSlashes (String b t)
          else String a (Str.collapseSlashes (String b t))).
  now rewrite E, IH.
Qed.

(** What [normalizeRoute] returns: a string that starts with a slash,
    holds no ["#"], no ["?"] when the query is stripped, and no run of
    slashes. *)
Lemma normalizeRoute_shape (input : string) (stripQuery : bool) (r : string) :
  normalizeRoute input stripQuery = Some r ->
  (exists t, r = String "/" t)
  /\ Str.indexOf r "#" = (-1)%Z
  /\ (stripQuery = true -> Str.indexOf r "?" = (-1)%Z)
  /\ Str.collapseSlashes r = r.
Proof.
  unfold normalizeRoute.
  destruct (negb (Str.truthy input)); [discriminate|].
  destruct (_ || _ || _); [discriminate|].
  destruct (_ || _); [discriminate|].
  set (s0 := Str.trim input).
  set (s1 := if (0 <=? Str.indexOf s0 "#")%Z then Str.slice s0 0 (Str.indexOf s0 "#") else s0).
  set (s2 := if stripQuery
             then if (0 <=? Str.indexOf s1 "?")%Z then Str.slice s1 0 (Str.indexOf s1 "?") else s1
             else s1).
  assert (H1 : Str.indexOf s1 "#" = (-1)%Z).
  { unfold s1. destruct (0 <=? Str.indexOf s0 "#")%Z eqn:E; [apply indexOf_slice_absent|].
    apply Z.leb_gt in E. pose proof (indexOf_nonneg "#" s0). lia. }
  assert (H2 : Str.indexOf s2 "#" = (-1)%Z).
  { unfold s2. destruct stripQuery; [|exact H1].
    destruct (0 <=? Str.indexOf s1 "?")%Z; [|exact H1].
    unfold Str.slice. now apply indexOf_substring_absent. }
  assert (H3 : stripQuery = true -> Str.indexOf s2 "?" = (-1)%Z).
  { intros ->. unfold s2.
    destruct (0 <=? Str.indexOf s1 "?")%Z eqn:E; [apply indexOf_slice_absent|].
    apply Z.leb_gt in E. pose proof (indexOf_nonneg "?" s1). lia. }
  clearbody s2. clear s1 H1. clearbody s0.
  destruct (negb (Str.truthy s2)) eqn:Ht; [discriminate|].
  intros Hr.
  assert (Hs3 : exists t,
             (if negb (Str.startsWith s2 "/")
              then if Str.startsWith s2 "./" then Str.sliceFrom s2 1 else "/" ^^ s2
              else s2) = String "/" t
             /\ Str.indexOf (String "/" t) "#" = (-1)%Z
             /\ (stripQuery = true -> Str.indexOf (String "/" t) "?" = (-1)%Z)).
  { destruct s2 as [|a s2]; [discriminate|].
    cbn [Str.startsWith]. destruct (Ascii.eqb a "/") eqn:Ea.
    - apply Ascii.eqb_eq in Ea. subst a. exists s2. simpl. auto.
    - cbn [andb negb]. destruct (Ascii.eqb a "." && _) eqn:Ed.
      + destruct s2 as [|b s2]; [apply andb_true_iff in Ed as [_ Ed]; discriminate|].
        apply andb_true_iff in Ed as [_ Ed]. cbn [Str.startsWith] in Ed.
        rewrite andb_true_r in Ed. apply Ascii.eqb_eq in Ed. subst b.
        exists s2. cbn [Str.sliceFrom].
        apply indexOf_cons in H2 as [_ H2]. split; [reflexivity|]. split; [exact H2|].
        intros Hq. specialize (H3 Hq). now apply indexOf_cons in H3 as [_ H3].
      + exists (String a s2). split; [reflexivity|]. split.
        * apply indexOf_cons. split; [discriminate | exact H2].
        * intros Hq. apply indexOf_cons. split; [discriminate | auto]. }
  destruct Hs3 as (t & E & Hh & Hq). rewrite E in Hr.
  remember (Str.collapseSlashes (String "/" t)) as r0 eqn:Er0.
  injection Hr as <-. subst r0.
  destruct (collapseSlashes_head "/" t) as [t' Ht'].
  split; [eauto|]. split; [now apply indexOf_collapse_absent|].
  split; [intros Eq; now apply indexOf_collapse_absent, Hq|].
  apply collapseSlashes_idempotent.
Qed.

(** A second pass changes nothing but the white space at the end: when
    the result of [normalizeRoute] is its own [trim], normalising it
    again returns it. *)
Lemma normalizeRoute_idempotent_when_trimmed (input : string) (stripQuery : bool) (r : string) :
  normalizeRoute input stripQuery = Some r ->
  Str.trim r = r ->
  normalizeRoute r stripQuery = Some r.
Proof.
  intros H Htrim. apply normalizeRoute_shape in H as ((t & ->) & Hh & Hq & Hc).
  unfold normalizeRoute. rewrite Htrim.
  cbn [Str.truthy String.eqb negb Str.startsWith Ascii.eqb Bool.eqb andb orb].
  rewrite Hh. cbn [Z.leb Z.compare].
  destruct stripQuery.
  - rewrite (Hq eq_refl). cbn [Z.leb Z.compare]. simpl negb. cbv iota. now rewrite Hc.
  - simpl negb. cbv iota. now rewrite Hc.
Qed.
(** ** Explicit mode: every declared route is dealt with *)

Section ExplicitComplete.

Variable options : Options.t.
Variable resolvedConfig : ResolvedConfig.t.
Variable site : Site.

Hypothesis explicit : Crawl.enabled (Options.crawl options) = false.

(** Below the cap, dispatching a batch leaves each of its routes in
    [visited] or excluded, and adds the pending routes to [visited]. *)
Lemma dispatch_explicit (batch : list Entry.t) (st st' : State) (tasks : list Task) :
  (Z.of_nat (length (captured st)) < maxPages options)%Z ->
  dispatch options batch st = (tasks, st') ->
  (forall e, In e batch ->
             In (Entry.route e) (visited st')
             \/ isExcluded (Options.exclude options) (Entry.route e) = true)
  /\ (forall r, In r (visited st') <-> In r (pending tasks) \/ In r (visited st)).
Proof.
  intros Hcap. revert st st' tasks Hcap.
  induction batch as [|e batch IH]; intros st st' tasks Hcap Hd; cbn [dispatch] in Hd.
  - injection Hd as <- <-. split; [intros e []|]. intros r. simpl. tauto.
  - unfold crawlEnabled in Hd. rewrite explicit in Hd. cbn [andb] in Hd.
    destruct (captureOne_enter options (Entry.route e) st) as [st1|] eqn:He.
    + destruct (dispatch options batch st1) as [tasks1 st2] eqn:Hd1.
      injection Hd as <- <-.
      apply captureOne_enter_some in He as (_ & _ & _ & ->).
      apply IH in Hd1 as [Hb Hv]; [|exact Hcap]. split.
      * intros e' [<-|Hin]; [|now apply Hb]. left. apply Hv. right. now left.
      * intros r. rewrite Hv. simpl. tauto.
    + destruct (dispatch options batch st) as [tasks1 st2] eqn:Hd1.
      injection Hd as <- <-.
      apply IH in Hd1 as [Hb Hv]; [|exact Hcap]. split; [|exact Hv].
      intros e' [<-|Hin]; [|now apply Hb].
      unfold captureOne_enter in He.
      destruct (has (visited st) (Entry.route e)) eqn:Hh.
      * left. apply Hv. right. now apply has_true_iff.
      * destruct (isExcluded (Options.exclude options) (Entry.route e)); [now right|].
        destruct (maxPages options <=? Z.of_nat (length (captured st)))%Z eqn:Hm;
          [|discriminate].
        apply Z.leb_le in Hm. lia.
Qed.

Lemma renderedPages_In (routes : list string) (r titleText : string) (hrefs : list string) :
  In r routes -> site r = Rendered titleText hrefs ->
  In (capturedRecord options r titleText) (renderedPages options site routes).
Proof.
  intros Hin Hs. unfold renderedPages. apply in_flat_map. exists r.
  split; [exact Hin|]. rewrite Hs. now left.
Qed.

Lemma renderedPages_length (routes : list string) :
  (length (renderedPages options site routes) <= length routes)%nat.
Proof.
  unfold renderedPages. induction routes as [|r l IH]; [simpl; lia|].
  cbn [flat_map]. rewrite length_app. cbn [length].
  destruct (site r); cbn [length]; lia.
Qed.

Lemma settled_runBatch (sched : list nat) (st st' : State) :
  loopGuard options st = true ->
  settled options site st ->
  runBatch options resolvedConfig site sched st = Some st' ->
  settled options site st'.
Proof.
  intros Hg (Hlen & Hseed & Hvis) Hb.
  assert (Hmax : maxPages options = Z.of_nat (length (seedQueue options))).
  { unfold maxPages, crawlEnabled. now rewrite explicit. }
  unfold loopGuard in Hg. apply andb_true_iff in Hg as [Hq _].
  apply negb_true_iff, Nat.eqb_neq in Hq.
  unfold runBatch, takeBatch in Hb.
  destruct (dispatch options _ _) as [tasks st0] eqn:Hd.
  pose proof (dispatch_pending_length _ _ _ _ _ Hd) as Hp. rewrite length_map in Hp.
  pose proof (dispatch_frame _ _ _ _ _ Hd) as [Hc0 Hq0]. simpl in Hc0, Hq0.
  apply dispatch_explicit in Hd as [Hbatch Hv0]; [|cbn [captured]; rewrite Hmax; lia].
  simpl in Hv0.
  pose proof (drain_explicit options resolvedConfig site explicit sched tasks st0) as D.
  rewrite Hb in D. destruct D as (_ & Hv & Hq' & Hc).
  pose proof (firstn_skipn (spliceCount options) (queue st)) as Hsplit.
  repeat split.
  - rewrite (Permutation_length Hc), Hq', Hq0, length_app, Hc0.
    pose proof (renderedPages_length (pending tasks)).
    rewrite <- Hsplit, length_app in Hlen. lia.
  - intros e He. rewrite Hv, Hq', Hq0.
    destruct (Hseed e He) as [Hin|[Hin|Hin]]; [|right; left; apply Hv0; now right | auto].
    rewrite <- Hsplit in Hin. apply in_app_or in Hin as [Hin|Hin]; [|now left].
    right. destruct (Hbatch (fixDepth e)) as [H|H]; [now apply in_map | left; exact H | right; exact H].
  - intros r t h Hin Hs. rewrite Hv in Hin. apply Hv0 in Hin as [Hin|Hin].
    + eapply Permutation_in; [symmetry; exact Hc|]. apply in_or_app. right.
      eapply renderedPages_In; eauto.
    + eapply Permutation_in; [symmetry; exact Hc|]. apply in_or_app. left.
      rewrite Hc0. eapply Hvis; eauto.
Qed.

(** A finished explicit run has captured every declared route that is
    not excluded and renders. *)
Lemma explicit_run_complete (fuel : nat) (scheds : list (list nat)) (final : State)
      (e : Entry.t) (titleText : string) (hrefs : list string) :
  loop options resolvedConfig site fuel scheds (initialState options) = LoopDone final ->
  In e (seedQueue options) ->
  isExcluded (Options.exclude options) (Entry.route e) = false ->
  site (Entry.route e) = Rendered titleText hrefs ->
  In (capturedRecord options (Entry.route e) titleText) (captured final).
Proof.
  intros Hl He Hx Hs.
  assert (H : forall st, settled options site st ->
                         loop options resolvedConfig site fuel scheds st = LoopDone final ->
                         settled options site final /\ loopGuard options final = false).
  { clear Hl. revert scheds. induction fuel as [|fuel' IH]; intros scheds st Hst; simpl;
      [discriminate|].
    destruct (loopGuard options st) eqn:Hg; [|intros [= <-]; auto].
    destruct (runBatch options resolvedConfig site (hd [] scheds) st) as [st1|] eqn:Hb;
      [|discriminate].
    apply IH. eapply settled_runBatch; eauto. }
  destruct (H (initialState options)) as [(Hlen & Hseed & Hvis) Hg]; [|exact Hl|].
  { unfold settled, initialState. simpl. repeat split; [lia | auto | tauto]. }
  assert (Hq : queue final = []).
  { unfold loopGuard in Hg. apply andb_false_iff in Hg as [Hg|Hg].
    - apply negb_false_iff, Nat.eqb_eq in Hg. now destruct (queue final).
    - apply Z.ltb_ge in Hg.
      assert (maxPages options = Z.of_nat (length (seedQueue options))).
      { unfold maxPages, crawlEnabled. now rewrite explicit. }
      destruct (queue final); [reflexivity | simpl in Hlen; lia]. }
  destruct (Hseed e He) as [Hin|[Hin|Hin]].
  - rewrite Hq in Hin. contradiction.
  - eapply Hvis; eauto.
  - congruence.
Qed.

End ExplicitComplete.

(** ** The routes of a run *)

Section RoutesOfARun.

Variable options : Options.t.
Variable resolvedConfig : ResolvedConfig.t.
Variable site : Site.

(** A property of routes that the seeds have and that the links of a
    page pass on. *)
Variable P : string -> Prop.

Hypothesis seeds_satisfy : forall e, In e (seedQueue options) -> P (Entry.route e).

Hypothesis links_satisfy :
  forall parent titleText hrefs href n,
    crawlEnabled options = true ->
    P parent -> site parent = Rendered titleText hrefs -> In href hrefs ->
    normalizeRoute href (Crawl.stripQuery (Options.crawl options)) = Some n ->
    P (baseRelative resolvedConfig n).

Lemma harvest_satisfies (parent titleText : string) (hrefs visited links : list string) :
  crawlEnabled options = true ->
  P parent -> site parent = Rendered titleText hrefs -> incl links hrefs ->
  Forall (fun e => P (Entry.route e)) (harvest options resolvedConfig visited links).
Proof.
  intros Hcrawl Hp Hs. induction links as [|href links IH]; intros Hi; [constructor|].
  assert (Hi' : incl links hrefs) by (intros x Hx; apply Hi; now right).
  cbn [harvest].
  destruct (normalizeRoute href _) as [n|] eqn:En; [|now apply IH].
  destruct (negb _ && negb _); [|now apply IH].
  constructor; [|now apply IH].
  cbn [Entry.route]. eapply links_satisfy; eauto. apply Hi. now left.
Qed.

Lemma routesSatisfy_resume (tasks : list Task) (st : State) (i : nat) (t : Task)
      (ot : option Task) (st' : State) :
  nth_error tasks i = Some t ->
  resume options resolvedConfig site t st = Some (ot, st') ->
  routesSatisfy P tasks st -> routesSatisfy P (replaceAt i ot tasks) st'.
Proof.
  intros Hn Hr (Hp & Hq & Hc). destruct t as [r d|d]; simpl in Hr.
  - destruct (captureOne_body options resolvedConfig site r st) as [st1|] eqn:Hb;
      [|discriminate].
    injection Hr as <- <-.
    assert (Hr : P r).
    { rewrite Forall_forall in Hp. apply Hp. eapply pending_nth_error; eauto. }
    assert (Hp' : Forall P (pending (replaceAt i (Some (Closing d)) tasks))).
    { pose proof (replaceAt_pending_inflight tasks i r d d Hn) as HP.
      apply (Permutation_Forall HP) in Hp. now inversion Hp. }
    apply captureOne_body_some in Hb
      as (_ & [(Ec & Eq & _)|(tt & hh & Hs & Ec & Eq)]).
    + unfold routesSatisfy, capturedRoutes. rewrite Ec, Eq. auto.
    + unfold routesSatisfy, capturedRoutes. rewrite Ec, Eq.
      split; [exact Hp'|]. split.
      * remember (crawlEnabled options) as crawling eqn:Hcrawl in |- *.
        symmetry in Hcrawl. destruct crawling; [|exact Hq].
        apply Forall_app. split; [exact Hq|].
        eapply harvest_satisfies; eauto. apply incl_refl.
      * rewrite map_app. apply Forall_app. split; [exact Hc|].
        now repeat constructor.
  - injection Hr as <- <-.
    unfold routesSatisfy, capturedRoutes.
    rewrite (replaceAt_pending_closing tasks i d Hn).
    split; [exact Hp|]. unfold patchDepths.
    destruct (crawlEnabled options); [|auto]. cbn [queue captured]. split; [|exact Hc].
    apply Forall_map. eapply Forall_impl; [|exact Hq].
    intros e He. unfold patchEntry. now destruct (_ =? _)%Z.
Qed.

Lemma routesSatisfy_dispatch (batch : list Entry.t) (st st' : State) (tasks : list Task) :
  dispatch options batch st = (tasks, st') ->
  Forall (fun e => P (Entry.route e)) batch ->
  Forall P (pending tasks).
Proof.
  revert st st' tasks. induction batch as [|e batch IH]; intros st st' tasks Hd Hb;
    simpl in Hd.
  - injection Hd as <- _. constructor.
  - inversion Hb as [|? ? He Hb']; subst.
    destruct (crawlEnabled options && (maxDepth options <? Entry.depth e)%Z).
    + eapply IH; eauto.
    + destruct (captureOne_enter options (Entry.route e) st) as [st1|].
      * destruct (dispatch options batch st1) as [tasks1 st2] eqn:Hd1.
        injection Hd as <- _. cbn [pending flat_map app].
        constructor; [exact He|]. eapply IH; eauto.
      * destruct (dispatch options batch st) as [tasks1 st2] eqn:Hd1.
        injection Hd as <- _. cbn [pending flat_map app]. eapply IH; eauto.
Qed.

Lemma routesSatisfy_runBatch (sched : list nat) (st st' : State) :
  runBatch options resolvedConfig site sched st = Some st' ->
  routesSatisfy P [] st -> routesSatisfy P [] st'.
Proof.
  unfold runBatch, takeBatch. intros Hb (_ & Hq & Hc).
  destruct (dispatch options (map (fixDepth) (firstn (spliceCount options) (queue st)))
                     (mkState (visited st) (captured st)
                              (skipn (spliceCount options) (queue st))))
    as [tasks st0] eqn:Hd.
  rewrite <- (firstn_skipn (spliceCount options) (queue st)) in Hq.
  apply Forall_app in Hq as [Hq1 Hq2].
  apply (drain_preserves options resolvedConfig site (routesSatisfy P)) in Hb;
    [exact Hb | apply routesSatisfy_resume |].
  pose proof (dispatch_frame _ _ _ _ _ Hd) as [Ec Eq]. cbn [captured queue] in Ec, Eq.
  unfold routesSatisfy, capturedRoutes. rewrite Ec, Eq.
  split; [|auto].
  eapply routesSatisfy_dispatch; [exact Hd|].
  apply Forall_map. eapply Forall_impl; [|exact Hq1]. now intros e He.
Qed.

(** The routes of the queue and of the captured pages of a run all have
    the property. *)
Lemma routesSatisfy_loop (fuel : nat) (scheds : list (list nat)) (st : State) :
  loop options resolvedConfig site fuel scheds (initialState options) = LoopDone st ->
  routesSatisfy P [] st.
Proof.
  assert (H0 : routesSatisfy P [] (initialState options)).
  { unfold routesSatisfy, initialState, capturedRoutes. cbn.
    split; [constructor|]. split; [|constructor].
    apply Forall_forall. exact seeds_satisfy. }
  revert H0. generalize (initialState options) as st0. revert scheds.
  induction fuel as [|fuel IH]; intros scheds st0 H0; simpl; [discriminate|].
  destruct (loopGuard options st0).
  - destruct (runBatch options resolvedConfig site (hd [] scheds) st0) as [st1|] eqn:Hb;
      [|discriminate].
    apply IH. eapply routesSatisfy_runBatch; eauto.
  - now intros [= <-].
Qed.

End RoutesOfARun.

(** ** Rules as objects: what rules without state come to *)

Lemma test_stateless (re : RegExp.t) (lastIndex : nat) (s : string) :
  RegExp.keepsIndex re = false ->
  RegExp.test re lastIndex s = (fst (RegExp.test re 0 s), lastIndex).
Proof.
  intros H. unfold RegExp.test. rewrite H.
  now destruct (RegExp.search re s 0 (String.length s)).
Qed.

Lemma isExcluded_stateless (rules : list Stateful.Rule) (route : string) :
  Forall Stateful.stateless rules ->
  Stateful.isExcluded rules route = (isExcluded (map Stateful.view rules) route, rules).
Proof.
  induction 1 as [|rule rules Hr _ IH]; [reflexivity|].
  destruct rule as [p|re lastIndex];
    cbn [Stateful.isExcluded map Stateful.view]; unfold isExcluded in *;
    cbn [existsb ruleMatches].
  - destruct (Str.includes route p); [reflexivity|]. now rewrite IH.
  - rewrite (test_stateless re lastIndex route Hr).
    destruct (fst (RegExp.test re 0 route)); [reflexivity|]. now rewrite IH.
Qed.

Section Stateless.

Variable options : Stateful.Options.
Variable resolvedConfig : ResolvedConfig.t.
Variable site : Site.

Hypothesis rules_stateless : Forall Stateful.stateless (Stateful.exclude options).

Local Abbreviation o := (Stateful.plain options).
Local Abbreviation lift := (fun st => Stateful.mkWorld st (Stateful.exclude options)).

Lemma enter_stateless (route : string) (st : State) :
  Stateful.captureOne_enter options route (lift st)
  = match captureOne_enter o route st with
    | Some st' => (true, lift st')
    | None => (false, lift st)
    end.
Proof.
  unfold Stateful.captureOne_enter, captureOne_enter.
  cbn [Stateful.collections Stateful.rules].
  destruct (has (visited st) route); [reflexivity|].
  rewrite (isExcluded_stateless _ route rules_stateless).
  change (Options.exclude o) with (map Stateful.view (Stateful.exclude options)).
  destruct (isExcluded (map Stateful.view (Stateful.exclude options)) route); [reflexivity|].
  now destruct (maxPages o <=? Z.of_nat (length (captured st)))%Z.
Qed.

Lemma harvest_stateless (visited hrefs : list string) :
  Stateful.harvest options resolvedConfig visited hrefs (Stateful.exclude options)
  = (harvest o resolvedConfig visited hrefs, Stateful.exclude options).
Proof.
  induction hrefs as [|href hrefs IH]; [reflexivity|].
  cbn [Stateful.harvest harvest].
  change (Crawl.stripQuery (Options.crawl o))
    with (Crawl.stripQuery (Stateful.crawl options)).
  destruct (normalizeRoute href (Crawl.stripQuery (Stateful.crawl options))) as [n|];
    [|exact IH].
  destruct (has visited (baseRelative resolvedConfig n)); [exact IH|].
  rewrite (isExcluded_stateless _ _ rules_stateless).
  change (Options.exclude o) with (map Stateful.view (Stateful.exclude options)).
  destruct (isExcluded (map Stateful.view (Stateful.exclude options))
                       (baseRelative resolvedConfig n)); cbn [negb andb];
    [exact IH|].
  now rewrite IH.
Qed.

Lemma body_stateless (route : string) (st : State) :
  Stateful.captureOne_body options resolvedConfig site route (lift st)
  = option_map lift (captureOne_body o resolvedConfig site route st).
Proof.
  unfold Stateful.captureOne_body, captureOne_body.
  cbn [Stateful.collections Stateful.rules].
  destruct (site route) as [|s|titleText hrefs]; [reflexivity | reflexivity |].
  destruct (crawlEnabled o); [|reflexivity].
  now rewrite harvest_stateless.
Qed.

Lemma dispatch_stateless (batch : list Entry.t) (st : State) :
  Stateful.dispatch options batch (lift st)
  = (fst (dispatch o batch st), lift (snd (dispatch o batch st))).
Proof.
  revert st. induction batch as [|e batch IH]; intros st; [reflexivity|].
  cbn [Stateful.dispatch dispatch].
  destruct (crawlEnabled o && (maxDepth o <? Entry.depth e)%Z); [apply IH|].
  rewrite enter_stateless.
  destruct (captureOne_enter o (Entry.route e) st) as [st1|].
  - rewrite IH. now destruct (dispatch o batch st1).
  - rewrite IH. now destruct (dispatch o batch st).
Qed.

Lemma resume_stateless (t : Task) (st : State) :
  Stateful.resume options resolvedConfig site t (lift st)
  = option_map (fun r => (fst r, lift (snd r))) (resume o resolvedConfig site t st).
Proof.
  destruct t as [route depth|depth]; cbn [Stateful.resume resume]; [|reflexivity].
  rewrite body_stateless.
  now destruct (captureOne_body o resolvedConfig site route st).
Qed.

Lemma finish_stateless (t : Task) (st : State) :
  Stateful.finish options resolvedConfig site t (lift st)
  = option_map lift (finish o resolvedConfig site t st).
Proof.
  destruct t as [route depth|depth]; cbn [Stateful.finish finish]; [|reflexivity].
  rewrite body_stateless.
  now destruct (captureOne_body o resolvedConfig site route st).
Qed.

Lemma flush_stateless (tasks : list Task) (st : State) :
  Stateful.flush options resolvedConfig site tasks (lift st)
  = option_map lift (flush o resolvedConfig site tasks st).
Proof.
  revert st. induction tasks as [|t tasks IH]; intros st; [reflexivity|].
  cbn [Stateful.flush flush]. rewrite finish_stateless.
  destruct (finish o resolvedConfig site t st) as [st'|]; [apply IH | reflexivity].
Qed.

Lemma drain_stateless (sched : list nat) (tasks : list Task) (st : State) :
  Stateful.drain options resolvedConfig site sched tasks (lift st)
  = option_map lift (drain o resolvedConfig site sched tasks st).
Proof.
  revert tasks st. induction sched as [|c sched IH]; intros tasks st.
  - apply flush_stateless.
  - cbn [Stateful.drain drain]. destruct tasks as [|t0 tasks]; [reflexivity|].
    destruct (nth_error (t0 :: tasks) (c mod length (t0 :: tasks))) as [t|];
      [|apply flush_stateless].
    rewrite resume_stateless.
    destruct (resume o resolvedConfig site t st) as [[ot st']|]; [apply IH | reflexivity].
Qed.

Lemma runBatch_stateless (sched : list nat) (st : State) :
  Stateful.runBatch options resolvedConfig site sched (lift st)
  = option_map lift (runBatch o resolvedConfig site sched st).
Proof.
  unfold Stateful.runBatch, runBatch. cbn [Stateful.collections Stateful.rules].
  destruct (takeBatch o (queue st)) as [batch rest].
  rewrite dispatch_stateless.
  destruct (dispatch o batch (mkState (visited st) (captured st) rest)) as [tasks st'].
  apply drain_stateless.
Qed.

Lemma loop_stateless (fuel : nat) (scheds : list (list nat)) (st : State) :
  Stateful.loop options resolvedConfig site fuel scheds (lift st)
  = loop o resolvedConfig site fuel scheds st.
Proof.
  revert scheds st. induction fuel as [|fuel IH]; intros scheds st; [reflexivity|].
  cbn [Stateful.loop loop Stateful.collections].
  destruct (loopGuard o st); [|reflexivity].
  rewrite runBatch_stateless.
  destruct (runBatch o resolvedConfig site (hd [] scheds) st) as [st'|];
    [apply IH | reflexivity].
Qed.

(** With rules that keep no state the run is the run of the pipeline
    with every rule as a predicate. *)
Lemma closeBundle_stateless (localeCompare : string -> string -> Z)
      (fuel : nat) (scheds : list (list nat)) :
  Stateful.closeBundle options resolvedConfig site localeCompare fuel scheds
  = closeBundle o resolvedConfig site localeCompare fuel scheds.
Proof.
  unfold Stateful.closeBundle, closeBundle, Stateful.initialWorld.
  now rewrite loop_stateless.
Qed.

Lemma staticLoop_stateless (dist : string) (readFile : string -> option string)
      (process : string -> string -> option string)
      (rds : list RouteDef.t) (acc : list Captured.t) :
  Published.staticLoop options dist readFile process rds acc (Stateful.exclude options)
  = staticLoop o dist readFile process rds acc.
Proof.
  revert acc. induction rds as [|rd rds IH]; intros acc; [reflexivity|].
  cbn [Published.staticLoop staticLoop].
  rewrite (isExcluded_stateless _ _ rules_stateless).
  change (Options.exclude o) with (map Stateful.view (Stateful.exclude options)).
  destruct (isExcluded (map Stateful.view (Stateful.exclude options)) (RouteDef.path rd));
    [apply IH|].
  destruct (htmlContent dist readFile (RouteDef.path rd)) as [content|]; [|apply IH].
  destruct (negb (Str.truthy content)); [apply IH|].
  destruct (process (RouteDef.path rd) content); [apply IH | reflexivity].
Qed.

(** The published build with such rules: the static loop, or the run
    with the browser. *)
Lemma published_stateless (static : option bool) (localeCompare : string -> string -> Z)
      (dist : string) (readFile : string -> option string)
      (process : string -> string -> option string)
      (fuel : nat) (scheds : list (list nat)) :
  Published.closeBundle static options resolvedConfig site localeCompare
                        dist readFile process fuel scheds
  = if shouldUseStaticMode static o
    then closeBundleStatic o resolvedConfig localeCompare dist readFile process
    else closeBundle o resolvedConfig site localeCompare fuel scheds.
Proof.
  unfold Published.closeBundle, Published.useStaticMode, closeBundleStatic, closeBundle,
    Stateful.initialWorld.
  change (Options.enabled o) with (Stateful.enabled options).
  destruct (negb (Stateful.enabled options)); [now destruct (shouldUseStaticMode static o)|].
  destruct (shouldUseStaticMode static o).
  - now rewrite staticLoop_stateless.
  - now rewrite loop_stateless.
Qed.

End Stateless.

(** Without a [static] setting that is [true], and in [src/index.js],
    the run is the one with the browser. *)
Lemma published_browser (static : option bool) (options : Stateful.Options)
      (resolvedConfig : ResolvedConfig.t) (site : Site)
      (localeCompare : string -> string -> Z)
      (dist : string) (readFile : string -> option string)
      (process : string -> string -> option string)
      (fuel : nat) (scheds : list (list nat)) :
  shouldUseStaticMode static (Stateful.plain options) = false ->
  Published.closeBundle static options resolvedConfig site localeCompare
                        dist readFile process fuel scheds
  = Stateful.closeBundle options resolvedConfig site localeCompare fuel scheds.
Proof.
  intros H. unfold Published.closeBundle, Published.useStaticMode, Stateful.closeBundle.
  now rewrite H.
Qed.

(* ================================================================== *)
(** * The properties of the specification *)

(** Closes [lhs = rhs], where [rhs] may hold a term yet to be chosen, by
    evaluating the closed term [lhs]. *)
Ltac evaluate :=
  lazymatch goal with
  | |- ?lhs = _ =>
      let v := eval vm_compute in lhs in
      exact (eq_refl v <: lhs = v)
  end.

Example normalizeRoute_about : normalizeRoute "./about#team" true = Some "/about".
Proof. reflexivity. Qed.

Example mdRelPath_docs : mdRelPath "subdir" "ai" "/docs/" = "ai/docs/index.html.md".
Proof. reflexivity. Qed.

(** ** The page cap *)

(** C1 fails on the code: the guard [captured.length >= maxPages] of
    [captureOne] is evaluated for every member of a batch before any of
    them has pushed its page.  With [maxPages] 2 and the default
    [concurrency] 3, the root page and its three links are all captured,
    whatever the order in which the captures complete. *)
Theorem maxPages_overshoot :
  let options :=
    Options.mk true None (Crawl.mk true (Some ["/"]) 2 2 3 true) []
               (Output.mk "sibling" "ai" None "Index." true) in
  let site : Site := fun r =>
    if String.eqb r "/" then Rendered "Home" ["/a"; "/b"; "/c"] else Rendered "" [] in
  let run := fun scheds =>
    loop options (ResolvedConfig.mk "/" None) site 3 scheds (initialState options) in
  maxPages options = 2%Z
  /\ (exists final, run [] = LoopDone final
                    /\ map Captured.route (captured final) = ["/"; "/a"; "/b"; "/c"])
  /\ (exists final, run [[]; [2; 1; 0]] = LoopDone final
                    /\ map Captured.route (captured final) = ["/"; "/c"; "/b"; "/a"]).
Proof.
  intros options site run. split; [reflexivity|]. split.
  - eexists. split; [evaluate | reflexivity].
  - eexists. split; [evaluate | reflexivity].
Qed.

(** ** Exclusion *)

(** The exclusion predicate in words: some rule is a pattern that
    matches the route, or a literal that occurs in it. *)
Lemma isExcluded_iff (exclude : list ExclusionRule) (route : string) :
  isExcluded exclude route = true <->
  exists rule,
    In rule exclude
    /\ match rule with
       | Pattern test => test route = true
       | Literal lit => exists before after, route = before ^^ lit ^^ after
       end.
Proof.
  unfold isExcluded. rewrite existsb_exists. split.
  - intros (rule & Hin & Hm). exists rule. split; [exact Hin|].
    destruct rule as [lit|test]; simpl in Hm; [now apply includes_iff | exact Hm].
  - intros (rule & Hin & Hm). exists rule. split; [exact Hin|].
    destruct rule as [lit|test]; simpl; [now apply includes_iff | exact Hm].
Qed.

(** C2 fails on the code: a pattern with the [g] flag keeps [lastIndex]
    between two calls of [test], and [isExcluded] calls [test] on the
    one object for every route.  With [exclude: [/\/admin/g]] and the
    declared routes [/admin/users] and [/admin], the test of the first
    route leaves [lastIndex] at 6; the test of [/admin] starts there,
    fails and resets it.  So [/admin], which the pattern matches, is
    captured: by [src/index.js], and by the static loop of the published
    build. *)
Theorem excluded_route_captured_after_global_match :
  let admin := RegExp.ofText true false "/admin" in
  let options :=
    Stateful.mkOptions true
      (Some [RouteDef.mk "/admin/users" None None None None;
             RouteDef.mk "/admin" None None None None])
      (Crawl.mk false None 2 50 3 true)
      [Stateful.Regex admin 0]
      (Output.mk "sibling" "ai" None "Index." true) in
  let rc := ResolvedConfig.mk "/" None in
  let site : Site := fun r => Rendered r [] in
  let page := Captured.mk "/admin" "/admin" "Pages" false None "admin.md" in
  let llms :=
    "# Site" ^^ Str.nl ^^ Str.nl ^^ "> Index." ^^ Str.nl ^^ Str.nl
    ^^ "## Pages" ^^ Str.nl ^^ Str.nl
    ^^ "- [/admin](admin.md)" ^^ Str.nl ^^ Str.nl in
  RegExp.test admin 0 "/admin" = (true, 6)
  /\ RegExp.test admin 0 "/admin/users" = (true, 6)
  /\ RegExp.test admin 6 "/admin" = (false, 0)
  /\ isExcluded (Options.exclude (Stateful.plain options)) "/admin" = true
  /\ Stateful.closeBundle options rc site byteCompare 2 [] = Written llms [page]
  /\ Published.closeBundle None options rc site byteCompare
                           "dist" (fun _ => Some "<title>t</title>")
                           (fun route _ => Some route) 2 []
     = Written llms [page].
Proof. vm_compute. repeat split; reflexivity. Qed.

(** Where the property holds.  With rules that keep no state (strings,
    and patterns with neither the [g] nor the [y] flag), a route that
    the exclusion predicate holds of (some rule is a pattern matching
    it, or a literal occurring anywhere in it) is never captured.
    [captureOne] returns at its guard for it, link harvesting does not
    enqueue it, and no run, in explicit or in crawl mode and under any
    schedule, ends with a captured page of that route. *)
Theorem excluded_route_never_captured
        (options : Options.t) (resolvedConfig : ResolvedConfig.t) (site : Site)
        (localeCompare : string -> string -> Z)
        (fuel : nat) (scheds : list (list nat))
        (llms : string) (pages : list Captured.t) (r : string) :
  (exists rule,
      In rule (Options.exclude options)
      /\ match rule with
         | Pattern test => test r = true
         | Literal lit => exists before after, r = before ^^ lit ^^ after
         end) ->
  closeBundle options resolvedConfig site localeCompare fuel scheds = Written llms pages ->
  (forall st, captureOne_enter options r st = None)
  /\ (forall visited hrefs depth,
         ~ In (Entry.mk r depth) (harvest options resolvedConfig visited hrefs))
  /\ ~ In r (map Captured.route pages).
Proof.
  intros Hex Hrun. apply isExcluded_iff in Hex. split; [|split].
  - intros st. unfold captureOne_enter. rewrite Hex.
    now destruct (has (visited st) r).
  - intros visited hrefs depth. induction hrefs as [|href hrefs IH]; simpl; [tauto|].
    destruct (normalizeRoute href _) as [n|]; [|exact IH].
    destruct (negb (has visited (baseRelative resolvedConfig n))
              && negb (isExcluded (Options.exclude options)
                                  (baseRelative resolvedConfig n))) eqn:E;
      [|exact IH].
    intros [Heq|Hin]; [|now apply IH].
    injection Heq as Hb _. rewrite Hb, Hex in E.
    now rewrite andb_false_r in E.
  - unfold closeBundle in Hrun.
    destruct (negb (Options.enabled options)); [discriminate|].
    destruct (loop options resolvedConfig site fuel scheds (initialState options))
      as [st| |] eqn:Hloop; try discriminate.
    injection Hrun as _ <-.
    apply Inv_loop in Hloop; [|apply Inv_initial].
    destruct Hloop as (_ & _ & _ & Hall). simpl in Hall.
    rewrite Forall_forall in Hall. intros Hin.
    specialize (Hall r Hin). congruence.
Qed.

Lemma excluded_route_never_captured_witness :
  let options :=
    Options.mk true None
               (Crawl.mk true (Some ["/"; "/admin"]) 2 50 3 true)
               [Literal "/admin"; Pattern (fun r => Str.endsWith r ".pdf")]
               (Output.mk "sibling" "ai" None "Index." true) in
  let site : Site := fun r =>
    if String.eqb r "/" then Rendered "Home" ["/site/admin-panel"; "/docs"; "/a.pdf"]
    else Rendered "" ["/admin/users"] in
  closeBundle options (ResolvedConfig.mk "/" None) site byteCompare 5 []
  = Written
      ("# Site" ^^ Str.nl ^^ Str.nl ^^ "> Index." ^^ Str.nl ^^ Str.nl
       ^^ "## Pages" ^^ Str.nl ^^ Str.nl
       ^^ "- [Home](index.html.md)" ^^ Str.nl
       ^^ "- [/docs](docs.md)" ^^ Str.nl ^^ Str.nl)
      [Captured.mk "/" "Home" "Pages" false None "index.html.md";
       Captured.mk "/docs" "/docs" "Pages" false None "docs.md"]
  /\ ~ In "/site/admin-panel"
       (map Captured.route
            [Captured.mk "/" "Home" "Pages" false None "index.html.md";
             Captured.mk "/docs" "/docs" "Pages" false None "docs.md"]).
Proof.
  intros options site.
  assert (Hrun : closeBundle options (ResolvedConfig.mk "/" None) site byteCompare 5 []
                 = Written
                     ("# Site" ^^ Str.nl ^^ Str.nl ^^ "> Index." ^^ Str.nl ^^ Str.nl
                      ^^ "## Pages" ^^ Str.nl ^^ Str.nl
                      ^^ "- [Home](index.html.md)" ^^ Str.nl
                      ^^ "- [/docs](docs.md)" ^^ Str.nl ^^ Str.nl)
                     [Captured.mk "/" "Home" "Pages" false None "index.html.md";
                      Captured.mk "/docs" "/docs" "Pages" false None "docs.md"])
    by (vm_compute; reflexivity).
  split; [exact Hrun|].
  refine (proj2 (proj2 (excluded_route_never_captured
                          options (ResolvedConfig.mk "/" None) site byteCompare 5 [] _ _
                          "/site/admin-panel" _ Hrun))).
  exists (Literal "/admin"). split; [now left|].
  exists "/site", "-panel". reflexivity.
Defined.

(** The same for the rules as objects, when none of them keeps state. *)
Corollary stateless_rules_exclude
          (options : Stateful.Options) (resolvedConfig : ResolvedConfig.t) (site : Site)
          (localeCompare : string -> string -> Z)
          (fuel : nat) (scheds : list (list nat))
          (llms : string) (pages : list Captured.t) (r : string) :
  Forall Stateful.stateless (Stateful.exclude options) ->
  isExcluded (map Stateful.view (Stateful.exclude options)) r = true ->
  Stateful.closeBundle options resolvedConfig site localeCompare fuel scheds
  = Written llms pages ->
  ~ In r (map Captured.route pages).
Proof.
  intros Hs Hex Hrun. rewrite (closeBundle_stateless _ _ _ Hs) in Hrun.
  refine (proj2 (proj2 (excluded_route_never_captured
                          (Stateful.plain options) resolvedConfig site localeCompare
                          fuel scheds llms pages r _ Hrun))).
  now apply isExcluded_iff.
Qed.

(** ** Failure containment *)

(** C3 fails on the code: the static loop of the published build, which
    is the default with crawl mode off, guards [fs.readFile] only.  A
    failure of a later step ([cheerio], [turndown], [fs.mkdir],
    [fs.writeFile]) for one declared route leaves the loop and
    [closeBundle]: the run rejects and no index is written, whatever
    the other routes are.  The same three routes rendered with the
    browser ([static: false]) give the index of the two that succeed. *)
Theorem failure_escapes_static_loop :
  let options :=
    Stateful.mkOptions true
      (Some [RouteDef.mk "/a" None None None None;
             RouteDef.mk "/b" None None None None;
             RouteDef.mk "/c" None None None None])
      (Crawl.mk false None 2 50 3 true) []
      (Output.mk "sibling" "ai" None "Index." true) in
  let rc := ResolvedConfig.mk "/" None in
  let site : Site := fun r =>
    if String.eqb r "/b" then Fails WriteFile else Rendered r [] in
  let readFile : string -> option string := fun _ => Some "<title>t</title>" in
  let process : string -> string -> option string := fun route _ =>
    if String.eqb route "/b" then None else Some route in
  shouldUseStaticMode None (Stateful.plain options) = true
  /\ (forall fuel scheds,
         Published.closeBundle None options rc site byteCompare "dist" readFile process
                               fuel scheds = Rejected)
  /\ Published.closeBundle (Some false) options rc site byteCompare "dist" readFile process
                           2 []
     = Written
         ("# Site" ^^ Str.nl ^^ Str.nl ^^ "> Index." ^^ Str.nl ^^ Str.nl
          ^^ "## Pages" ^^ Str.nl ^^ Str.nl
          ^^ "- [/a](a.md)" ^^ Str.nl
          ^^ "- [/c](c.md)" ^^ Str.nl ^^ Str.nl)
         [Captured.mk "/a" "/a" "Pages" false None "a.md";
          Captured.mk "/c" "/c" "Pages" false None "c.md"].
Proof.
  intros options rc site readFile process.
  split; [reflexivity|]. split; [intros fuel scheds|]; vm_compute; reflexivity.
Qed.

(** Where the property holds: in [src/index.js], and in the published
    build when it renders with the browser.  A capture that fails at a
    step inside the [try] block of
    [captureOne] (a hook, navigation, the selector wait, reading the
    content, extraction, conversion, writing the file) is caught there:
    it pushes no page and enqueues no link.  When the failures of a site
    are of that kind, no run rejects: every run ends and writes the index
    of the captured pages, each of which belongs to a route that
    rendered; and in explicit mode every declared route that is not
    excluded and renders has its page in the index. *)
Theorem capture_failure_is_contained
        (options : Options.t) (resolvedConfig : ResolvedConfig.t) (site : Site)
        (localeCompare : string -> string -> Z) (scheds : list (list nat)) :
  Options.enabled options = true ->
  (1 <= concurrency options)%Z ->
  (forall r, site r <> Escapes) ->
  (forall route step st,
      site route = Fails step ->
      captureOne_body options resolvedConfig site route st = Some st)
  /\ (forall fuel, closeBundle options resolvedConfig site localeCompare fuel scheds
                   <> Rejected)
  /\ (exists fuel pages,
         closeBundle options resolvedConfig site localeCompare fuel scheds
         = Written (renderLlms options resolvedConfig localeCompare pages) pages
         /\ Forall (fun p => exists titleText hrefs,
                        site (Captured.route p) = Rendered titleText hrefs) pages)
  /\ (Crawl.enabled (Options.crawl options) = false ->
      forall fuel llms pages e titleText hrefs,
        closeBundle options resolvedConfig site localeCompare fuel scheds
        = Written llms pages ->
        In e (seedQueue options) ->
        isExcluded (Options.exclude options) (Entry.route e) = false ->
        site (Entry.route e) = Rendered titleText hrefs ->
        In (capturedRecord options (Entry.route e) titleText) pages).
Proof.
  intros Hen Hconc Hsite. split; [|split; [|split]].
  - intros route step st Hf. unfold captureOne_body. now rewrite Hf.
  - intros fuel. unfold closeBundle. rewrite Hen. simpl.
    generalize (initialState options) as st. revert scheds.
    induction fuel as [|fuel IH]; intros scheds st; simpl; [discriminate|].
    destruct (loopGuard options st); [|discriminate].
    destruct (runBatch_total options resolvedConfig site Hsite (hd [] scheds) st)
      as [st1 ->].
    apply IH.
  - destruct (loop_terminates options resolvedConfig site Hsite Hconc scheds
                              (initialState options)) as (fuel & st & Hl).
    exists fuel, (captured st). split.
    + unfold closeBundle. now rewrite Hen, Hl.
    + eapply captured_pages_rendered; eauto.
  - intros Hexp fuel llms pages e titleText hrefs Hrun He Hx Hs.
    unfold closeBundle in Hrun. rewrite Hen in Hrun. simpl in Hrun.
    destruct (loop options resolvedConfig site fuel scheds (initialState options))
      as [st| |] eqn:Hl; try discriminate.
    injection Hrun as _ <-.
    eapply explicit_run_complete; eauto.
Qed.

Lemma capture_failure_is_contained_witness :
  let options :=
    Options.mk true
               (Some [RouteDef.mk "/a" None None None None;
                      RouteDef.mk "/b" None None None None;
                      RouteDef.mk "/c" None None None None])
               (Crawl.mk false (Some ["/"]) 2 50 3 true) []
               (Output.mk "sibling" "ai" None "Index." true) in
  let site : Site := fun r =>
    if String.eqb r "/b" then Fails Goto else Rendered r [] in
  exists fuel pages,
    closeBundle options (ResolvedConfig.mk "/" None) site byteCompare fuel [[2; 0; 1]]
    = Written (renderLlms options (ResolvedConfig.mk "/" None) byteCompare pages) pages
    /\ Forall (fun p => exists titleText hrefs,
                   site (Captured.route p) = Rendered titleText hrefs) pages.
Proof.
  intros options site.
  refine (proj1 (proj2 (proj2 (capture_failure_is_contained
                                 options (ResolvedConfig.mk "/" None) site byteCompare
                                 [[2; 0; 1]] eq_refl _ _)))).
  - vm_compute. discriminate.
  - intros r. unfold site. destruct (String.eqb r "/b"); discriminate.
Defined.

(** Three declared routes, the second of which fails to load: the run
    ends and the index lists the two others. *)
Example partial_failure_resilience :
  let options :=
    Options.mk true
               (Some [RouteDef.mk "/a" None None None None;
                      RouteDef.mk "/b" None None None None;
                      RouteDef.mk "/c" None None None None])
               (Crawl.mk false (Some ["/"]) 2 50 3 true) []
               (Output.mk "sibling" "ai" None "Index." true) in
  let site : Site := fun r =>
    if String.eqb r "/b" then Fails Goto else Rendered r [] in
  closeBundle options (ResolvedConfig.mk "/" None) site byteCompare 2 [[2; 0; 1]]
  = Written
      ("# Site" ^^ Str.nl ^^ Str.nl ^^ "> Index." ^^ Str.nl ^^ Str.nl
       ^^ "## Pages" ^^ Str.nl ^^ Str.nl
       ^^ "- [/a](a.md)" ^^ Str.nl
       ^^ "- [/c](c.md)" ^^ Str.nl ^^ Str.nl)
      [Captured.mk "/c" "/c" "Pages" false None "c.md";
       Captured.mk "/a" "/a" "Pages" false None "a.md"].
Proof. vm_compute. reflexivity. Qed.

(** ** Duplicates *)

(** C4 fails on the code: the static loop of the published build, which
    is the default with crawl mode off, keeps no [visited] set.  A route
    that is declared twice is read and pushed twice, so the captured
    pages hold it twice; rendered with the browser ([static: false]) the
    same declarations give one page. *)
Theorem route_captured_twice_by_static_loop :
  let options :=
    Stateful.mkOptions true
      (Some [RouteDef.mk "/a" (Some "First") None None None;
             RouteDef.mk "/a" (Some "Second") None None None])
      (Crawl.mk false None 2 50 3 true) []
      (Output.mk "sibling" "ai" None "Index." true) in
  let rc := ResolvedConfig.mk "/" None in
  let site : Site := fun r => Rendered r [] in
  let readFile : string -> option string := fun _ => Some "<title>t</title>" in
  let process : string -> string -> option string := fun route _ => Some route in
  let first := Captured.mk "/a" "First" "Pages" false None "a.md" in
  let second := Captured.mk "/a" "Second" "Pages" false None "a.md" in
  shouldUseStaticMode None (Stateful.plain options) = true
  /\ (forall fuel scheds,
         Published.closeBundle None options rc site byteCompare "dist" readFile process
                               fuel scheds
         = Written
             ("# Site" ^^ Str.nl ^^ Str.nl ^^ "> Index." ^^ Str.nl ^^ Str.nl
              ^^ "## Pages" ^^ Str.nl ^^ Str.nl
              ^^ "- [First](a.md)" ^^ Str.nl
              ^^ "- [Second](a.md)" ^^ Str.nl ^^ Str.nl)
             [first; second])
  /\ ~ NoDup (map Captured.route [first; second])
  /\ Published.closeBundle (Some false) options rc site byteCompare "dist" readFile process
                           2 []
     = Written
         ("# Site" ^^ Str.nl ^^ Str.nl ^^ "> Index." ^^ Str.nl ^^ Str.nl
          ^^ "## Pages" ^^ Str.nl ^^ Str.nl
          ^^ "- [First](a.md)" ^^ Str.nl ^^ Str.nl)
         [first].
Proof.
  intros options rc site readFile process first second.
  split; [reflexivity|]. split; [intros fuel scheds; vm_compute; reflexivity|].
  split; [|vm_compute; reflexivity].
  intros Hn. inversion Hn as [|? ? Hnot _]. apply Hnot. now left.
Qed.

(** Where the property holds: in the loop of [src/index.js], which the
    published build runs when it renders with the browser, no route
    appears twice among the captured pages.  A route is
    added to [visited] by [captureOne] only, after the guard that it is
    not there yet and before the page is opened; a route that is there
    makes [captureOne] return at once.  So no run adds a route twice, and
    every captured route was added. *)
Theorem no_route_captured_twice
        (options : Options.t) (resolvedConfig : ResolvedConfig.t) (site : Site)
        (fuel : nat) (scheds : list (list nat)) (final : State) :
  loop options resolvedConfig site fuel scheds (initialState options) = LoopDone final ->
  NoDup (map Captured.route (captured final))
  /\ NoDup (visited final)
  /\ incl (map Captured.route (captured final)) (visited final)
  /\ (forall route st st',
         captureOne_enter options route st = Some st' ->
         ~ In route (visited st) /\ visited st' = route :: visited st)
  /\ (forall route st, In route (visited st) -> captureOne_enter options route st = None).
Proof.
  intros Hloop. apply Inv_loop in Hloop; [|apply Inv_initial].
  destruct Hloop as (Hv & Hn & Hi & _). simpl in Hn, Hi.
  repeat split; try assumption.
  - now apply captureOne_enter_some in H.
  - apply captureOne_enter_some in H as (_ & _ & _ & ->). reflexivity.
  - intros route st Hin. unfold captureOne_enter.
    apply has_true_iff in Hin. now rewrite Hin.
Qed.

Lemma no_route_captured_twice_witness :
  let options :=
    Options.mk true
               (Some [RouteDef.mk "/a" None None None None;
                      RouteDef.mk "/a" None None None None;
                      RouteDef.mk "a#x" None None None None;
                      RouteDef.mk "/b" None None None None])
               (Crawl.mk false (Some ["/"]) 2 50 3 true) []
               (Output.mk "sibling" "ai" None "Index." true) in
  let final :=
    mkState ["/b"; "/a"]
            [Captured.mk "/a" "B" "Pages" false None "a.md";
             Captured.mk "/b" "B" "Pages" false None "b.md"] [] in
  loop options (ResolvedConfig.mk "/" None) (fun _ => Rendered "B" []) 3 [[1; 0]]
       (initialState options) = LoopDone final
  /\ NoDup (map Captured.route (captured final)).
Proof.
  intros options final.
  assert (Hrun : loop options (ResolvedConfig.mk "/" None) (fun _ => Rendered "B" []) 3
                      [[1; 0]] (initialState options) = LoopDone final)
    by (vm_compute; reflexivity).
  split; [exact Hrun|].
  exact (proj1 (no_route_captured_twice options _ _ _ _ _ Hrun)).
Defined.

(** ** Idempotence of normalisation *)

(** C5 fails on the code: [trim] runs before the fragment is cut off, so
    white space in front of ["#"] survives the first pass and is trimmed
    by the second. *)
Theorem normalizeRoute_not_idempotent :
  normalizeRoute "/a #b" true = Some "/a "
  /\ normalizeRoute "/a " true = Some "/a"
  /\ normalizeRoute "/a #b" false = Some "/a "
  /\ normalizeRoute "/a " false = Some "/a".
Proof. repeat split. Qed.

(** ** Output paths *)

(** C6 fails on the code: under the subdir layout the path is joined by
    [path.posix.join], which resolves [".."], and [normalizeRoute] keeps
    the [".."] of a link like ["../x"].  The document of the route
    ["/../x"] is not put under the subdirectory ["ai"]. *)
Theorem mdRelPath_subdir_not_prefixed :
  normalizeRoute "../x" true = Some "/../x"
  /\ routeToMdWebPath "/../x" = "../x.md"
  /\ mdRelPath "subdir" "ai" "/../x" = "x.md"
  /\ mdRelPath "subdir" "ai" "/../x" <> "ai" ^^ "/" ^^ routeToMdWebPath "/../x"
  /\ Str.startsWith (mdRelPath "subdir" "ai" "/../x") "ai" = false.
Proof. repeat split; [discriminate]. Qed.

(** Where the mapping is as the specification has it: route ["/"] maps
    to ["index.html.md"], another route ending in ["/"] to the route
    minus its first character plus ["index.html.md"], any other route to
    the route minus its first character plus [".md"]; under the subdir
    layout, when the subdirectory is a plain name and the path has no
    empty, ["."] or [".."] segment, the result is the name, a slash, and
    that path. *)
Lemma mdRelPath_mapping (mode subdir route : string) :
  routeToMdWebPath "/" = "index.html.md"
  /\ (route <> "/" -> Str.endsWith route "/" = true ->
      routeToMdWebPath route = Str.sliceFrom route 1 ^^ "index.html.md")
  /\ (Str.endsWith route "/" = false ->
      routeToMdWebPath route = Str.sliceFrom route 1 ^^ ".md")
  /\ (mode <> "subdir" -> mdRelPath mode subdir route = routeToMdWebPath route)
  /\ mdRelPath "subdir" subdir route = PosixPath.join subdir (routeToMdWebPath route)
  /\ (plainName subdir = true -> plainPath (routeToMdWebPath route) = true ->
      mdRelPath "subdir" subdir route = subdir ^^ "/" ^^ routeToMdWebPath route)
  /\ map (mdRelPath "subdir" "ai") ["/"; "/pricing"; "/docs/"; "/docs/api"]
     = ["ai/index.html.md"; "ai/pricing.md"; "ai/docs/index.html.md"; "ai/docs/api.md"].
Proof.
  repeat split.
  - intros Hne He. unfold routeToMdWebPath.
    apply String.eqb_neq in Hne. now rewrite Hne, He.
  - intros He. unfold routeToMdWebPath.
    destruct (String.eqb route "/") eqn:E.
    + apply String.eqb_eq in E. subst. discriminate.
    + now rewrite He.
  - intros Hm. unfold mdRelPath. apply String.eqb_neq in Hm. now rewrite Hm.
  - intros Hn Hp. unfold mdRelPath. simpl String.eqb. cbv iota.
    now apply join_plain.
Qed.

Example mdRelPath_mapping_docs :
  "/docs/api" <> "/" /\ "sibling" <> "subdir"
  /\ mdRelPath "subdir" "ai" "/docs/api" = "ai" ^^ "/" ^^ routeToMdWebPath "/docs/api"
  /\ routeToMdWebPath "/docs/" = Str.sliceFrom "/docs/" 1 ^^ "index.html.md".
Proof.
  pose proof (mdRelPath_mapping "sibling" "ai" "/docs/api") as (_ & _ & _ & _ & _ & H & _).
  pose proof (mdRelPath_mapping "sibling" "ai" "/docs/") as (_ & H2 & _).
  split; [discriminate|]. split; [discriminate|]. split.
  - apply H; reflexivity.
  - apply H2; [discriminate | reflexivity].
Defined.

(** ** Depths of harvested links *)

(** C7 fails on the code: the loop that patches placeholder depths runs
    after [await captureOne(route)] and rewrites every placeholder in the
    queue.  In a batch holding ["/s3"] at depth 0 and ["/a"] at depth 1,
    the link ["/b"] harvested from ["/a"] is patched by the callback of
    ["/s3"] when that one is resumed first: it gets depth 1, not 2, and
    with [maxDepth] 1 the page two links away from the seed is captured. *)
Theorem harvested_depth_from_sibling :
  let options :=
    Options.mk true None (Crawl.mk true (Some ["/"; "/s2"; "/s3"]) 1 50 2 true) []
               (Output.mk "sibling" "ai" None "Index." true) in
  let rc := ResolvedConfig.mk "/" None in
  let site : Site := fun r =>
    if String.eqb r "/" then Rendered "" ["/a"]
    else if String.eqb r "/a" then Rendered "" ["/b"]
    else Rendered "" [] in
  exists st1 st2 st2',
    runBatch options rc site [] (initialState options) = Some st1
    /\ queue st1 = [Entry.mk "/s3" 0; Entry.mk "/a" 1]
    /\ dispatch options (fst (takeBatch options (queue st1)))
                (mkState (visited st1) (captured st1) [])
       = ([InFlight "/s3" 0; InFlight "/a" 1],
          mkState ("/a" :: "/s3" :: visited st1) (captured st1) [])
    /\ runBatch options rc site [0; 1; 0; 0] st1 = Some st2
    /\ queue st2 = [Entry.mk "/b" 1]
    /\ runBatch options rc site [] st1 = Some st2'
    /\ queue st2' = [Entry.mk "/b" 2]
    /\ (exists final,
           loop options rc site 4 [[]; [0; 1; 0; 0]] (initialState options) = LoopDone final
           /\ In "/b" (map Captured.route (captured final)))
    /\ (exists final,
           loop options rc site 4 [] (initialState options) = LoopDone final
           /\ ~ In "/b" (map Captured.route (captured final))).
Proof.
  intros options rc site.
  do 3 eexists.
  split; [evaluate|]. split; [reflexivity|]. split; [evaluate|].
  split; [evaluate|]. split; [reflexivity|]. split; [evaluate|].
  split; [reflexivity|]. split.
  - eexists. split; [evaluate|]. simpl. tauto.
  - eexists. split; [evaluate|]. simpl. intuition discriminate.
Qed.

(** ** The index under concurrency *)

(** C8 as stated fails: with [sort] on, a crawl with [concurrency] 1 and
    the same crawl with [concurrency] 4 can capture different pages, so
    their index documents differ.  Here neither run exceeds [maxPages];
    the order in which two captures of the first batch complete decides
    the order of the queue, and the cap cuts it at a different place. *)
Lemma index_depends_on_concurrency :
  let options := fun c =>
    Options.mk true None (Crawl.mk true (Some ["/x"; "/y"]) 2 6 c true) []
               (Output.mk "sibling" "ai" None "Index." true) in
  let rc := ResolvedConfig.mk "/" None in
  let site : Site := fun r =>
    if String.eqb r "/x" then Rendered "" ["/a1"]
    else if String.eqb r "/y" then Rendered "" ["/b1"; "/b2"; "/b3"; "/b4"]
    else Rendered "" [] in
  exists llms1 pages1 llms4 pages4,
    closeBundle (options 1%Z) rc site byteCompare 7 [] = Written llms1 pages1
    /\ closeBundle (options 4%Z) rc site byteCompare 3 [[1]] = Written llms4 pages4
    /\ length pages1 = 6 /\ length pages4 = 6
    /\ In "/a1" (map Captured.route pages1)
    /\ ~ In "/a1" (map Captured.route pages4)
    /\ llms1 <> llms4.
Proof.
  intros options rc site. do 4 eexists.
  split; [evaluate|]. split; [evaluate|].
  split; [reflexivity|]. split; [reflexivity|].
  split; [simpl; tauto|]. split; [simpl; intuition discriminate|].
  vm_compute. discriminate.
Qed.

(** The sort does not fix the order of two routes that tie under the
    comparison: [Array.prototype.sort] is stable, so they stay in the
    order in which their captures completed.  Here the comparison is by
    length, and two runs over the same two declared routes that differ
    in the order of completion write different index documents over the
    same pages. *)
Example index_depends_on_ties :
  let options :=
    Options.mk true
               (Some [RouteDef.mk "/ab" None None None None;
                      RouteDef.mk "/cd" None None None None])
               (Crawl.mk false None 2 50 3 true) []
               (Output.mk "sibling" "ai" None "Index." true) in
  let rc := ResolvedConfig.mk "/" None in
  let site : Site := fun r => Rendered r [] in
  let byLength := fun a b => (Z.of_nat (String.length a) - Z.of_nat (String.length b))%Z in
  exists llms1 pages1 llms2 pages2,
    closeBundle options rc site byLength 2 [] = Written llms1 pages1
    /\ closeBundle options rc site byLength 2 [[1; 0]] = Written llms2 pages2
    /\ Permutation pages1 pages2
    /\ llms1 <> llms2.
Proof.
  intros options rc site byLength. do 4 eexists.
  split; [evaluate|]. split; [evaluate|].
  split; [apply perm_swap|].
  vm_compute. discriminate.
Qed.

(** C8 (amended): with [sort] on, and a comparison under which no two
    different captured routes tie, two runs that differ in
    [crawl.concurrency] and in the order in which captures complete, and
    that capture the same pages, write the same index document.  With
    crawl mode off the concurrency setting is not read; two runs then
    differ in the order of completion only and capture the same pages:
    when no two different declared routes tie, they reject both, or
    write the same text over the same pages, and they end within one
    turn of the loop per declared route. *)
Theorem index_independent_of_scheduling
        (options : Options.t) (resolvedConfig : ResolvedConfig.t) (site : Site)
        (localeCompare : string -> string -> Z)
        (c1 c2 : Z) (scheds1 scheds2 : list (list nat)) :
  Output.sort (Options.output options) = true ->
  (forall a b, (localeCompare a b <= 0 \/ localeCompare b a <= 0)%Z) ->
  (forall a b c,
      (localeCompare a b <= 0 -> localeCompare b c <= 0 -> localeCompare a c <= 0)%Z) ->
  (forall fuel1 fuel2 llms1 pages1 llms2 pages2,
      closeBundle (withConcurrency c1 options) resolvedConfig site localeCompare
                  fuel1 scheds1 = Written llms1 pages1 ->
      closeBundle (withConcurrency c2 options) resolvedConfig site localeCompare
                  fuel2 scheds2 = Written llms2 pages2 ->
      Permutation pages1 pages2 ->
      noTies localeCompare (map Captured.route pages1) ->
      llms1 = llms2)
  /\ (Crawl.enabled (Options.crawl options) = false ->
      noTies localeCompare (map Entry.route (seedQueue options)) ->
      forall fuel,
        (length (seedQueue options) < fuel)%nat ->
        sameIndex
          (closeBundle (withConcurrency c1 options) resolvedConfig site localeCompare
                       fuel scheds1)
          (closeBundle (withConcurrency c2 options) resolvedConfig site localeCompare
                       fuel scheds2)
        /\ closeBundle (withConcurrency c1 options) resolvedConfig site localeCompare
                       fuel scheds1 <> OutOfFuel).
Proof.
  intros Hsort Htot Htr.
  set (o1 := withConcurrency c1 options). set (o2 := withConcurrency c2 options).
  split.
  - intros fuel1 fuel2 llms1 pages1 llms2 pages2 H1 H2 HP Hties.
    apply closeBundle_written in H1 as [-> Hn], H2 as [-> _].
    now apply renderLlms_same_pages.
  - intros Hexp Hties fuel Hfuel.
    assert (Hq : seedQueue o1 = seedQueue options).
    { apply seedQueue_agree; auto. }
    assert (Hinit : sameProgress (initialState o1) (initialState o2)).
    { unfold initialState, sameProgress. cbn [visited queue captured].
      split; [reflexivity|]. split; [|constructor].
      apply (seedQueue_agree o1 o2); auto. }
    pose proof (loop_agree o1 o2 resolvedConfig site Hexp Hexp eq_refl eq_refl eq_refl
                           fuel scheds1 scheds2 _ _ Hinit) as Hl.
    pose proof (loop_explicit_fuel o1 resolvedConfig site Hexp fuel scheds1
                                   (initialState o1)) as Hnf.
    unfold closeBundle.
    change (Options.enabled o2) with (Options.enabled o1).
    destruct (negb (Options.enabled o1)); [split; [exact I | discriminate]|].
    destruct (loop o1 resolvedConfig site fuel scheds1 (initialState o1))
      as [st1| |] eqn:E1;
      destruct (loop o2 resolvedConfig site fuel scheds2 (initialState o2))
        as [st2| |] eqn:E2;
      try contradiction.
    + split; [|discriminate]. destruct Hl as (_ & _ & HP). split; [|exact HP].
      apply renderLlms_same_pages; auto.
      * pose proof (routesSatisfy_loop
                      o1 resolvedConfig site
                      (fun r => In r (map Entry.route (seedQueue o1)))) as Hr.
        destruct (Hr (fun e He => in_map Entry.route _ e He)
                     (fun parent _ _ _ _ Hc _ _ _ _ =>
                        False_ind _ (Bool.diff_false_true
                                       (eq_trans (eq_sym Hexp) Hc)))
                     fuel scheds1 st1 E1) as (_ & _ & Hc).
        intros a b Ha Hb. apply Hties; rewrite <- Hq.
        -- rewrite Forall_forall in Hc. now apply Hc.
        -- rewrite Forall_forall in Hc. now apply Hc.
      * apply Inv_loop in E1; [|apply Inv_initial].
        destruct E1 as (_ & Hn & _). exact Hn.
    + split; [exact I | discriminate].
    + exfalso. apply Hnf; [|reflexivity]. simpl. rewrite Hq. exact Hfuel.
Qed.

Lemma index_independent_of_scheduling_witness :
  let options :=
    Options.mk true
               (Some [RouteDef.mk "/pricing" (Some "Pricing") (Some "Product") None None;
                      RouteDef.mk "/" (Some "Home") (Some "Product") None None;
                      RouteDef.mk "/docs/" None None (Some true) (Some "reference");
                      RouteDef.mk "/about" None None None None])
               (Crawl.mk false (Some ["/"]) 2 50 1 true) [Literal "/admin"]
               (Output.mk "sibling" "ai" None "Index." true) in
  let site : Site := fun r => Rendered r [] in
  sameIndex
    (closeBundle (withConcurrency 1 options) (ResolvedConfig.mk "/" None) site byteCompare
                 5 [])
    (closeBundle (withConcurrency 4 options) (ResolvedConfig.mk "/" None) site byteCompare
                 5 [[2; 1; 0]]).
Proof.
  intros options site.
  refine (proj1 (proj2 (index_independent_of_scheduling
                          options (ResolvedConfig.mk "/" None) site byteCompare 1 4
                          [] [[2; 1; 0]] eq_refl
                          byteCompare_total byteCompare_trans)
                       eq_refl _ 5 _)).
  - intros a b _ _. apply byteCompare_antisym.
  - vm_compute. lia.
Defined.

(** ** Option merging *)

(** C9: [deepMerge] replaces an array-valued option wholesale.  Whatever
    the defaults hold, an array that the user's options carry at some
    path ([exclude], [crawl.seeds], [extract.removeSelectors], ...) is
    found unchanged at that path of the merged options; so none of the
    default array's elements is kept unless the user's array has it. *)
Theorem deepMerge_replaces_arrays
        (target : Js.value) (fields : list (string * Js.value))
        (path : list string) (a : list Js.value) :
  Js.wellFormed (Js.VObj fields) = true ->
  path <> [] ->
  Js.getPath (Js.VObj fields) path = Js.VArr a ->
  Js.getPath (Js.deepMerge target (Js.VObj fields)) path = Js.VArr a.
Proof.
  revert target fields. induction path as [|k path IH]; intros target fields Hwf Hne Hget.
  - congruence.
  - clear Hne. destruct (JsFacts.wellFormed_object fields Hwf) as [Hu Hall].
    cbn [Js.getPath] in *. unfold Js.prop in *. cbn [Js.ownProps] in Hget.
    rewrite JsFacts.deepMerge_object. cbn [Js.ownProps].
    rewrite JsFacts.mergeFields_get by exact Hu.
    destruct (existsb (String.eqb k) (map fst fields)) eqn:Hin.
    + cbv zeta. specialize (Hall k).
      destruct (Js.get k fields) as [| | | | | | | items | fields'] eqn:Hv;
        cbn [Js.isPlainObject]; try exact Hget.
      destruct path as [|k' path'].
      * simpl in Hget. discriminate.
      * apply IH; [exact Hall | discriminate | exact Hget].
    + rewrite JsFacts.get_absent in Hget by exact Hin.
      rewrite JsFacts.getPath_undefined in Hget. discriminate.
Qed.

Lemma deepMerge_replaces_arrays_witness :
  Js.getPath
    (Js.deepMerge Js.defaults
       (Js.VObj [ ("exclude", Js.VArr [Js.VStr "/private"]);
                  ("crawl", Js.VObj [ ("seeds", Js.VArr [Js.VStr "/docs"]) ]) ]))
    ["exclude"]
  = Js.VArr [Js.VStr "/private"]
  /\ Js.getPath
       (Js.deepMerge Js.defaults
          (Js.VObj [ ("exclude", Js.VArr [Js.VStr "/private"]);
                     ("crawl", Js.VObj [ ("seeds", Js.VArr [Js.VStr "/docs"]) ]) ]))
       ["crawl"; "seeds"]
     = Js.VArr [Js.VStr "/docs"].
Proof.
  split.
  - apply deepMerge_replaces_arrays; [reflexivity | discriminate | reflexivity].
  - apply deepMerge_replaces_arrays; [reflexivity | discriminate | reflexivity].
Defined.

(** The nested merge keeps the defaults that the user's object leaves out. *)
Example deepMerge_keeps_sibling_defaults :
  Js.getPath
    (Js.deepMerge Js.defaults
       (Js.VObj [ ("crawl", Js.VObj [ ("seeds", Js.VArr [Js.VStr "/docs"]) ]) ]))
    ["crawl"; "maxDepth"]
  = Js.VNum 2.
Proof. reflexivity. Qed.

(** ** Declared routes that do not normalise *)

Lemma routeDefs_explicit (options : Options.t) (r : RouteDef.t) (rs : list RouteDef.t) :
  Options.routes options = Some (r :: rs) ->
  routeDefs options = map resolveRoute (r :: rs).
Proof. unfold routeDefs. now intros ->. Qed.

(** C10: in explicit mode a declared route whose path does not normalise
    is replaced by the root route: its resolved definition has path
    ["/"] and the queue is seeded with ["/"] at depth 0 for it.  So a run
    captures the root page for it whenever the root is not excluded and
    renders; the last part is such a run. *)
Theorem unnormalizable_route_becomes_root
        (options : Options.t) (before after : list RouteDef.t) (r : RouteDef.t) :
  Options.routes options = Some (before ++ r :: after) ->
  Crawl.enabled (Options.crawl options) = false ->
  normalizeRoute (RouteDef.path r) true = None ->
  RouteDef.path (resolveRoute r) = "/"
  /\ In (resolveRoute r) (routeDefs options)
  /\ nth_error (seedQueue options) (length before) = Some (Entry.mk "/" 0)
  /\ Forall (fun p => normalizeRoute p true = None)
            [""; "#"; "#top"; "?"; "?page=2"; "mailto:a@b.c"; "tel:+15550100";
             "javascript:void(0)"; "http://example.com/"; "https://example.com/x"]
  /\ (forall resolvedConfig site localeCompare fuel scheds llms pages titleText hrefs,
         closeBundle options resolvedConfig site localeCompare fuel scheds
         = Written llms pages ->
         isExcluded (Options.exclude options) "/" = false ->
         site "/" = Rendered titleText hrefs ->
         In (capturedRecord options "/" titleText) pages)
  /\ (let opts :=
        Options.mk true (Some [RouteDef.mk "mailto:a@b.c" None None None None])
                   (Crawl.mk false (Some ["/"]) 2 50 3 true) []
                   (Output.mk "sibling" "ai" None "Index." true) in
      closeBundle opts (ResolvedConfig.mk "/" None)
                  (fun _ => Rendered "Home" []) byteCompare 2 []
      = Written
          ("# Site" ^^ Str.nl ^^ Str.nl ^^ "> Index." ^^ Str.nl ^^ Str.nl
           ^^ "## Pages" ^^ Str.nl ^^ Str.nl
           ^^ "- [Home](index.html.md)" ^^ Str.nl ^^ Str.nl)
          [Captured.mk "/" "Home" "Pages" false None "index.html.md"]).
Proof.
  intros Hroutes Hcrawl Hnone.
  assert (Hpath : RouteDef.path (resolveRoute r) = "/").
  { unfold resolveRoute. simpl. now rewrite Hnone. }
  assert (Hdefs : routeDefs options = map resolveRoute (before ++ r :: after)).
  { destruct before; simpl in Hroutes; now apply routeDefs_explicit. }
  assert (Hseed : nth_error (seedQueue options) (length before) = Some (Entry.mk "/" 0)).
  { unfold seedQueue, crawlEnabled. rewrite Hcrawl, Hdefs.
    rewrite !map_app. simpl map.
    rewrite nth_error_app2 by (rewrite !length_map; lia).
    rewrite !length_map, Nat.sub_diag. cbn [nth_error]. now rewrite Hnone. }
  split; [exact Hpath|]. split; [|split; [|split; [|split]]].
  - rewrite Hdefs. apply in_map, in_elt.
  - exact Hseed.
  - repeat constructor.
  - intros resolvedConfig site localeCompare fuel scheds llms pages titleText hrefs
           Hrun Hx Hs.
    unfold closeBundle in Hrun.
    destruct (negb (Options.enabled options)); [discriminate|].
    destruct (loop options resolvedConfig site fuel scheds (initialState options))
      as [st| |] eqn:Hl; try discriminate.
    injection Hrun as _ <-.
    apply (explicit_run_complete options resolvedConfig site Hcrawl fuel scheds st
                                 (Entry.mk "/" 0) titleText hrefs Hl);
      [eapply nth_error_In; exact Hseed | exact Hx | exact Hs].
  - vm_compute. reflexivity.
Qed.

Lemma unnormalizable_route_becomes_root_witness :
  RouteDef.path (resolveRoute (RouteDef.mk "mailto:a@b.c" (Some "Mail") None None None)) = "/"
  /\ nth_error
       (seedQueue
          (Options.mk true
             (Some [RouteDef.mk "/pricing" None None None None;
                    RouteDef.mk "mailto:a@b.c" (Some "Mail") None None None])
             (Crawl.mk false (Some ["/"]) 2 50 3 true) []
             (Output.mk "sibling" "ai" None "Index." true)))
       1
     = Some (Entry.mk "/" 0).
Proof.
  pose proof
       (unnormalizable_route_becomes_root
          (Options.mk true
             (Some [RouteDef.mk "/pricing" None None None None;
                    RouteDef.mk "mailto:a@b.c" (Some "Mail") None None None])
             (Crawl.mk false (Some ["/"]) 2 50 3 true) []
             (Output.mk "sibling" "ai" None "Index." true))
          [RouteDef.mk "/pricing" None None None None] []
          (RouteDef.mk "mailto:a@b.c" (Some "Mail") None None None)
          eq_refl eq_refl eq_refl) as (H1 & _ & H3 & _).
  split; [exact H1 | exact H3].
Defined.

(* ================================================================== *)
(** * Further properties of the code *)

(** ** Strings, continued *)

Lemma append_assoc (a b c : string) : (a ^^ b) ^^ c = a ^^ b ^^ c.
Proof. induction a as [|x a IH]; simpl; [reflexivity | now rewrite IH]. Qed.

Lemma append_empty_r (a : string) : a ^^ "" = a.
Proof. induction a as [|x a IH]; simpl; [reflexivity | now rewrite IH]. Qed.

Lemma length_append (a b : string) :
  String.length (a ^^ b) = (String.length a + String.length b)%nat.
Proof. induction a as [|x a IH]; simpl; [reflexivity | now rewrite IH]. Qed.

Lemma append_cancel_l (a b c : string) : a ^^ b = a ^^ c -> b = c.
Proof. induction a as [|x a IH]; simpl; [auto | intros [= H]; auto]. Qed.

Lemma append_cancel_r (a b s : string) : a ^^ s = b ^^ s -> a = b.
Proof.
  revert b. induction a as [|x a IH]; intros b H.
  - destruct b as [|y b]; [reflexivity|].
    apply (f_equal String.length) in H. simpl in H. rewrite length_append in H. lia.
  - destruct b as [|y b].
    + apply (f_equal String.length) in H. simpl in H. rewrite length_append in H. lia.
    + simpl in H. injection H as -> H. f_equal. now apply IH.
Qed.

Lemma endsWith_iff (s p : string) :
  Str.endsWith s p = true <-> exists before, s = before ^^ p.
Proof.
  split.
  - induction s as [|c s IH]; cbn [Str.endsWith].
    + destruct (String.eqb "" p) eqn:E; [|discriminate].
      apply String.eqb_eq in E. subst p. intros _. now exists "".
    + destruct (String.eqb (String c s) p) eqn:E.
      * apply String.eqb_eq in E. subst p. intros _. now exists "".
      * intros H. destruct (IH H) as (b & ->). now exists (String c b).
  - intros (b & ->). induction b as [|c b IH]; cbn [String.append].
    + destruct p; cbn [Str.endsWith]; now rewrite String.eqb_refl.
    + cbn [Str.endsWith]. rewrite IH. now destruct (String.eqb _ p).
Qed.

Lemma includes_app_l (a w p : string) :
  Str.includes (a ^^ w) p = false -> Str.includes a p = false.
Proof.
  intros H. destruct (Str.includes a p) eqn:E; [|reflexivity].
  apply includes_iff in E as (x & y & ->).
  assert (Hin : Str.includes ((x ^^ p ^^ y) ^^ w) p = true).
  { apply includes_iff. exists x, (y ^^ w). now rewrite !append_assoc. }
  congruence.
Qed.

Lemma includes_app_r (w a p : string) :
  Str.includes (w ^^ a) p = false -> Str.includes a p = false.
Proof.
  intros H. destruct (Str.includes a p) eqn:E; [|reflexivity].
  apply includes_iff in E as (x & y & ->).
  assert (Hin : Str.includes (w ^^ x ^^ p ^^ y) p = true).
  { apply includes_iff. exists (w ^^ x), y. now rewrite !append_assoc. }
  congruence.
Qed.

(** A character occurs in a string when [indexOf] finds it. *)
Lemma includes_char (s : string) (c : ascii) :
  Str.includes s (String c "") = false <-> Str.indexOf s c = (-1)%Z.
Proof.
  induction s as [|a s IH].
  - simpl. tauto.
  - rewrite indexOf_cons. cbn [Str.includes Str.startsWith].
    rewrite andb_true_r. destruct (Ascii.eqb a c) eqn:E.
    + apply Ascii.eqb_eq in E. split; [discriminate | tauto].
    + apply Ascii.eqb_neq in E. rewrite IH. tauto.
Qed.

Lemma collapseSlashes_length (s : string) :
  (String.length (Str.collapseSlashes s) <= String.length s)%nat.
Proof.
  induction s as [|a s IH]; [simpl; lia|].
  cbn [Str.collapseSlashes]. destruct s as [|b s']; [simpl; lia|].
  destruct (Ascii.eqb a "/" && Ascii.eqb b "/").
  - cbn [String.length] in *. lia.
  - cbn [String.length] in *. lia.
Qed.

(** A string is left as it is by [collapseSlashes] exactly when it holds
    no two slashes in a row. *)
Lemma collapseSlashes_fixed_iff (s : string) :
  Str.collapseSlashes s = s <-> Str.includes s "//" = false.
Proof.
  induction s as [|a s IH]; [simpl; tauto|].
  destruct s as [|b s'].
  - cbn. destruct (Ascii.eqb a "/"); simpl; tauto.
  - change (Str.collapseSlashes (String a (String b s')))
      with (if Ascii.eqb a "/" && Ascii.eqb b "/"
            then Str.collapseSlashes (String b s')
            else String a (Str.collapseSlashes (String b s'))).
    change (Str.includes (String a (String b s')) "//")
      with (if Ascii.eqb a "/" && (Ascii.eqb b "/" && true)
            then true else Str.includes (String b s') "//").
    rewrite andb_true_r.
    destruct (Ascii.eqb a "/" && Ascii.eqb b "/") eqn:E.
    + split; [|discriminate]. intros H.
      pose proof (collapseSlashes_length (String b s')) as L.
      rewrite H in L. cbn [String.length] in L. lia.
    + rewrite <- IH. split; [intros [= H]; exact H | intros ->; reflexivity].
Qed.

(** ** Option merging, continued *)

Module JsMerge.
Import Js JsPath JsFacts.

Lemma hasKey_get (k : string) (target : value) (fields : list (string * value)) :
  uniqueKeys (map fst fields) = true ->
  prop (deepMerge target (VObj fields)) k =
    if hasKey k fields
    then (let v := get k fields in
          if isPlainObject v then deepMerge (orEmptyObject (prop target k)) v else v)
    else prop target k.
Proof.
  intros Hu. rewrite deepMerge_object. unfold prop at 1. cbn [ownProps].
  now rewrite mergeFields_get.
Qed.

End JsMerge.

(** X1. A value of the user's options that is not a plain object (a
    number, a string, a boolean, [null], [undefined], an array, a
    [RegExp] or a function), found at a path that leads through plain
    objects and that does not hold the key ["__proto__"], is the value
    of the merged options at that path, whatever the defaults hold
    there.  The key ["__proto__"] is left out: [result[key] = value]
    reaches the setter of [Object.prototype] for it, which is not the
    own property that [Js.set] stores. *)
Theorem deepMerge_user_value_wins
        (target source : Js.value) (path : list string) (v : Js.value) :
  Js.wellFormed source = true ->
  ~ In "__proto__" path ->
  JsPath.given source path = Some v ->
  Js.getPath (Js.deepMerge target source) path = v.
Proof.
  revert target source. induction path as [|k rest IH]; intros target source Hw Hk0 Hg.
  - destruct source; discriminate.
  - destruct source as [| | | | | | | |fields]; try discriminate.
    destruct (JsFacts.wellFormed_object fields Hw) as [Hu Hall].
    cbn [JsPath.given] in Hg.
    destruct (JsPath.hasKey k fields) eqn:Hk; [|discriminate].
    cbn [Js.getPath]. rewrite JsMerge.hasKey_get by exact Hu. rewrite Hk. cbv zeta.
    destruct rest as [|k2 rest].
    + destruct (Js.isPlainObject (Js.get k fields)); [discriminate|].
      now injection Hg as <-.
    + destruct (Js.isPlainObject (Js.get k fields)) eqn:Hp; [|discriminate].
      apply IH; [apply Hall | intros Hin; apply Hk0; now right | exact Hg].
Qed.

Lemma deepMerge_user_value_wins_witness :
  Js.getPath
    (Js.deepMerge Js.defaults
       (Js.VObj [("exclude", Js.VNull);
                 ("render", Js.VObj [("timeoutMs", Js.VNum 5000)])]))
    ["exclude"] = Js.VNull
  /\ Js.getPath
       (Js.deepMerge Js.defaults
          (Js.VObj [("exclude", Js.VNull);
                    ("render", Js.VObj [("timeoutMs", Js.VNum 5000)])]))
       ["render"; "timeoutMs"] = Js.VNum 5000.
Proof.
  split.
  - apply (deepMerge_user_value_wins Js.defaults _ ["exclude"]);
      [reflexivity | simpl; intuition discriminate | reflexivity].
  - apply (deepMerge_user_value_wins Js.defaults _ ["render"; "timeoutMs"]);
      [reflexivity | simpl; intuition discriminate | reflexivity].
Defined.



(** ** The exclusion filter, continued *)

(** X3. With string rules only, exclusion is closed under extension: when
    a route is excluded, so is every route that contains it, such as its
    sub-routes and the routes that merely start with the same letters. *)
Theorem literal_exclusion_extends
        (exclude : list ExclusionRule) (route before after : string) :
  (forall rule, In rule exclude -> exists lit, rule = Literal lit) ->
  isExcluded exclude route = true ->
  isExcluded exclude (before ^^ route ^^ after) = true.
Proof.
  intros Hlit Hex. apply isExcluded_iff in Hex as (rule & Hin & Hm).
  apply isExcluded_iff. exists rule. split; [exact Hin|].
  destruct (Hlit rule Hin) as (lit & ->).
  destruct Hm as (a & b & ->).
  exists (before ^^ a), (b ^^ after). now rewrite !append_assoc.
Qed.

Lemma literal_exclusion_extends_witness :
  isExcluded [Literal "/login"; Literal "/admin"; Literal "/account"]
             ("/docs" ^^ "/admin" ^^ "istrator/keys") = true.
Proof.
  apply literal_exclusion_extends.
  - intros rule [<-|[<-|[<-|[]]]]; eauto.
  - reflexivity.
Defined.

(** X4. The empty string as a rule excludes every route: no page is
    captured, whatever the routes, the seeds and the site are. *)
Theorem empty_rule_excludes_all
        (options : Options.t) (resolvedConfig : ResolvedConfig.t) (site : Site)
        (localeCompare : string -> string -> Z)
        (fuel : nat) (scheds : list (list nat)) (llms : string) (pages : list Captured.t) :
  In (Literal "") (Options.exclude options) ->
  (forall route, isExcluded (Options.exclude options) route = true)
  /\ (closeBundle options resolvedConfig site localeCompare fuel scheds = Written llms pages ->
      pages = []).
Proof.
  intros Hin.
  assert (Hall : forall route, isExcluded (Options.exclude options) route = true).
  { intros route. apply isExcluded_iff. exists (Literal ""). split; [exact Hin|].
    exists "", route. reflexivity. }
  split; [exact Hall|].
  unfold closeBundle. destruct (negb (Options.enabled options)); [discriminate|].
  destruct (loop options resolvedConfig site fuel scheds (initialState options))
    as [st| |] eqn:Hl; try discriminate.
  intros [= _ <-].
  apply Inv_loop in Hl; [|apply Inv_initial].
  destruct Hl as (_ & _ & _ & Hf). simpl in Hf.
  unfold capturedRoutes in Hf.
  destruct (captured st) as [|p ps]; [reflexivity|].
  inversion Hf as [|? ? Hp _]. rewrite Hall in Hp. discriminate.
Qed.

Lemma empty_rule_excludes_all_witness :
  isExcluded [Literal "/login"; Literal ""] "/pricing" = true.
Proof.
  refine (proj1 (empty_rule_excludes_all
                  (Options.mk true None (Crawl.mk false None 2 50 3 true)
                              [Literal "/login"; Literal ""]
                              (Output.mk "sibling" "ai" None "Summary." true))
                  (ResolvedConfig.mk "/" None)
                  (fun _ => Rendered "Home" [])
                  byteCompare 3%nat [] "" []
                  (or_intror (or_introl eq_refl))) "/pricing").
Defined.

(** ** Route normalisation, continued *)

Lemma trimEnd_cons (c : ascii) (s : string) :
  Str.isWhiteSpace c = false -> Str.trimEnd (String c s) = String c (Str.trimEnd s).
Proof.
  intros H. cbn [Str.trimEnd]. rewrite H. now destruct (Str.trimEnd s).
Qed.

Lemma trim_cons (c : ascii) (s : string) :
  Str.isWhiteSpace c = false -> Str.trim (String c s) = String c (Str.trimEnd s).
Proof.
  intros H. unfold Str.trim. cbn [Str.trimStart]. rewrite H. now apply trimEnd_cons.
Qed.

(** [trimEnd] cuts a suffix off. *)
Lemma trimEnd_prefix (s : string) : exists w, s = Str.trimEnd s ^^ w.
Proof.
  induction s as [|c s (w & IH)]; [now exists ""|].
  cbn [Str.trimEnd]. destruct (Str.trimEnd s) as [|d t] eqn:E.
  - destruct (Str.isWhiteSpace c).
    + now exists (String c s).
    + exists w. simpl in IH. simpl. now rewrite <- IH.
  - exists w. simpl. f_equal. exact IH.
Qed.

Lemma trimEnd_idempotent (s : string) : Str.trimEnd (Str.trimEnd s) = Str.trimEnd s.
Proof.
  induction s as [|c s IH]; [reflexivity|].
  cbn [Str.trimEnd]. destruct (Str.trimEnd s) as [|d t] eqn:E.
  - destruct (Str.isWhiteSpace c) eqn:W; [reflexivity|].
    cbn [Str.trimEnd]. now rewrite W.
  - change (Str.trimEnd (String c (String d t)))
      with (match Str.trimEnd (String d t) with
            | EmptyString =>
                if Str.isWhiteSpace c then EmptyString else String c EmptyString
            | String _ _ as t' => String c t'
            end).
    now rewrite IH.
Qed.

(** The cut at the first [c], written as in [normalizeRoute]. *)
Lemma cut_cons (a c : ascii) (s : string) :
  a <> c ->
  (if (0 <=? Str.indexOf (String a s) c)%Z
   then Str.slice (String a s) 0 (Str.indexOf (String a s) c)
   else String a s)
  = String a (if (0 <=? Str.indexOf s c)%Z
              then Str.slice s 0 (Str.indexOf s c)
              else s).
Proof.
  intros Hne. apply Ascii.eqb_neq in Hne. cbn [Str.indexOf]. rewrite Hne.
  pose proof (indexOf_nonneg c s) as Hn.
  destruct (Str.indexOf s c <? 0)%Z eqn:L.
  - apply Z.ltb_lt in L.
    replace (0 <=? Str.indexOf s c)%Z with false by (symmetry; apply Z.leb_gt; lia).
    reflexivity.
  - apply Z.ltb_ge in L.
    replace (0 <=? Str.indexOf s c + 1)%Z with true by (symmetry; apply Z.leb_le; lia).
    replace (0 <=? Str.indexOf s c)%Z with true by (symmetry; apply Z.leb_le; lia).
    unfold Str.slice. rewrite !Z.sub_0_r.
    replace (Z.to_nat (Str.indexOf s c + 1)) with (S (Z.to_nat (Str.indexOf s c))) by lia.
    reflexivity.
Qed.

Lemma cut_head (c : ascii) (s : string) :
  (if (0 <=? Str.indexOf (String c s) c)%Z
   then Str.slice (String c s) 0 (Str.indexOf (String c s) c)
   else String c s) = "".
Proof. cbn [Str.indexOf]. rewrite Ascii.eqb_refl. reflexivity. Qed.

(** X5. What [normalizeRoute] returns starts with a slash and holds no
    ["#"], no two slashes in a row and, when the query is stripped, no
    ["?"]. *)
Theorem normalizeRoute_result_shape (input : string) (stripQuery : bool) (r : string) :
  normalizeRoute input stripQuery = Some r ->
  rooted r = true
  /\ Str.includes r "#" = false
  /\ Str.includes r "//" = false
  /\ (stripQuery = true -> Str.includes r "?" = false).
Proof.
  intros H. apply normalizeRoute_shape in H as ((t & ->) & Hh & Hq & Hc).
  split; [reflexivity|].
  split; [now apply includes_char|].
  split; [now apply collapseSlashes_fixed_iff|].
  intros E. now apply includes_char, Hq.
Qed.

Lemma normalizeRoute_result_shape_witness :
  rooted "/docs/a" = true
  /\ Str.includes "/docs/a" "#" = false
  /\ Str.includes "/docs/a" "//" = false
  /\ (true = true -> Str.includes "/docs/a" "?" = false).
Proof.
  apply (normalizeRoute_result_shape " docs//a?x=1#top " true "/docs/a"). reflexivity.
Defined.

(** A string of the shape that [normalizeRoute] returns, without white
    space at its ends, is returned as it is. *)
Lemma normalizeRoute_fixed (r t : string) (stripQuery : bool) :
  r = String "/" t ->
  Str.indexOf r "#" = (-1)%Z ->
  (stripQuery = true -> Str.indexOf r "?" = (-1)%Z) ->
  Str.collapseSlashes r = r ->
  Str.trim r = r ->
  normalizeRoute r stripQuery = Some r.
Proof.
  intros -> Hh Hq Hc Htrim.
  unfold normalizeRoute. rewrite Htrim.
  cbn [Str.truthy String.eqb negb Str.startsWith Ascii.eqb Bool.eqb andb orb].
  rewrite Hh. cbn [Z.leb Z.compare].
  destruct stripQuery.
  - rewrite (Hq eq_refl). cbn [Z.leb Z.compare]. simpl negb. cbv iota. now rewrite Hc.
  - simpl negb. cbv iota. now rewrite Hc.
Qed.

(** X6. Normalising a result of [normalizeRoute] again removes the white
    space at its end and nothing else, and what is then left is
    normalised to itself: two passes reach a fixed point. *)
Theorem normalizeRoute_second_pass_trims (input : string) (stripQuery : bool) (r : string) :
  normalizeRoute input stripQuery = Some r ->
  normalizeRoute r stripQuery = Some (Str.trim r)
  /\ normalizeRoute (Str.trim r) stripQuery = Some (Str.trim r).
Proof.
  intros H. apply normalizeRoute_shape in H as ((t & ->) & Hh & Hq & Hc).
  assert (Et : Str.trim (String "/" t) = String "/" (Str.trimEnd t))
    by (now apply trim_cons).
  destruct (trimEnd_prefix t) as [w Hw].
  assert (Ew : String "/" t = String "/" (Str.trimEnd t) ^^ w)
    by (simpl; now rewrite <- Hw).
  assert (Hfix : normalizeRoute (String "/" (Str.trimEnd t)) stripQuery
                 = Some (String "/" (Str.trimEnd t))).
  { apply (normalizeRoute_fixed _ (Str.trimEnd t)); [reflexivity| | | |].
    - apply includes_char. apply includes_char in Hh. rewrite Ew in Hh.
      now apply includes_app_l in Hh.
    - intros E. specialize (Hq E). apply includes_char.
      apply includes_char in Hq. rewrite Ew in Hq. now apply includes_app_l in Hq.
    - apply collapseSlashes_fixed_iff. apply collapseSlashes_fixed_iff in Hc.
      rewrite Ew in Hc. now apply includes_app_l in Hc.
    - rewrite trim_cons by reflexivity. now rewrite trimEnd_idempotent. }
  rewrite Et. split; [|exact Hfix].
  rewrite <- Hfix. unfold normalizeRoute.
  cbn [Str.truthy String.eqb negb Str.startsWith Ascii.eqb Bool.eqb andb orb].
  rewrite !trim_cons by reflexivity. now rewrite trimEnd_idempotent.
Qed.

Lemma normalizeRoute_second_pass_trims_witness :
  normalizeRoute "/a " true = Some (Str.trim "/a ")
  /\ normalizeRoute (Str.trim "/a ") true = Some (Str.trim "/a ").
Proof. apply (normalizeRoute_second_pass_trims "/a #b" true "/a "). reflexivity. Defined.

(** X7. What is not a route: an input that is empty once trimmed, a link
    to an anchor of the page and, when the query is stripped, a link that
    is a query only. *)
Theorem normalizeRoute_not_a_route (s : string) (stripQuery : bool) :
  (Str.trim s = "" -> normalizeRoute s stripQuery = None)
  /\ normalizeRoute ("#" ^^ s) stripQuery = None
  /\ normalizeRoute ("?" ^^ s) true = None.
Proof.
  split; [|split].
  - intros E. unfold normalizeRoute. rewrite E.
    destruct (negb (Str.truthy s)); [reflexivity|].
    destruct (_ || _ || _); [reflexivity|].
    now destruct stripQuery.
  - unfold normalizeRoute. cbn [String.append].
    cbn [Str.truthy String.eqb negb Str.startsWith Ascii.eqb Bool.eqb andb orb].
    rewrite trim_cons by reflexivity.
    cbn [Str.startsWith Ascii.eqb Bool.eqb andb orb]. cbv zeta.
    rewrite cut_head. now destruct stripQuery.
  - unfold normalizeRoute. cbn [String.append].
    cbn [Str.truthy String.eqb negb Str.startsWith Ascii.eqb Bool.eqb andb orb].
    rewrite trim_cons by reflexivity.
    cbn [Str.startsWith Ascii.eqb Bool.eqb andb orb]. cbv zeta.
    rewrite cut_cons by discriminate. now rewrite cut_head.
Qed.

Lemma normalizeRoute_not_a_route_witness :
  normalizeRoute "   " false = None.
Proof. apply (proj1 (normalizeRoute_not_a_route "   " false)). reflexivity. Defined.

(** X8. A leading ["./"] and a leading ["//"] are read as a leading
    ["/"]: a link written relative to the page is resolved against the
    root, and a protocol-relative link to another host becomes a route
    of this site. *)
Theorem normalizeRoute_leading_segment (s : string) (stripQuery : bool) :
  normalizeRoute ("./" ^^ s) stripQuery = normalizeRoute ("/" ^^ s) stripQuery
  /\ normalizeRoute ("//" ^^ s) stripQuery = normalizeRoute ("/" ^^ s) stripQuery.
Proof.
  split.
  - unfold normalizeRoute. cbn [String.append].
    cbn [Str.truthy String.eqb negb Str.startsWith Ascii.eqb Bool.eqb andb orb].
    rewrite !trim_cons by reflexivity. rewrite trimEnd_cons by reflexivity.
    cbn [Str.startsWith Ascii.eqb Bool.eqb andb orb]. cbv zeta.
    rewrite !(cut_cons _ "#") by discriminate.
    destruct stripQuery.
    + rewrite !(cut_cons _ "?") by discriminate.
      cbn [Str.truthy String.eqb negb Str.startsWith Ascii.eqb Bool.eqb andb orb
           Str.sliceFrom].
      reflexivity.
    + cbn [Str.truthy String.eqb negb Str.startsWith Ascii.eqb Bool.eqb andb orb
           Str.sliceFrom].
      reflexivity.
  - unfold normalizeRoute. cbn [String.append].
    cbn [Str.truthy String.eqb negb Str.startsWith Ascii.eqb Bool.eqb andb orb].
    rewrite !trim_cons by reflexivity. rewrite trimEnd_cons by reflexivity.
    cbn [Str.startsWith Ascii.eqb Bool.eqb andb orb]. cbv zeta.
    rewrite !(cut_cons _ "#") by discriminate.
    destruct stripQuery.
    + rewrite !(cut_cons _ "?") by discriminate.
      cbn [Str.truthy String.eqb negb Str.startsWith Ascii.eqb Bool.eqb andb orb].
      reflexivity.
    + cbn [Str.truthy String.eqb negb Str.startsWith Ascii.eqb Bool.eqb andb orb].
      reflexivity.
Qed.

Lemma normalizeRoute_leading_segment_host :
  normalizeRoute "//cdn.example.com/x.js" true = Some "/cdn.example.com/x.js".
Proof. reflexivity. Qed.

(** ** Output paths, continued *)

Lemma append_last (a b : string) (c d : ascii) :
  a ^^ String c "" = b ^^ String d "" -> a = b /\ c = d.
Proof.
  revert b. induction a as [|x a IH]; intros [|y b] H; simpl in H.
  - injection H as ->. auto.
  - injection H as -> H. destruct b; discriminate.
  - injection H as -> H. destruct a; discriminate.
  - injection H as -> H. apply IH in H as [-> ->]. auto.
Qed.

Lemma endsWith_app (a p : string) : Str.endsWith (a ^^ p) p = true.
Proof. apply endsWith_iff. now exists a. Qed.

Lemma endsWith_file_name (a : string) : Str.endsWith (a ^^ "index.html") "/" = false.
Proof.
  destruct (Str.endsWith (a ^^ "index.html") "/") eqn:E; [|reflexivity].
  apply endsWith_iff in E as (b & E).
  change "index.html" with ("index.htm" ^^ "l") in E.
  rewrite <- append_assoc in E. apply append_last in E as [_ E]. discriminate.
Qed.

Lemma sliceFrom_zero (s : string) : Str.sliceFrom s 0 = s.
Proof. now destruct s. Qed.

(** [routeToMdWebPath] on a route that starts with a slash. *)
Lemma routeToMdWebPath_rooted (t : string) :
  routeToMdWebPath (String "/" t) =
    if Str.endsWith (String "/" t) "/" then t ^^ "index.html.md" else t ^^ ".md".
Proof.
  unfold routeToMdWebPath. destruct (String.eqb (String "/" t) "/") eqn:E.
  - apply String.eqb_eq in E. injection E as ->. reflexivity.
  - cbn [Str.sliceFrom]. now rewrite sliceFrom_zero.
Qed.

(** X9. A route that ends with a slash and the route of the
    [index.html] under it are given the same document: the captures of
    both write one file. *)
Theorem routeToMdWebPath_index_collision (route : string) :
  Str.endsWith route "/" = true ->
  routeToMdWebPath (route ^^ "index.html") = routeToMdWebPath route
  /\ route ^^ "index.html" <> route.
Proof.
  intros He. split.
  - unfold routeToMdWebPath at 1.
    rewrite endsWith_file_name.
    replace (String.eqb (route ^^ "index.html") "/") with false.
    + unfold routeToMdWebPath. rewrite He.
      destruct route as [|c route]; [discriminate|].
      cbn [String.append Str.sliceFrom]. rewrite !sliceFrom_zero.
      destruct (String.eqb (String c route) "/") eqn:E.
      * apply String.eqb_eq in E. injection E as -> ->. reflexivity.
      * now rewrite append_assoc.
    + symmetry. apply String.eqb_neq. intros E.
      apply (f_equal String.length) in E. rewrite length_append in E.
      simpl in E. lia.
  - intros E. apply (f_equal String.length) in E. rewrite length_append in E.
    simpl in E. lia.
Qed.

Lemma routeToMdWebPath_index_collision_witness :
  routeToMdWebPath ("/docs/" ^^ "index.html") = routeToMdWebPath "/docs/"
  /\ "/docs/" ^^ "index.html" <> "/docs/".
Proof. apply routeToMdWebPath_index_collision. reflexivity. Defined.

(** X10. Apart from that, routes are told apart by their documents: two
    routes that start with a slash and are given the same document are
    equal, or one ends with a slash and the other is the [index.html]
    under it. *)
Theorem routeToMdWebPath_injective (r1 r2 : string) :
  rooted r1 = true -> rooted r2 = true ->
  routeToMdWebPath r1 = routeToMdWebPath r2 ->
  r1 = r2
  \/ (Str.endsWith r1 "/" = true /\ r2 = r1 ^^ "index.html")
  \/ (Str.endsWith r2 "/" = true /\ r1 = r2 ^^ "index.html").
Proof.
  unfold rooted. intros H1 H2.
  apply startsWith_iff in H1 as (t1 & ->). apply startsWith_iff in H2 as (t2 & ->).
  cbn [String.append]. rewrite !routeToMdWebPath_rooted.
  destruct (Str.endsWith (String "/" t1) "/") eqn:E1,
           (Str.endsWith (String "/" t2) "/") eqn:E2; intros H.
  - apply append_cancel_r in H. subst. now left.
  - right. left. split; [reflexivity|].
    change "index.html.md" with ("index.html" ^^ ".md") in H.
    rewrite <- append_assoc in H. apply append_cancel_r in H. now subst.
  - right. right. split; [reflexivity|].
    change "index.html.md" with ("index.html" ^^ ".md") in H.
    rewrite <- append_assoc in H. apply append_cancel_r in H. now subst.
  - apply append_cancel_r in H. subst. now left.
Qed.

Lemma routeToMdWebPath_injective_witness :
  "/docs/" = "/docs/index.html"
  \/ (Str.endsWith "/docs/" "/" = true /\ "/docs/index.html" = "/docs/" ^^ "index.html")
  \/ (Str.endsWith "/docs/index.html" "/" = true
      /\ "/docs/" = "/docs/index.html" ^^ "index.html").
Proof. apply routeToMdWebPath_injective; reflexivity. Defined.

(** X11. The document of a normalised route is a relative path that ends
    with [.md]: it has no leading slash, so the link of the index works
    under any base. *)
Theorem routeToMdWebPath_relative (input : string) (stripQuery : bool) (r : string) :
  normalizeRoute input stripQuery = Some r ->
  Str.startsWith (routeToMdWebPath r) "/" = false
  /\ Str.endsWith (routeToMdWebPath r) ".md" = true.
Proof.
  intros H. apply normalizeRoute_shape in H as ((t & ->) & _ & _ & Hc).
  apply collapseSlashes_fixed_iff in Hc.
  rewrite routeToMdWebPath_rooted. split.
  - destruct t as [|c t].
    + reflexivity.
    + assert (Hne : Ascii.eqb c "/" = false).
      { destruct (Ascii.eqb c "/") eqn:E; [|reflexivity].
        apply Ascii.eqb_eq in E. subst c. discriminate. }
      destruct (Str.endsWith _ "/"); cbn [String.append Str.startsWith];
        now rewrite Hne.
  - destruct (Str.endsWith _ "/").
    + change "index.html.md" with ("index.html" ^^ ".md").
      rewrite <- append_assoc. apply endsWith_app.
    + apply endsWith_app.
Qed.

Lemma routeToMdWebPath_relative_witness :
  Str.startsWith (routeToMdWebPath "/docs/") "/" = false
  /\ Str.endsWith (routeToMdWebPath "/docs/") ".md" = true.
Proof. apply (routeToMdWebPath_relative "docs//#top" true "/docs/"). reflexivity. Defined.

(** *** Joining paths *)

Module PathFacts.
Import PosixPath.
















End PathFacts.



(** X13. A run stays within what the seeds link to: every captured route
    is a seed of the queue or, when crawling, a link, normalised and
    made relative to the base, of a page whose route is itself such a
    route. *)
Theorem captured_routes_reachable
        (options : Options.t) (resolvedConfig : ResolvedConfig.t) (site : Site)
        (localeCompare : string -> string -> Z)
        (fuel : nat) (scheds : list (list nat)) (llms : string) (pages : list Captured.t) :
  closeBundle options resolvedConfig site localeCompare fuel scheds = Written llms pages ->
  forall p, In p pages -> reachable options resolvedConfig site (Captured.route p).
Proof.
  unfold closeBundle. destruct (negb (Options.enabled options)); [discriminate|].
  destruct (loop options resolvedConfig site fuel scheds (initialState options))
    as [st| |] eqn:Hl; try discriminate.
  intros [= _ <-] p Hp.
  apply (routesSatisfy_loop options resolvedConfig site
           (reachable options resolvedConfig site)) in Hl.
  - destruct Hl as (_ & _ & Hc). unfold capturedRoutes in Hc.
    rewrite Forall_forall in Hc. apply Hc. now apply in_map.
  - intros e He. now apply reach_seed.
  - intros parent titleText hrefs href n Hc Hr Hs Hi Hn. eapply reach_link; eauto.
Qed.

Lemma captured_routes_reachable_witness :
  reachable
    (Options.mk true None (Crawl.mk true (Some ["/"]) 2 50 3 true) []
                (Output.mk "sibling" "ai" None "Summary." true))
    (ResolvedConfig.mk "/" None)
    (fun r => if String.eqb r "/" then Rendered "Home" ["/a"] else Rendered "A" [])
    "/a".
Proof.
  apply (captured_routes_reachable
           (Options.mk true None (Crawl.mk true (Some ["/"]) 2 50 3 true) []
                       (Output.mk "sibling" "ai" None "Summary." true))
           (ResolvedConfig.mk "/" None)
           (fun r => if String.eqb r "/" then Rendered "Home" ["/a"] else Rendered "A" [])
           byteCompare 5 []
           _ _ eq_refl
           (Captured.mk "/a" "A" "Pages" false None "a.md")).
  vm_compute. auto.
Defined.

Lemma sliceFrom_suffix (s : string) (k : nat) : exists w, s = w ^^ Str.sliceFrom s k.
Proof.
  revert s. induction k as [|k IH]; intros s.
  - exists "". now rewrite sliceFrom_zero.
  - destruct s as [|c s]; [now exists ""|].
    destruct (IH s) as (w & Hw). exists (String c w). simpl. now rewrite <- Hw.
Qed.

Lemma wellShaped_iff (r : string) :
  wellShaped r = true <->
  rooted r = true /\ Str.includes r "//" = false /\ Str.includes r "#" = false.
Proof.
  unfold wellShaped. rewrite !andb_true_iff, !negb_true_iff. tauto.
Qed.

Lemma normalizeRoute_wellShaped (input : string) (stripQuery : bool) (r : string) :
  normalizeRoute input stripQuery = Some r -> wellShaped r = true.
Proof.
  intros H. apply normalizeRoute_shape in H as ((t & ->) & Hh & _ & Hc).
  apply wellShaped_iff. split; [reflexivity|].
  split; [now apply collapseSlashes_fixed_iff | now apply includes_char].
Qed.

Lemma baseRelative_wellShaped (resolvedConfig : ResolvedConfig.t) (n : string) :
  wellShaped n = true -> wellShaped (baseRelative resolvedConfig n) = true.
Proof.
  intros H. unfold baseRelative.
  destruct (negb _ && Str.startsWith n _); [|exact H].
  destruct (String.eqb _ "//"); [reflexivity|].
  apply wellShaped_iff in H as (_ & _ & Hh).
  destruct (sliceFrom_suffix n (String.length (normalizedBase resolvedConfig)))
    as (w & Hw).
  set (suffix := Str.sliceFrom n _) in *.
  rewrite Hw in Hh. apply includes_app_r in Hh.
  destruct (collapseSlashes_head "/" suffix) as [t Ht].
  apply wellShaped_iff. cbn [String.append]. split; [now rewrite Ht|]. split.
  - apply collapseSlashes_fixed_iff, collapseSlashes_idempotent.
  - apply includes_char, indexOf_collapse_absent, indexOf_cons.
    split; [discriminate | now apply includes_char].
Qed.

Lemma orElse_truthy (a b : string) :
  Str.truthy b = true -> Str.truthy (Str.orElse a b) = true.
Proof. unfold Str.orElse. now destruct (Str.truthy a) eqn:E. Qed.

Lemma seedQueue_wellShaped (options : Options.t) (e : Entry.t) :
  In e (seedQueue options) -> wellShaped (Entry.route e) = true.
Proof.
  unfold seedQueue. destruct (crawlEnabled options).
  - intros H. apply in_flat_map in H as (seed & _ & H).
    destruct (normalizeRoute seed _) as [nr|] eqn:E; [|contradiction].
    destruct H as [<-|[]]. eapply normalizeRoute_wellShaped; eauto.
  - intros H. apply in_map_iff in H as (rd & <- & H). cbn [Entry.route].
    unfold routeDefs in H.
    assert (Hroot : forall rd', In rd' [RouteDef.mk "/" None (Some "Pages") None None] ->
                                wellShaped (RouteDef.path rd') = true)
      by (intros rd' [<-|[]]; reflexivity).
    destruct (Options.routes options) as [[|r rs]|].
    + destruct (crawlEnabled options); [contradiction | now apply Hroot].
    + apply in_map_iff in H as (r0 & <- & _). cbn [resolveRoute RouteDef.path].
      destruct (normalizeRoute (RouteDef.path r0) true) as [nr|] eqn:E; [|reflexivity].
      pose proof (normalizeRoute_wellShaped _ _ _ E) as Hw. cbn [optString].
      unfold Str.orElse. destruct (Str.truthy nr); [exact Hw | reflexivity].
    + destruct (crawlEnabled options); [contradiction | now apply Hroot].
Qed.

(** X14. Every page of a finished run has a route of the shape that
    [normalizeRoute] gives (a leading slash, no two slashes in a row, no
    ["#"]), a title that is not empty and a section that is not empty. *)
Theorem captured_pages_well_formed
        (options : Options.t) (resolvedConfig : ResolvedConfig.t) (site : Site)
        (localeCompare : string -> string -> Z)
        (fuel : nat) (scheds : list (list nat)) (llms : string) (pages : list Captured.t) :
  closeBundle options resolvedConfig site localeCompare fuel scheds = Written llms pages ->
  forall p, In p pages ->
    wellShaped (Captured.route p) = true
    /\ Str.truthy (Captured.title p) = true
    /\ Str.truthy (Captured.section p) = true.
Proof.
  unfold closeBundle. destruct (negb (Options.enabled options)); [discriminate|].
  destruct (loop options resolvedConfig site fuel scheds (initialState options))
    as [st| |] eqn:Hl; try discriminate.
  intros [= _ <-] p Hp.
  assert (Hshape : wellShaped (Captured.route p) = true).
  { apply (routesSatisfy_loop options resolvedConfig site
             (fun r => wellShaped r = true)) in Hl.
    - destruct Hl as (_ & _ & Hc). unfold capturedRoutes in Hc.
      rewrite Forall_forall in Hc. apply Hc. now apply in_map.
    - apply seedQueue_wellShaped.
    - intros parent titleText hrefs href n _ _ _ _ Hn.
      apply baseRelative_wellShaped. eapply normalizeRoute_wellShaped; eauto. }
  split; [exact Hshape|].
  assert (Hrec : Forall (fun q => exists t, q = capturedRecord options (Captured.route q) t)
                        (captured st)).
  { revert Hl.
    apply (loop_preserves options resolvedConfig site
             (fun s => Forall (fun q => exists t,
                                   q = capturedRecord options (Captured.route q) t)
                              (captured s))).
    - intros t s ot s' Hr HR. destruct t as [r d|d]; simpl in Hr.
      + destruct (captureOne_body options resolvedConfig site r s) as [s1|] eqn:Hb;
          [|discriminate].
        injection Hr as _ <-.
        apply captureOne_body_some in Hb as (_ & [(-> & _)|(tt & hh & _ & -> & _)]).
        * exact HR.
        * apply Forall_app. split; [exact HR|]. constructor; [|constructor].
          exists tt. reflexivity.
      + injection Hr as _ <-. now rewrite patchDepths_captured.
    - auto.
    - constructor. }
  rewrite Forall_forall in Hrec. destruct (Hrec p Hp) as (t & Ep).
  assert (Hroute : Str.truthy (Captured.route p) = true).
  { apply wellShaped_iff in Hshape as (Hr & _). unfold rooted in Hr.
    destruct (Captured.route p); [discriminate | reflexivity]. }
  rewrite Ep. unfold capturedRecord. cbn [Captured.title Captured.section].
  split.
  - apply orElse_truthy. now apply orElse_truthy.
  - now apply orElse_truthy.
Qed.

Lemma captured_pages_well_formed_witness :
  wellShaped "/a" = true /\ Str.truthy "/a" = true /\ Str.truthy "Pages" = true.
Proof.
  apply (captured_pages_well_formed
           (Options.mk true None (Crawl.mk true (Some ["/"]) 2 50 3 true) []
                       (Output.mk "sibling" "ai" None "Summary." true))
           (ResolvedConfig.mk "/" None)
           (fun r => if String.eqb r "/" then Rendered "Home" ["/a"] else Rendered " " [])
           byteCompare 5 []
           _ _ eq_refl
           (Captured.mk "/a" "/a" "Pages" false None "a.md")).
  vm_compute. auto.
Defined.

(** ** The loop, at its bounds *)

(** X15. With a crawl concurrency of zero or less the loop takes an empty
    batch off the queue at every turn: once there is a seed and room for
    a page, the run never ends, whatever the number of turns. *)
Theorem nonpositive_concurrency_never_ends
        (options : Options.t) (resolvedConfig : ResolvedConfig.t) (site : Site)
        (localeCompare : string -> string -> Z)
        (fuel : nat) (scheds : list (list nat)) :
  Options.enabled options = true ->
  Crawl.enabled (Options.crawl options) = true ->
  (Crawl.concurrency (Options.crawl options) <= 0)%Z ->
  (0 < Crawl.maxPages (Options.crawl options))%Z ->
  seedQueue options <> [] ->
  closeBundle options resolvedConfig site localeCompare fuel scheds = OutOfFuel.
Proof.
  intros He Hc Hn Hm Hs. unfold closeBundle. rewrite He. cbn [negb].
  assert (Hb : forall sched st, runBatch options resolvedConfig site sched st = Some st).
  { intros sched st. unfold runBatch, takeBatch, spliceCount, concurrency, crawlEnabled.
    rewrite Hc. replace (Z.to_nat _) with 0%nat by lia.
    cbn [firstn skipn map dispatch]. destruct st. cbn [visited captured queue].
    now destruct sched. }
  assert (Hg : loopGuard options (initialState options) = true).
  { unfold loopGuard, initialState, maxPages, crawlEnabled. rewrite Hc.
    cbn [queue captured length]. apply andb_true_iff. split.
    - destruct (seedQueue options); [congruence | reflexivity].
    - apply Z.ltb_lt. exact Hm. }
  assert (Hl : forall n sc, loop options resolvedConfig site n sc (initialState options)
                            = LoopOutOfFuel).
  { induction n as [|n IH]; intros sc; [reflexivity|].
    cbn [loop]. rewrite Hg, Hb. apply IH. }
  now rewrite Hl.
Qed.

Lemma nonpositive_concurrency_never_ends_witness :
  closeBundle
    (Options.mk true None (Crawl.mk true None 2 50 0 true) []
                (Output.mk "sibling" "ai" None "Summary." true))
    (ResolvedConfig.mk "/" None)
    (fun _ => Rendered "Home" [])
    byteCompare 1000 []
  = OutOfFuel.
Proof.
  apply nonpositive_concurrency_never_ends;
    [reflexivity | reflexivity | cbn; lia | cbn; lia | discriminate].
Defined.

(** X16. A run with nothing to do writes the index with its title and
    summary and no section: that is so when no seed is left after
    normalisation, and when the page cap of the crawl is zero or less. *)
Theorem idle_run_writes_bare_index
        (options : Options.t) (resolvedConfig : ResolvedConfig.t) (site : Site)
        (localeCompare : string -> string -> Z)
        (fuel : nat) (scheds : list (list nat)) :
  Options.enabled options = true ->
  seedQueue options = [] \/ (maxPages options <= 0)%Z ->
  closeBundle options resolvedConfig site localeCompare (S fuel) scheds
  = Written ("# " ^^ llmsTitle options resolvedConfig ^^ Str.nl ^^ Str.nl
             ^^ "> " ^^ Output.llmsSummary (Options.output options)
             ^^ Str.nl ^^ Str.nl)
            [].
Proof.
  intros He Hidle. unfold closeBundle. rewrite He. cbn [negb loop].
  assert (Hg : loopGuard options (initialState options) = false).
  { unfold loopGuard, initialState. cbn [queue captured length].
    destruct Hidle as [-> | Hm]; [reflexivity|].
    apply andb_false_iff. right. apply Z.ltb_ge. cbn. lia. }
  rewrite Hg. cbn [initialState captured]. f_equal.
  unfold renderLlms, items. destruct (Output.sort (Options.output options));
    cbn [sortByRoute fold_right groupItems fold_left map String.concat];
    now rewrite !append_empty_r.
Qed.

Lemma idle_run_writes_bare_index_witness :
  closeBundle
    (Options.mk true None (Crawl.mk true (Some ["#top"; "mailto:a@b.c"]) 2 50 3 true) []
                (Output.mk "sibling" "ai" None "Summary." true))
    (ResolvedConfig.mk "/" None)
    (fun _ => Rendered "Home" [])
    byteCompare 1 []
  = Written ("# Site" ^^ Str.nl ^^ Str.nl ^^ "> Summary." ^^ Str.nl ^^ Str.nl) [].
Proof.
  apply (idle_run_writes_bare_index
           (Options.mk true None
                       (Crawl.mk true (Some ["#top"; "mailto:a@b.c"]) 2 50 3 true) []
                       (Output.mk "sibling" "ai" None "Summary." true))
           (ResolvedConfig.mk "/" None));
    [reflexivity | left; reflexivity].
Defined.

(** ** The address of a page *)

Lemma normalizedBase_ends_with_slash (resolvedConfig : ResolvedConfig.t) :
  Str.endsWith (normalizedBase resolvedConfig) "/" = true.
Proof.
  unfold normalizedBase. destruct (Str.endsWith (basePath resolvedConfig) "/") eqn:E;
    [exact E | apply endsWith_app].
Qed.

Lemma collapseSlashes_fixed_app_r (w s : string) :
  Str.collapseSlashes (w ^^ s) = w ^^ s -> Str.collapseSlashes s = s.
Proof.
  rewrite !collapseSlashes_fixed_iff. apply includes_app_r.
Qed.

(** X17. Fetching undoes the stripping of the base.  Under the base
    ["/"] a route is fetched at the origin followed by the route.  Under
    another base, a link that starts with the base is kept as a route
    relative to it, and that route is fetched at the origin followed by
    the link as it was written. *)
Theorem pageUrl_of_baseRelative
        (resolvedConfig : ResolvedConfig.t) (port : nat) (n : string) :
  wellShaped n = true ->
  (normalizedBase resolvedConfig = "/" ->
   baseRelative resolvedConfig n = n
   /\ pageUrl resolvedConfig port n = origin port ^^ n)
  /\ (normalizedBase resolvedConfig <> "/" ->
      Str.startsWith n (normalizedBase resolvedConfig) = true ->
      pageUrl resolvedConfig port (baseRelative resolvedConfig n) = origin port ^^ n).
Proof.
  intros Hw. apply wellShaped_iff in Hw as (Hr & Hd & _).
  unfold rooted in Hr. apply startsWith_iff in Hr as (t & ->).
  cbn [String.append] in *. split.
  - intros Hb. unfold baseRelative, pageUrl, baseUrl. rewrite Hb.
    split; [reflexivity|].
    destruct t as [|c t]; [reflexivity|].
    cbn [String.eqb stripLeadingSlash Ascii.eqb Bool.eqb andb].
    rewrite append_assoc. reflexivity.
  - intros Hb Hs. unfold baseRelative.
    apply String.eqb_neq in Hb. rewrite Hb, Hs. cbn [negb andb].
    apply startsWith_iff in Hs as (rest & Hs).
    set (nb := normalizedBase resolvedConfig) in *.
    assert (Hsl : Str.sliceFrom (String "/" t) (String.length nb) = rest).
    { rewrite Hs. clear. induction nb as [|c nb IH]; [apply sliceFrom_zero | exact IH]. }
    rewrite Hsl.
    pose proof (normalizedBase_ends_with_slash resolvedConfig) as He. fold nb in He.
    apply endsWith_iff in He as (b0 & Eb).
    assert (Hrest : Str.includes ("/" ^^ rest) "//" = false).
    { rewrite Hs, Eb, append_assoc in Hd. now apply includes_app_r in Hd. }
    assert (Hne : String.eqb ("/" ^^ rest) "//" = false).
    { apply String.eqb_neq. intros E. rewrite E in Hrest. discriminate. }
    rewrite Hne.
    apply collapseSlashes_fixed_iff in Hrest. rewrite Hrest.
    unfold pageUrl, baseUrl. fold nb. rewrite Hs.
    destruct rest as [|c rest].
    + cbn [String.append String.eqb Ascii.eqb Bool.eqb andb].
      now rewrite append_empty_r.
    + cbn [String.append String.eqb stripLeadingSlash Ascii.eqb Bool.eqb andb].
      now rewrite append_assoc.
Qed.

Lemma pageUrl_of_baseRelative_witness :
  pageUrl (ResolvedConfig.mk "/app" None) 4173
          (baseRelative (ResolvedConfig.mk "/app" None) "/app/docs/")
  = origin 4173 ^^ "/app/docs/".
Proof.
  apply (proj2 (pageUrl_of_baseRelative (ResolvedConfig.mk "/app" None) 4173
                  "/app/docs/" eq_refl));
    [discriminate | reflexivity].
Defined.

(** ** The record of a captured page *)






(** ** The main content *)

Lemma selectMain_skip (dom : Dom) (skipped rest : list string) :
  (forall s, In s skipped -> s = "" \/ dom s = None) ->
  selectMain dom (skipped ++ rest) = selectMain dom rest.
Proof.
  intros H. induction skipped as [|s skipped IH]; [reflexivity|].
  cbn [app selectMain].
  assert (IH' : selectMain dom (skipped ++ rest) = selectMain dom rest)
    by (apply IH; intros z Hz; apply H; now right).
  destruct (H s (or_introl eq_refl)) as [-> | Hs]; [exact IH'|].
  rewrite Hs. now destruct (negb (Str.truthy s)).
Qed.

(** X19. The main content is that of the first selector of the list that
    is not empty and matches, and the selectors after it are not looked
    at: when that content is empty, and when no selector matches, the
    content of [main] is taken, or that of [body] when there is no
    [main]. *)
Theorem mainHtml_first_match (dom : Dom) (skipped : list string) :
  (forall s, In s skipped -> s = "" \/ dom s = None) ->
  mainHtml dom (SelectorList skipped)
  = match dom "main" with Some html => Some html | None => dom "body" end
  /\ forall sel html later,
       sel <> "" -> dom sel = Some html ->
       mainHtml dom (SelectorList (skipped ++ sel :: later))
       = if Str.truthy html then Some html
         else match dom "main" with Some h => Some h | None => dom "body" end.
Proof.
  intros Hskip. split.
  - unfold mainHtml. cbn [mainSelectors].
    rewrite <- (app_nil_r skipped), selectMain_skip by exact Hskip. reflexivity.
  - intros sel html later Hne Hsel. unfold mainHtml. cbn [mainSelectors].
    rewrite selectMain_skip by exact Hskip. cbn [selectMain].
    assert (Ht : Str.truthy sel = true).
    { unfold Str.truthy. apply negb_true_iff, String.eqb_neq. exact Hne. }
    rewrite Ht, Hsel. cbn [negb optString]. reflexivity.
Qed.

Lemma mainHtml_first_match_witness :
  mainHtml (fun sel => if String.eqb sel "#main-content" then Some ""
                       else if String.eqb sel "[data-main]" then Some "<p>late</p>"
                       else if String.eqb sel "body" then Some "<p>all</p>"
                       else None)
           (SelectorList (["main"] ++ "#main-content" :: ["[data-main]"]))
  = Some "<p>all</p>".
Proof.
  refine (proj2 (mainHtml_first_match _ ["main"] _) "#main-content" "" ["[data-main]"] _ _).
  - intros s [<-|[]]. now right.
  - discriminate.
  - reflexivity.
Defined.

(** ** The sections of the index *)

Lemma existsb_eqb_In (s : string) (l : list string) :
  existsb (String.eqb s) l = true <-> In s l.
Proof.
  rewrite existsb_exists. split.
  - intros (x & Hx & E). apply String.eqb_eq in E. now subst.
  - intros H. exists s. split; [exact H | apply String.eqb_refl].
Qed.

Lemma existsb_eqb_ext (s : string) (l1 l2 : list string) :
  (In s l1 <-> In s l2) ->
  existsb (String.eqb s) l1 = existsb (String.eqb s) l2.
Proof.
  intros H. destruct (existsb (String.eqb s) l1) eqn:E1,
                     (existsb (String.eqb s) l2) eqn:E2; try reflexivity.
  - apply existsb_eqb_In, H, existsb_eqb_In in E1. congruence.
  - apply existsb_eqb_In, H, existsb_eqb_In in E2. congruence.
Qed.

Lemma firstSeen_snoc (seen names : list string) (s : string) :
  firstSeen seen (names ++ [s])
  = firstSeen seen names
    ++ (if existsb (String.eqb s) (seen ++ names) then [] else [s]).
Proof.
  revert seen. induction names as [|k names IH]; intros seen.
  - cbn [app firstSeen]. rewrite app_nil_r.
    now destruct (existsb (String.eqb s) seen).
  - cbn [app firstSeen]. destruct (existsb (String.eqb k) seen) eqn:Ek.
    + rewrite IH. f_equal.
      rewrite (existsb_eqb_ext s (seen ++ names) (seen ++ k :: names)); [reflexivity|].
      apply existsb_eqb_In in Ek. rewrite !in_app_iff. simpl.
      split; [tauto|]. intros [H|[<-|H]]; auto.
    + rewrite IH. cbn [app]. f_equal. f_equal.
      rewrite (existsb_eqb_ext s (k :: seen ++ names) (seen ++ k :: names));
        [reflexivity|].
      simpl. rewrite !in_app_iff. simpl. tauto.
Qed.

Lemma firstSeen_In (seen names : list string) (s : string) :
  In s (firstSeen seen names) <-> In s names /\ ~ In s seen.
Proof.
  revert seen. induction names as [|k names IH]; intros seen; cbn [firstSeen].
  - simpl. tauto.
  - destruct (existsb (String.eqb k) seen) eqn:Ek.
    + apply existsb_eqb_In in Ek. rewrite IH. simpl.
      split; [tauto|]. intros [[<-|H] Hn]; [contradiction | tauto].
    + assert (Hk : ~ In k seen).
      { intros H. apply existsb_eqb_In in H. congruence. }
      simpl. rewrite IH. simpl.
      destruct (string_dec k s) as [<-|Hne]; [tauto|]. tauto.
Qed.

Lemma firstSeen_NoDup (seen names : list string) : NoDup (firstSeen seen names).
Proof.
  revert seen. induction names as [|k names IH]; intros seen; cbn [firstSeen].
  - constructor.
  - destruct (existsb (String.eqb k) seen); [apply IH|].
    constructor; [|apply IH]. rewrite firstSeen_In. simpl. tauto.
Qed.

(** Adding an entry to the sections that are listed for the names
    [keys]. *)
Lemma addToSection_listed (s : string) (x : Captured.t) (keys : list string)
      (group : string -> list Captured.t) :
  NoDup keys ->
  addToSection s x (map (fun k => (k, group k)) keys)
  = map (fun k => (k, if String.eqb k s then group k ++ [x] else group k)) keys
    ++ (if existsb (String.eqb s) keys then [] else [(s, [x])]).
Proof.
  induction keys as [|k keys IH]; intros Hn; [reflexivity|].
  inversion Hn as [|? ? Hk Hn']; subst. cbn [map addToSection existsb].
  rewrite (String.eqb_sym s k).
  destruct (String.eqb k s) eqn:E.
  - apply String.eqb_eq in E. subst k. cbn [orb app]. rewrite app_nil_r.
    f_equal. apply map_ext_in. intros k Hin.
    destruct (String.eqb k s) eqn:E'; [|reflexivity].
    apply String.eqb_eq in E'. subst k. contradiction.
  - cbn [orb app]. f_equal. now apply IH.
Qed.

Lemma groupItems_snoc (l : list Captured.t) (x : Captured.t) :
  groupItems (l ++ [x])
  = if Captured.optional x
    then (fst (groupItems l), snd (groupItems l) ++ [x])
    else (addToSection (sectionOf x) x (fst (groupItems l)), snd (groupItems l)).
Proof. unfold groupItems. rewrite fold_left_app. reflexivity. Qed.

Lemma filter_snoc {A : Type} (f : A -> bool) (l : list A) (x : A) :
  filter f (l ++ [x]) = filter f l ++ (if f x then [x] else []).
Proof. rewrite filter_app. reflexivity. Qed.

Lemma inSection_optional (k : string) (x : Captured.t) :
  Captured.optional x = true -> inSection k x = false.
Proof. unfold inSection. now intros ->. Qed.

Lemma inSection_listed (k : string) (x : Captured.t) :
  Captured.optional x = false -> inSection k x = String.eqb k (sectionOf x).
Proof. unfold inSection. intros ->. now rewrite String.eqb_sym. Qed.

(** The grouping loop in closed form. *)
Lemma groupItems_closed (its : list Captured.t) :
  groupItems its
  = (map (fun k => (k, filter (inSection k) its))
         (firstSeen [] (map sectionOf
                            (filter (fun it => negb (Captured.optional it)) its))),
     filter Captured.optional its).
Proof.
  induction its as [|x its IH] using rev_ind; [reflexivity|].
  rewrite groupItems_snoc, IH. cbn [fst snd]. rewrite !filter_snoc.
  destruct (Captured.optional x) eqn:Eo; cbn [negb].
  - rewrite !app_nil_r. f_equal. apply map_ext. intros k. f_equal.
    rewrite filter_snoc, inSection_optional by exact Eo. now rewrite app_nil_r.
  - rewrite app_nil_r. f_equal.
    rewrite addToSection_listed by apply firstSeen_NoDup.
    rewrite (map_app sectionOf). cbn [map]. rewrite firstSeen_snoc, map_app.
    cbn [app].
    set (names := map sectionOf (filter _ its)).
    f_equal.
    + apply map_ext. intros k. f_equal.
      rewrite filter_snoc, inSection_listed by exact Eo.
      destruct (String.eqb k (sectionOf x)); [reflexivity | now rewrite app_nil_r].
    + rewrite (existsb_eqb_ext (sectionOf x) (firstSeen [] names) names).
      * destruct (existsb (String.eqb (sectionOf x)) names) eqn:En; [reflexivity|].
        cbn [map]. f_equal. f_equal.
        rewrite filter_snoc, inSection_listed, String.eqb_refl by exact Eo.
        destruct (filter (inSection (sectionOf x)) its) as [|y ys] eqn:Ef; [reflexivity|].
        assert (Hy : In y (filter (inSection (sectionOf x)) its))
          by (rewrite Ef; now left).
        apply filter_In in Hy as [Hy Hs]. unfold inSection in Hs.
        apply andb_true_iff in Hs as [Hno Hs]. apply String.eqb_eq in Hs.
        assert (Hin : In (sectionOf x) names).
        { rewrite <- Hs. unfold names. apply in_map. apply filter_In. auto. }
        apply existsb_eqb_In in Hin. congruence.
      * rewrite firstSeen_In. simpl. tauto.
Qed.

Lemma flat_map_insert {A : Type} (g : string -> list A) (s : string) (x : A)
      (keys : list string) :
  NoDup keys -> In s keys ->
  Permutation (flat_map (fun k => if String.eqb k s then x :: g k else g k) keys)
              (x :: flat_map g keys).
Proof.
  induction keys as [|k keys IH]; intros Hn Hin; [contradiction|].
  inversion Hn as [|? ? Hk Hn']; subst. cbn [flat_map].
  destruct (String.eqb k s) eqn:E.
  - apply String.eqb_eq in E. subst k. cbn [app]. constructor.
    apply Permutation_app_head.
    clear IH Hn Hn' Hin. induction keys as [|k keys IHk]; [reflexivity|].
    cbn [flat_map]. destruct (String.eqb k s) eqn:E'.
    + apply String.eqb_eq in E'. subst k. exfalso. apply Hk. now left.
    + apply Permutation_app_head. apply IHk. intros H. apply Hk. now right.
  - destruct Hin as [->|Hin]; [rewrite String.eqb_refl in E; discriminate|].
    etransitivity; [apply Permutation_app_head, IH; assumption|].
    symmetry. apply Permutation_middle.
Qed.

Lemma grouping_permutation (keys : list string) (l : list Captured.t) :
  NoDup keys ->
  (forall it, In it l -> Captured.optional it = false -> In (sectionOf it) keys) ->
  Permutation (flat_map (fun k => filter (inSection k) l) keys
               ++ filter Captured.optional l) l.
Proof.
  intros Hn. induction l as [|x l IH]; intros Hcover.
  - cbn [filter]. rewrite app_nil_r. clear.
    induction keys as [|k keys IHk]; [constructor | exact IHk].
  - assert (IH' : Permutation (flat_map (fun k => filter (inSection k) l) keys
                               ++ filter Captured.optional l) l).
    { apply IH. intros it Hit. apply Hcover. now right. }
    cbn [filter]. destruct (Captured.optional x) eqn:Eo.
    + rewrite (flat_map_ext (fun k => filter (inSection k) (x :: l))
                            (fun k => filter (inSection k) l)).
      * symmetry. etransitivity; [|apply Permutation_middle].
        constructor. now symmetry.
      * intros k. cbn [filter]. now rewrite inSection_optional.
    + rewrite (flat_map_ext (fun k => filter (inSection k) (x :: l))
                            (fun k => if String.eqb k (sectionOf x)
                                      then x :: filter (inSection k) l
                                      else filter (inSection k) l)).
      * etransitivity.
        { apply Permutation_app_tail. apply flat_map_insert; [exact Hn|].
          apply Hcover; [now left | exact Eo]. }
        cbn [app]. now constructor.
      * intros k. cbn [filter]. now rewrite inSection_listed.
Qed.

(** X20. The grouping of the index: the sections are the section names of
    the entries that are not optional, each once, in the order of their
    first entry; a section holds its entries, and the Optional block the
    optional entries, in the order of the index; no section is empty and
    no entry is lost. *)
Theorem groupItems_sections (its : list Captured.t) :
  map fst (fst (groupItems its))
  = firstSeen [] (map sectionOf (filter (fun it => negb (Captured.optional it)) its))
  /\ NoDup (map fst (fst (groupItems its)))
  /\ (forall k g, In (k, g) (fst (groupItems its)) ->
                  g = filter (inSection k) its /\ g <> [])
  /\ snd (groupItems its) = filter Captured.optional its
  /\ Permutation (flat_map snd (fst (groupItems its)) ++ snd (groupItems its)) its.
Proof.
  rewrite groupItems_closed. cbn [fst snd].
  set (names := map sectionOf (filter (fun it => negb (Captured.optional it)) its)).
  assert (Hkeys : map fst (map (fun k => (k, filter (inSection k) its)) (firstSeen [] names))
                  = firstSeen [] names).
  { rewrite map_map. cbn [fst]. apply map_id. }
  split; [exact Hkeys|]. split; [rewrite Hkeys; apply firstSeen_NoDup|].
  split; [|split; [reflexivity|]].
  - intros k g Hin. apply in_map_iff in Hin as (k0 & [= <- <-] & Hk).
    split; [reflexivity|].
    apply firstSeen_In in Hk as [Hk _]. unfold names in Hk.
    apply in_map_iff in Hk as (it & Es & Hit). apply filter_In in Hit as [Hit Hno].
    intros Hnil.
    assert (Hin : In it (filter (inSection k0) its)).
    { apply filter_In. split; [exact Hit|]. unfold inSection.
      now rewrite Hno, Es, String.eqb_refl. }
    rewrite Hnil in Hin. contradiction.
  - rewrite flat_map_concat_map, map_map. cbn [snd].
    rewrite <- flat_map_concat_map.
    apply grouping_permutation; [apply firstSeen_NoDup|].
    intros it Hit Hno. apply firstSeen_In. split; [|tauto].
    unfold names. apply in_map. apply filter_In. now rewrite Hno.
Qed.

(** X21. With sorting on and a comparison that is a total preorder, the
    entries of the index are the captured pages, each once, in ascending
    order of their routes, and so are the entries of every section and
    of the Optional block. *)
Theorem index_in_route_order
        (options : Options.t) (localeCompare : string -> string -> Z)
        (pages : list Captured.t) :
  Output.sort (Options.output options) = true ->
  (forall a b, (localeCompare a b <= 0)%Z \/ (localeCompare b a <= 0)%Z) ->
  (forall a b c, (localeCompare a b <= 0)%Z -> (localeCompare b c <= 0)%Z ->
                 (localeCompare a c <= 0)%Z) ->
  Permutation (items options localeCompare pages) pages
  /\ StronglySorted (routeLe localeCompare) (items options localeCompare pages)
  /\ (forall k g, In (k, g) (fst (groupItems (items options localeCompare pages))) ->
                  StronglySorted (routeLe localeCompare) g)
  /\ StronglySorted (routeLe localeCompare)
                    (snd (groupItems (items options localeCompare pages))).
Proof.
  intros Hsort Htotal Htrans. unfold items. rewrite Hsort.
  pose proof (sortByRoute_sorted localeCompare Htotal Htrans pages) as Hs.
  assert (Hfilter : forall f l, StronglySorted (routeLe localeCompare) l ->
                                StronglySorted (routeLe localeCompare) (filter f l)).
  { intros f l Hl. induction Hl as [|x l Hl IH Hx]; [constructor|].
    cbn [filter]. destruct (f x); [|exact IH].
    constructor; [exact IH|].
    apply Forall_forall. intros y Hy. apply filter_In in Hy as [Hy _].
    rewrite Forall_forall in Hx. now apply Hx. }
  split; [apply sortByRoute_perm|]. split; [exact Hs|].
  rewrite groupItems_closed. cbn [fst snd]. split.
  - intros k g Hin. apply in_map_iff in Hin as (k0 & [= <- <-] & _). now apply Hfilter.
  - now apply Hfilter.
Qed.

Lemma index_in_route_order_witness :
  Permutation
    (items (Options.mk true None (Crawl.mk false None 2 50 3 true) []
                       (Output.mk "sibling" "ai" None "Summary." true))
           byteCompare
           [Captured.mk "/b" "B" "Pages" false None "b.md";
            Captured.mk "/a" "A" "Pages" false None "a.md"])
    [Captured.mk "/b" "B" "Pages" false None "b.md";
     Captured.mk "/a" "A" "Pages" false None "a.md"].
Proof.
  apply (index_in_route_order
           (Options.mk true None (Crawl.mk false None 2 50 3 true) []
                       (Output.mk "sibling" "ai" None "Summary." true))
           byteCompare
           [Captured.mk "/b" "B" "Pages" false None "b.md";
            Captured.mk "/a" "A" "Pages" false None "a.md"]
           eq_refl byteCompare_total byteCompare_trans).
Defined.

(** ** The bounds of a run *)



Lemma seedQueue_depths (options : Options.t) (e : Entry.t) :
  In e (seedQueue options) -> Entry.depth e = 0%Z.
Proof.
  unfold seedQueue. destruct (crawlEnabled options).
  - intros H. apply in_flat_map in H as (seed & _ & H).
    destruct (normalizeRoute seed _); [|contradiction].
    now destruct H as [<-|[]].
  - intros H. now apply in_map_iff in H as (rd & <- & _).
Qed.

(** X23. Between two batches no entry of the queue is left with the
    placeholder depth: every depth is zero or more, so the fallback of
    the batch to depth 1 is never taken. *)
Theorem depth_fallback_never_taken
        (options : Options.t) (resolvedConfig : ResolvedConfig.t) (site : Site)
        (st : State) :
  betweenBatches options resolvedConfig site st ->
  Forall (fun e => (0 <= Entry.depth e)%Z /\ fixDepth e = e) (queue st).
Proof.
  intros H.
  assert (Hd : Forall (fun e => (0 <= Entry.depth e)%Z) (queue st)).
  { induction H as [|sched st st' _ IH _ Hb].
    - apply Forall_forall. intros e He. cbn in He.
      rewrite (seedQueue_depths options e He). lia.
    - destruct (runBatch_resolves_depths _ _ _ _ _ _ IH Hb) as (harvested & -> & Hh).
      apply Forall_app. split.
      + rewrite <- (firstn_skipn (spliceCount options) (queue st)) in IH.
        now apply Forall_app in IH as [_ IH].
      + eapply Forall_impl; [|exact Hh]. intros e He. cbn in He. lia. }
  eapply Forall_impl; [|exact Hd]. intros [r d] He. cbn in He. split; [exact He|].
  unfold fixDepth. cbn [Entry.route Entry.depth].
  now replace (0 <=? d)%Z with true by (symmetry; apply Z.leb_le; exact He).
Qed.

Lemma depth_fallback_never_taken_witness :
  Forall (fun e => (0 <= Entry.depth e)%Z /\ fixDepth e = e)
         [Entry.mk "/a" 1; Entry.mk "/b" 1].
Proof.
  apply (depth_fallback_never_taken
           (Options.mk true None (Crawl.mk true (Some ["/"]) 2 50 3 true) []
                       (Output.mk "sibling" "ai" None "Summary." true))
           (ResolvedConfig.mk "/" None)
           (fun r => if String.eqb r "/" then Rendered "Home" ["/a"; "/b"]
                     else Rendered "Leaf" [])
           (mkState ["/"] [Captured.mk "/" "Home" "Pages" false None "index.html.md"]
                    [Entry.mk "/a" 1; Entry.mk "/b" 1])).
  apply (between_batch _ _ _ [] _ _ (between_start _ _ _)); reflexivity.
Defined.

(** ** Explicit mode *)

(** Without crawling, and with the rules as predicates, the pages of
    the index are exactly the records of the declared routes that are
    not excluded and that render. *)
Lemma explicit_pages_plain
      (options : Options.t) (resolvedConfig : ResolvedConfig.t) (site : Site)
      (localeCompare : string -> string -> Z)
      (fuel : nat) (scheds : list (list nat)) (llms : string) (pages : list Captured.t) :
  Crawl.enabled (Options.crawl options) = false ->
  closeBundle options resolvedConfig site localeCompare fuel scheds = Written llms pages ->
  forall p, In p pages <-> declaredPage options site p.
Proof.
  intros Hcrawl. unfold closeBundle, declaredPage.
  destruct (negb (Options.enabled options)); [discriminate|].
  destruct (loop options resolvedConfig site fuel scheds (initialState options))
    as [st| |] eqn:Hl; try discriminate.
  intros [= _ <-] p. split.
  - intros Hp.
    assert (Hseed : exists e, In e (seedQueue options) /\ Entry.route e = Captured.route p).
    { pose proof Hl as Hl'.
      apply (routesSatisfy_loop options resolvedConfig site
               (fun r => exists e, In e (seedQueue options) /\ Entry.route e = r))
        in Hl'.
      - destruct Hl' as (_ & _ & Hc). unfold capturedRoutes in Hc.
        rewrite Forall_forall in Hc. apply Hc. now apply in_map.
      - intros e He. eauto.
      - intros parent titleText hrefs href n Hc. unfold crawlEnabled in Hc. congruence. }
    destruct Hseed as (e & He & Er).
    assert (Hex : isExcluded (Options.exclude options) (Captured.route p) = false).
    { pose proof (Inv_loop _ _ _ _ _ _ _ (Inv_initial options) Hl) as (_ & _ & _ & Hf).
      cbn [app] in Hf. unfold capturedRoutes in Hf. rewrite Forall_forall in Hf.
      apply Hf. now apply in_map. }
    assert (Hrec : Forall (fun q => exists t h,
                               site (Captured.route q) = Rendered t h
                               /\ q = capturedRecord options (Captured.route q) t)
                          (captured st)).
    { revert Hl.
      apply (loop_preserves options resolvedConfig site
               (fun s => Forall (fun q => exists t h,
                                     site (Captured.route q) = Rendered t h
                                     /\ q = capturedRecord options (Captured.route q) t)
                                (captured s))).
      - intros t s ot s' Hr HR. destruct t as [r d|d]; simpl in Hr.
        + destruct (captureOne_body options resolvedConfig site r s) as [s1|] eqn:Hb;
            [|discriminate].
          injection Hr as _ <-.
          apply captureOne_body_some in Hb as (_ & [(-> & _)|(tt & hh & Hs & -> & _)]).
          * exact HR.
          * apply Forall_app. split; [exact HR|]. constructor; [|constructor].
            exists tt, hh. cbn [capturedRecord Captured.route]. auto.
        + injection Hr as _ <-. now rewrite patchDepths_captured.
      - auto.
      - constructor. }
    rewrite Forall_forall in Hrec. destruct (Hrec p Hp) as (t & h & Hs & Ep).
    exists e, t, h. rewrite Er. auto.
  - intros (e & titleText & hrefs & He & Hx & Hs & ->).
    eapply explicit_run_complete; eauto.
Qed.

(** X24. Without crawling, when the routes are rendered with the browser
    (the loop of [src/index.js], which the published build runs under
    [static: false]) and no exclusion rule keeps state (strings, and
    patterns with neither the [g] nor the [y] flag), the pages of the
    index are exactly the records of the declared routes that are not
    excluded and that render. *)
Theorem explicit_index_pages
        (static : option bool) (options : Stateful.Options)
        (resolvedConfig : ResolvedConfig.t) (site : Site)
        (localeCompare : string -> string -> Z)
        (dist : string) (readFile : string -> option string)
        (process : string -> string -> option string)
        (fuel : nat) (scheds : list (list nat)) (llms : string) (pages : list Captured.t) :
  Crawl.enabled (Stateful.crawl options) = false ->
  Forall Stateful.stateless (Stateful.exclude options) ->
  Stateful.closeBundle options resolvedConfig site localeCompare fuel scheds
  = Written llms pages
  \/ (static = Some false
      /\ Published.closeBundle static options resolvedConfig site localeCompare
                               dist readFile process fuel scheds
         = Written llms pages) ->
  forall p, In p pages <-> declaredPage (Stateful.plain options) site p.
Proof.
  intros Hcrawl Hs Hrun.
  assert (Hplain : closeBundle (Stateful.plain options) resolvedConfig site localeCompare
                               fuel scheds = Written llms pages).
  { rewrite <- (closeBundle_stateless _ _ _ Hs).
    destruct Hrun as [Hrun|[-> Hrun]]; [exact Hrun|].
    now rewrite published_browser in Hrun. }
  exact (explicit_pages_plain (Stateful.plain options) resolvedConfig site localeCompare
                              fuel scheds llms pages Hcrawl Hplain).
Qed.

Lemma explicit_index_pages_witness :
  In (Captured.mk "/pricing" "Pricing" "Pages" false None "pricing.md")
     [Captured.mk "/pricing" "Pricing" "Pages" false None "pricing.md"]
  <->
  declaredPage
    (Stateful.plain
       (Stateful.mkOptions true
          (Some [RouteDef.mk "/pricing" None None None None;
                 RouteDef.mk "/admin" None None None None;
                 RouteDef.mk "/private/notes" None None None None;
                 RouteDef.mk "/down" None None None None])
          (Crawl.mk false None 2 50 3 true)
          [Stateful.Text "/admin";
           Stateful.Regex (RegExp.ofText false false "/private") 0]
          (Output.mk "sibling" "ai" None "Summary." true)))
    (fun r => if String.eqb r "/down" then Fails Goto else Rendered "Pricing" [])
    (Captured.mk "/pricing" "Pricing" "Pages" false None "pricing.md").
Proof.
  refine (explicit_index_pages
            (Some false)
            (Stateful.mkOptions true
               (Some [RouteDef.mk "/pricing" None None None None;
                      RouteDef.mk "/admin" None None None None;
                      RouteDef.mk "/private/notes" None None None None;
                      RouteDef.mk "/down" None None None None])
               (Crawl.mk false None 2 50 3 true)
               [Stateful.Text "/admin";
                Stateful.Regex (RegExp.ofText false false "/private") 0]
               (Output.mk "sibling" "ai" None "Summary." true))
            (ResolvedConfig.mk "/" None)
            (fun r => if String.eqb r "/down" then Fails Goto else Rendered "Pricing" [])
            byteCompare "dist" (fun _ => None) (fun _ _ => None) 5 []
            ("# Site" ^^ Str.nl ^^ Str.nl ^^ "> Summary." ^^ Str.nl ^^ Str.nl
             ^^ "## Pages" ^^ Str.nl ^^ Str.nl
             ^^ "- [Pricing](pricing.md)" ^^ Str.nl ^^ Str.nl)
            [Captured.mk "/pricing" "Pricing" "Pages" false None "pricing.md"]
            eq_refl _ _
            (Captured.mk "/pricing" "Pricing" "Pages" false None "pricing.md")).
  - repeat constructor.
  - right. split; [reflexivity|]. vm_compute. reflexivity.
Defined.

(** ** Links and logging *)

(** X25. A link of the index holds no backslash: [makeLlmsLink] turns
    every backslash into a slash, keeps everything else and the length,
    leaves a path without backslashes as it is, and changes nothing
    when applied again. *)
Theorem makeLlmsLink_slashes (relMdPath : string) :
  Str.includes (makeLlmsLink relMdPath) "\" = false
  /\ String.length (makeLlmsLink relMdPath) = String.length relMdPath
  /\ (Str.includes relMdPath "\" = false -> makeLlmsLink relMdPath = relMdPath)
  /\ makeLlmsLink (makeLlmsLink relMdPath) = makeLlmsLink relMdPath.
Proof.
  unfold makeLlmsLink. induction relMdPath as [|c s (IH1 & IH2 & IH3 & IH4)].
  - repeat split; reflexivity.
  - cbn [Str.backslashToSlash]. split; [|split; [|split]].
    + apply includes_char, indexOf_cons. split.
      * destruct (Ascii.eqb c "\") eqn:E; [discriminate|]. now apply Ascii.eqb_neq.
      * now apply includes_char.
    + cbn [String.length]. now rewrite IH2.
    + intros H. apply includes_char, indexOf_cons in H as [Hne H].
      apply Ascii.eqb_neq in Hne. rewrite Hne. f_equal.
      apply IH3. now apply includes_char.
    + f_equal; [|exact IH4].
      destruct (Ascii.eqb c "\") eqn:E; [reflexivity | now rewrite E].
Qed.

(** X26. The log levels are nested: a level that prints the debug lines
    prints the progress lines, and a level that prints the progress
    lines prints the warnings.  Warnings are held back by ["silent"]
    only, so a level that is none of the three named ones prints the
    warnings and nothing else. *)
Theorem log_levels_nested (logLevel : string) :
  (Log.debug logLevel = true -> Log.info logLevel = true)
  /\ (Log.info logLevel = true -> Log.warn logLevel = true)
  /\ (Log.warn logLevel = false <-> logLevel = "silent")
  /\ (logLevel <> "info" -> logLevel <> "debug" -> logLevel <> "silent" ->
      Log.info logLevel = false /\ Log.debug logLevel = false
      /\ Log.warn logLevel = true).
Proof.
  unfold Log.debug, Log.info, Log.warn. split; [|split; [|split]].
  - intros ->. apply orb_true_r.
  - intros H. apply orb_true_iff in H as [H|H]; apply String.eqb_eq in H; now subst.
  - rewrite negb_false_iff. apply String.eqb_eq.
  - intros H1 H2 H3. apply String.eqb_neq in H1, H2, H3. now rewrite H1, H2, H3.
Qed.

(** ** Static mode *)

Section StaticFacts.

Variable options : Options.t.
Variable dist : string.
Variable readFile : string -> option string.
Variable process : string -> string -> option string.

Local Abbreviation loop' := (staticLoop options dist readFile process).
Local Abbreviation page := (staticPage options dist readFile process).
Local Abbreviation failure := (staticFailure options dist readFile process).

Lemma staticLoop_cons (rd : RouteDef.t) (rest : list RouteDef.t) (acc : list Captured.t) :
  loop' (rd :: rest) acc =
    if failure rd then None else loop' rest (acc ++ page rd).
Proof.
  cbn [staticLoop]. unfold staticFailure, staticPage.
  destruct (isExcluded _ _); cbn [negb andb]; [now rewrite app_nil_r|].
  destruct (htmlContent dist readFile (RouteDef.path rd)) as [content|];
    [|now rewrite app_nil_r].
  destruct (Str.truthy content); cbn [negb andb]; [|now rewrite app_nil_r].
  now destruct (process (RouteDef.path rd) content).
Qed.

Lemma staticLoop_some (rds : list RouteDef.t) (acc out : list Captured.t) :
  loop' rds acc = Some out ->
  out = acc ++ flat_map page rds /\ forallb (fun rd => negb (failure rd)) rds = true.
Proof.
  revert acc. induction rds as [|rd rds IH]; intros acc.
  - cbn. intros [= <-]. now rewrite app_nil_r.
  - rewrite staticLoop_cons. destruct (failure rd) eqn:Ef; [discriminate|].
    intros H. apply IH in H as [-> Hf]. cbn [flat_map forallb].
    rewrite Ef, app_assoc. auto.
Qed.

Lemma staticLoop_none (rds : list RouteDef.t) (acc : list Captured.t) :
  loop' rds acc = None <-> exists rd, In rd rds /\ failure rd = true.
Proof.
  revert acc. induction rds as [|rd rds IH]; intros acc.
  - cbn. split; [discriminate | intros (rd & [] & _)].
  - rewrite staticLoop_cons. destruct (failure rd) eqn:Ef.
    + split; [|reflexivity]. intros _. exists rd. split; [now left | exact Ef].
    + rewrite IH. split.
      * intros (rd' & Hin & Hf). exists rd'. split; [now right | exact Hf].
      * intros (rd' & [<-|Hin] & Hf); [congruence | eauto].
Qed.

End StaticFacts.

(** X27. Static mode lists one page per declaration, not per route: when
    the run writes the index, its pages are, in the order of the
    declarations, the records of the declared routes that are not
    excluded and whose HTML is found and not empty, so that a route
    declared twice is listed twice; no page has an excluded route. *)
Theorem static_pages_follow_declarations
        (options : Options.t) (resolvedConfig : ResolvedConfig.t)
        (localeCompare : string -> string -> Z) (dist : string)
        (readFile : string -> option string) (process : string -> string -> option string)
        (llms : string) (pages : list Captured.t) :
  closeBundleStatic options resolvedConfig localeCompare dist readFile process
  = Written llms pages ->
  pages = flat_map (staticPage options dist readFile process) (routeDefs options)
  /\ map Captured.route pages
     = filter (fun route =>
                 negb (isExcluded (Options.exclude options) route)
                 && Str.truthy (optString (htmlContent dist readFile route)))
              (map RouteDef.path (routeDefs options))
  /\ Forall (fun p => isExcluded (Options.exclude options) (Captured.route p) = false)
            pages.
Proof.
  unfold closeBundleStatic. destruct (negb (Options.enabled options)); [discriminate|].
  destruct (staticLoop options dist readFile process (routeDefs options) [])
    as [captured|] eqn:Hl; [|discriminate].
  intros [= _ <-]. apply staticLoop_some in Hl as [-> Hok]. cbn [app].
  split; [reflexivity|].
  induction (routeDefs options) as [|rd rds IH]; [split; constructor|].
  cbn [forallb] in Hok. apply andb_true_iff in Hok as [Hrd Hok].
  destruct (IH Hok) as [IH1 IH2]. cbn [flat_map map filter].
  rewrite map_app, IH1. unfold staticFailure in Hrd. unfold staticPage.
  destruct (isExcluded (Options.exclude options) (RouteDef.path rd)) eqn:Ex;
    cbn [negb andb app map]; [split; [reflexivity | exact IH2]|].
  cbn [negb andb] in Hrd.
  destruct (htmlContent dist readFile (RouteDef.path rd)) as [content|];
    cbn [optString Str.truthy String.eqb negb app map];
    [|split; [reflexivity | exact IH2]].
  destruct (Str.truthy content); cbn [negb andb app map] in *;
    [|split; [reflexivity | exact IH2]].
  destruct (process (RouteDef.path rd) content) as [titleText|]; [|discriminate].
  cbn [app map staticRecord Captured.route]. split; [reflexivity|].
  constructor; [exact Ex | exact IH2].
Qed.

Lemma static_pages_follow_declarations_witness :
  map Captured.route
      [Captured.mk "/pricing" "Pricing" "Pages" false None "pricing.md";
       Captured.mk "/pricing" "FAQ" "Pages" false None "pricing.md"]
  = filter (fun route =>
              negb (isExcluded [Literal "/admin"] route)
              && Str.truthy (optString
                               (htmlContent "dist"
                                  (fun path => if String.eqb path "dist/pricing.html"
                                               then Some "<title>P</title>" else None)
                                  route)))
           ["/pricing"; "/admin"; "/pricing"; "/docs/"].
Proof.
  exact (proj1 (proj2 (static_pages_follow_declarations
           (Options.mk true
              (Some [RouteDef.mk "/pricing" (Some "Pricing") None None None;
                     RouteDef.mk "/admin" None None None None;
                     RouteDef.mk "pricing#faq" (Some "FAQ") None None None;
                     RouteDef.mk "/docs/" None None None None])
              (Crawl.mk false None 2 50 3 true) [Literal "/admin"]
              (Output.mk "sibling" "ai" None "Summary." true))
           (ResolvedConfig.mk "/" None) byteCompare "dist"
           (fun path => if String.eqb path "dist/pricing.html"
                        then Some "<title>P</title>" else None)
           (fun _ _ => Some "P")
           _ _ eq_refl))).
Defined.

(** X28. Static mode does not contain a failure: the run writes the index
    unless a step throws while a declared route is processed (one that
    is not excluded and whose HTML is found and not empty), and then the
    run is rejected and no index is written. *)
Theorem static_failure_rejects_run
        (options : Options.t) (resolvedConfig : ResolvedConfig.t)
        (localeCompare : string -> string -> Z) (dist : string)
        (readFile : string -> option string) (process : string -> string -> option string) :
  Options.enabled options = true ->
  (closeBundleStatic options resolvedConfig localeCompare dist readFile process = Rejected
   <-> exists rd, In rd (routeDefs options)
                  /\ staticFailure options dist readFile process rd = true)
  /\ ((forall rd, In rd (routeDefs options) ->
                  staticFailure options dist readFile process rd = false) ->
      exists llms pages,
        closeBundleStatic options resolvedConfig localeCompare dist readFile process
        = Written llms pages).
Proof.
  intros He. unfold closeBundleStatic. rewrite He. cbn [negb].
  pose proof (staticLoop_none options dist readFile process (routeDefs options) [])
    as Hnone.
  destruct (staticLoop options dist readFile process (routeDefs options) [])
    as [captured|] eqn:Hl.
  - split.
    + split; [discriminate|]. intros H. apply Hnone in H. discriminate.
    + intros _. eauto.
  - split.
    + split; [intros _; now apply Hnone | reflexivity].
    + intros Hok. destruct (proj1 Hnone eq_refl) as (rd & Hin & Hf).
      rewrite (Hok rd Hin) in Hf. discriminate.
Qed.

Lemma static_failure_rejects_run_witness :
  closeBundleStatic
    (Options.mk true
       (Some [RouteDef.mk "/pricing" None None None None;
              RouteDef.mk "/docs" None None None None])
       (Crawl.mk false None 2 50 3 true) []
       (Output.mk "sibling" "ai" None "Summary." true))
    (ResolvedConfig.mk "/" None) byteCompare "dist"
    (fun _ => Some "<title>P</title>")
    (fun route _ => if String.eqb route "/docs" then None else Some "P")
  = Rejected.
Proof.
  apply (proj1 (static_failure_rejects_run
                  (Options.mk true
                     (Some [RouteDef.mk "/pricing" None None None None;
                            RouteDef.mk "/docs" None None None None])
                     (Crawl.mk false None 2 50 3 true) []
                     (Output.mk "sibling" "ai" None "Summary." true))
                  (ResolvedConfig.mk "/" None) byteCompare "dist"
                  (fun _ => Some "<title>P</title>")
                  (fun route _ => if String.eqb route "/docs" then None else Some "P")
                  eq_refl)).
  exists (RouteDef.mk "/docs" None (Some "Pages") (Some false) None).
  split; [right; left; reflexivity | reflexivity].
Defined.

(** ** The subdirectory layout *)

(** X29. Where the subdirectory layout holds: when the subdirectory is a
    plain name and the document path of the route has no empty, ["."] or
    [".."] segment, the link is the subdirectory, a slash and the
    document path, and the file is written under the subdirectory of
    the output directory. *)
Theorem mdRelPath_under_subdir (subdir outDir route : string) :
  plainName subdir = true ->
  plainPath (routeToMdWebPath route) = true ->
  mdRelPath "subdir" subdir route = subdir ^^ "/" ^^ routeToMdWebPath route
  /\ Str.startsWith (mdRelPath "subdir" subdir route) (subdir ^^ "/") = true
  /\ routeToMdFsPath "subdir" subdir (distDir outDir) route
     = PosixPath.normalize
         (distDir outDir ^^ "/" ^^ subdir ^^ "/" ^^ routeToMdWebPath route).
Proof.
  intros Hn Hp.
  assert (E : mdRelPath "subdir" subdir route = subdir ^^ "/" ^^ routeToMdWebPath route).
  { unfold mdRelPath. cbn [String.eqb Ascii.eqb Bool.eqb andb]. now apply join_plain. }
  split; [exact E|]. split.
  - rewrite E. apply startsWith_iff. exists (routeToMdWebPath route).
    now rewrite append_assoc.
  - unfold routeToMdFsPath, joinAll. cbn [String.eqb Ascii.eqb Bool.eqb andb filter].
    assert (Td : Str.truthy (distDir outDir) = true).
    { unfold distDir, Str.orElse. now destruct (Str.truthy outDir) eqn:Eo. }
    assert (Ts : Str.truthy subdir = true).
    { unfold plainName, plainSegment in Hn. now destruct subdir. }
    rewrite Td, Ts, (plainPath_not_empty _ Hp). reflexivity.
Qed.

Lemma mdRelPath_under_subdir_witness :
  mdRelPath "subdir" "ai" "/docs/api" = "ai" ^^ "/" ^^ routeToMdWebPath "/docs/api"
  /\ Str.startsWith (mdRelPath "subdir" "ai" "/docs/api") ("ai" ^^ "/") = true
  /\ routeToMdFsPath "subdir" "ai" (distDir "build") "/docs/api"
     = PosixPath.normalize
         (distDir "build" ^^ "/" ^^ "ai" ^^ "/" ^^ routeToMdWebPath "/docs/api").
Proof. apply mdRelPath_under_subdir; reflexivity. Defined.

(** ** The crawl finds what is linked *)

Section CrawlComplete.

Variable options : Options.t.
Variable resolvedConfig : ResolvedConfig.t.
Variable site : Site.

Hypothesis crawling : crawlEnabled options = true.

Local Abbreviation excluded := (isExcluded (Options.exclude options)).
Local Abbreviation cinv := (crawlInv options resolvedConfig site).

Lemma harvest_complete (visited hrefs : list string) (href n : string) :
  In href hrefs ->
  normalizeRoute href (Crawl.stripQuery (Options.crawl options)) = Some n ->
  excluded (baseRelative resolvedConfig n) = false ->
  In (baseRelative resolvedConfig n) visited
  \/ In (baseRelative resolvedConfig n)
        (map Entry.route (harvest options resolvedConfig visited hrefs)).
Proof.
  intros Hin Hn Hx. induction hrefs as [|h hrefs IH]; [contradiction|].
  cbn [harvest]. destruct Hin as [->|Hin].
  - rewrite Hn, Hx. cbn [negb andb].
    destruct (has visited (baseRelative resolvedConfig n)) eqn:Hv.
    + left. now apply has_true_iff.
    + right. cbn [negb andb map Entry.route]. now left.
  - destruct (IH Hin) as [H|H]; [now left|]. right.
    destruct (normalizeRoute h _) as [m|]; [|exact H].
    destruct (negb _ && negb _); [now right | exact H].
Qed.

Lemma patchEntry_routes (d : Z) (q : list Entry.t) :
  map Entry.route (map (patchEntry d) q) = map Entry.route q.
Proof.
  rewrite map_map. apply map_ext. intros e. unfold patchEntry.
  now destruct (_ =? _)%Z.
Qed.

Lemma crawlInv_resume (tasks : list Task) (st : State) (i : nat) (t : Task)
      (ot : option Task) (st' : State) :
  nth_error tasks i = Some t ->
  resume options resolvedConfig site t st = Some (ot, st') ->
  cinv [] tasks st -> cinv [] (replaceAt i ot tasks) st'.
Proof.
  intros Hn Hr (Hw & Hv). destruct t as [r d|d]; simpl in Hr.
  - destruct (captureOne_body options resolvedConfig site r st) as [st1|] eqn:Hb;
      [|discriminate].
    injection Hr as <- <-.
    pose proof (replaceAt_pending_inflight tasks i r d d Hn) as HP.
    apply captureOne_body_some in Hb
      as (Ev & [(Ec & Eq & s & Hs)|(tt & hh & Hs & Ec & Eq)]).
    + split.
      * intros x Hx. unfold wanted, capturedRoutes in Hx. rewrite Ec in Hx.
        rewrite Ev, Eq. now apply Hw.
      * intros x Hx. rewrite Ev in Hx. unfold capturedRoutes. rewrite Ec.
        destruct (Hv x Hx) as [H|H]; [|now right].
        apply (Permutation_in _ HP) in H. destruct H as [<-|H]; eauto.
    + rewrite crawling in Eq. split.
      * intros x (Hx & Hwant). rewrite Ev, Eq, map_app.
        assert (Hold : wanted options resolvedConfig site st x ->
                       In x (visited st)
                       \/ In x (map Entry.route (queue st)
                                ++ map Entry.route
                                     (harvest options resolvedConfig (visited st) hh))
                       \/ In x (map Entry.route [])).
        { intros H. destruct (Hw x H) as [H'|[H'|H']]; auto.
          right. left. apply in_or_app. now left. }
        destruct Hwant as [Hseed|(parent & t' & hrefs & href & n & Hp & Hsp & Hh & Hnr & <-)].
        { apply Hold. split; auto. }
        unfold capturedRoutes in Hp. rewrite Ec, map_app in Hp.
        apply in_app_or in Hp as [Hp|[<-|[]]].
        { apply Hold. split; [exact Hx|]. right.
          exists parent, t', hrefs, href, n. auto. }
        cbn [capturedRecord Captured.route] in Hsp. rewrite Hs in Hsp.
        injection Hsp as <- <-.
        destruct (harvest_complete (visited st) hh href n Hh Hnr Hx) as [H|H];
          [now left|].
        right. left. apply in_or_app. now right.
      * intros x Hx. rewrite Ev in Hx. unfold capturedRoutes. rewrite Ec, map_app.
        destruct (Hv x Hx) as [H|[H|H]].
        -- apply (Permutation_in _ HP) in H. destruct H as [<-|H]; [|now left].
           right. left. apply in_or_app. right. now left.
        -- right. left. apply in_or_app. now left.
        -- now right; right.
  - injection Hr as <- <-.
    unfold crawlInv, wanted, capturedRoutes, patchDepths in *.
    rewrite (replaceAt_pending_closing tasks i d Hn). rewrite crawling.
    cbn [visited captured queue]. rewrite patchEntry_routes. split; assumption.
Qed.

Lemma crawlInv_dispatch (batch : list Entry.t) (st st' : State) (tasks : list Task) :
  dispatch options batch st = (tasks, st') ->
  Forall (fun e => (Entry.depth e <= maxDepth options)%Z) batch ->
  (Z.of_nat (length (captured st)) < maxPages options)%Z ->
  (forall r, In r (visited st') <-> In r (visited st) \/ In r (pending tasks))
  /\ (forall e, In e batch -> excluded (Entry.route e) = false ->
                In (Entry.route e) (visited st')).
Proof.
  revert st st' tasks. induction batch as [|e batch IH]; intros st st' tasks Hd Hb Hcap;
    simpl in Hd.
  - injection Hd as <- <-. split; [|intros e []]. intros r. simpl. tauto.
  - inversion Hb as [|? ? He Hb']; subst.
    replace (maxDepth options <? Entry.depth e)%Z with false in Hd
      by (symmetry; apply Z.ltb_ge; exact He).
    rewrite andb_false_r in Hd.
    destruct (captureOne_enter options (Entry.route e) st) as [st1|] eqn:Hen.
    + destruct (dispatch options batch st1) as [tasks1 st2] eqn:Hd1.
      injection Hd as <- <-.
      apply captureOne_enter_some in Hen as (_ & _ & _ & ->).
      destruct (IH _ _ _ Hd1 Hb' Hcap) as [Hiff Hall]. cbn [visited] in Hiff.
      split.
      * intros r. rewrite Hiff. cbn [pending flat_map app]. simpl. tauto.
      * intros e0 [<-|Hin] Hx; [|now apply Hall].
        apply Hiff. left. now left.
    + destruct (dispatch options batch st) as [tasks1 st2] eqn:Hd1.
      injection Hd as <- <-.
      destruct (IH _ _ _ Hd1 Hb' Hcap) as [Hiff Hall]. split.
      * intros r. rewrite Hiff. cbn [pending flat_map app]. tauto.
      * intros e0 [<-|Hin] Hx; [|now apply Hall].
        apply Hiff. left. unfold captureOne_enter in Hen.
        destruct (has (visited st) (Entry.route e)) eqn:Hv;
          [now apply has_true_iff|].
        rewrite Hx in Hen.
        replace (maxPages options <=? Z.of_nat (length (captured st)))%Z with false in Hen
          by (symmetry; apply Z.leb_gt; exact Hcap).
        discriminate.
Qed.

Lemma fixDepth_resolved (l : list Entry.t) :
  Forall (fun e => (0 <= Entry.depth e)%Z) l -> map fixDepth l = l.
Proof.
  induction 1 as [|[r d] l He _ IH]; [reflexivity|]. cbn [map]. rewrite IH. f_equal.
  unfold fixDepth. cbn [Entry.route Entry.depth] in *.
  now replace (0 <=? d)%Z with true by (symmetry; apply Z.leb_le; lia).
Qed.

Lemma crawlInv_runBatch (sched : list nat) (st st' : State) :
  loopGuard options st = true ->
  Forall (fun e => (0 <= Entry.depth e <= maxDepth options)%Z) (queue st) ->
  cinv [] [] st ->
  runBatch options resolvedConfig site sched st = Some st' ->
  cinv [] [] st'.
Proof.
  intros Hg Hq (Hw & Hv). unfold runBatch, takeBatch.
  destruct (dispatch options (map fixDepth (firstn (spliceCount options) (queue st)))
                     (mkState (visited st) (captured st)
                              (skipn (spliceCount options) (queue st))))
    as [tasks st0] eqn:Hd.
  intros Hdr.
  apply (drain_preserves options resolvedConfig site (cinv [])) in Hdr;
    [exact Hdr | apply crawlInv_resume |].
  pose proof (dispatch_frame _ _ _ _ _ Hd) as [Ec Eq]. cbn [captured queue] in Ec, Eq.
  assert (Hfix : map fixDepth (firstn (spliceCount options) (queue st))
                 = firstn (spliceCount options) (queue st)).
  { apply fixDepth_resolved.
    rewrite <- (firstn_skipn (spliceCount options) (queue st)) in Hq.
    apply Forall_app in Hq as [Hq _]. eapply Forall_impl; [|exact Hq].
    cbn. intros e He. lia. }
  rewrite Hfix in Hd.
  apply crawlInv_dispatch in Hd as [Hiff Hall].
  - cbn [visited] in Hiff. split.
    + intros x Hx. assert (Hx' : wanted options resolvedConfig site st x).
      { unfold wanted, capturedRoutes in *. now rewrite Ec in Hx. }
      rewrite Eq. destruct (Hw x Hx') as [H|[H|[]]].
      * left. apply Hiff. now left.
      * rewrite <- (firstn_skipn (spliceCount options) (queue st)), map_app in H.
        apply in_app_or in H as [H|H]; [|now right; left].
        left. apply in_map_iff in H as (e & <- & He). apply Hall; [exact He|].
        now destruct Hx.
    + intros x Hx. unfold capturedRoutes. rewrite Ec.
      apply Hiff in Hx as [Hx|Hx]; [|now left].
      destruct (Hv x Hx) as [[]|H]. now right.
  - rewrite <- (firstn_skipn (spliceCount options) (queue st)) in Hq.
    apply Forall_app in Hq as [Hq _]. eapply Forall_impl; [|exact Hq].
    cbn. intros e He. lia.
  - cbn [captured]. unfold loopGuard in Hg. apply andb_true_iff in Hg as [_ Hg].
    now apply Z.ltb_lt.
Qed.

Lemma dispatch_depths_below (T : Z) (batch : list Entry.t) (st st' : State)
      (tasks : list Task) :
  Forall (fun e => (Entry.depth e <= T)%Z) batch ->
  dispatch options batch st = (tasks, st') ->
  Forall (fun t => (taskDepth t <= T)%Z) tasks.
Proof.
  revert st st' tasks. induction batch as [|e batch IH]; intros st st' tasks Hb Hd;
    simpl in Hd.
  - injection Hd as <- _. constructor.
  - inversion Hb as [|? ? He Hb']; subst.
    destruct (crawlEnabled options && (maxDepth options <? Entry.depth e)%Z).
    + eapply IH; eauto.
    + destruct (captureOne_enter options (Entry.route e) st) as [st1|].
      * destruct (dispatch options batch st1) as [tasks1 st2] eqn:Hd1.
        injection Hd as <- _. constructor; [exact He | eapply IH; eauto].
      * destruct (dispatch options batch st) as [tasks1 st2] eqn:Hd1.
        injection Hd as <- _. constructor; [exact He | eapply IH; eauto].
Qed.

(** A batch raises the depths of the queue by one at most. *)
Lemma runBatch_depths_below (T : Z) (sched : list nat) (st st' : State) :
  (0 <= T)%Z ->
  Forall (fun e => (0 <= Entry.depth e <= T)%Z) (queue st) ->
  runBatch options resolvedConfig site sched st = Some st' ->
  Forall (fun e => (0 <= Entry.depth e <= T + 1)%Z) (queue st').
Proof.
  intros HT Hq Hb.
  assert (Hlow : Forall (fun e => (0 <= Entry.depth e)%Z) (queue st')).
  { assert (Hq0 : Forall (fun e => (0 <= Entry.depth e)%Z) (queue st))
      by (eapply Forall_impl; [|exact Hq]; cbn; intros; lia).
    destruct (runBatch_resolves_depths _ _ _ _ _ _ Hq0 Hb) as (h & -> & Hh).
    apply Forall_app. split.
    - rewrite <- (firstn_skipn (spliceCount options) (queue st)) in Hq0.
      now apply Forall_app in Hq0.
    - eapply Forall_impl; [|exact Hh]. cbn. intros. lia. }
  assert (Hup : Forall (fun e => (Entry.depth e <= T + 1)%Z) (queue st')).
  { revert Hb. unfold runBatch, takeBatch.
    destruct (dispatch options (map fixDepth (firstn (spliceCount options) (queue st)))
                       (mkState (visited st) (captured st)
                                (skipn (spliceCount options) (queue st))))
      as [tasks st0] eqn:Hd.
    intros Hdr.
    apply (drain_preserves options resolvedConfig site
             (fun ts s => Forall (fun t => (taskDepth t <= T)%Z) ts
                          /\ Forall (fun e => (Entry.depth e <= T + 1)%Z) (queue s)))
      in Hdr; [now destruct Hdr| |].
    - clear Hdr Hd. intros ts s i t ot s' Hn Hr (Hts & Hqs).
      assert (Ht : (taskDepth t <= T)%Z).
      { rewrite Forall_forall in Hts. apply Hts. eapply nth_error_In; eauto. }
      destruct t as [r d|d]; simpl in Hr.
      + destruct (captureOne_body options resolvedConfig site r s) as [s1|] eqn:Hb;
          [|discriminate].
        injection Hr as <- <-. split.
        * apply Forall_replaceAt; [exact Hts|]. now intros t [= <-].
        * apply captureOne_body_some in Hb as (_ & [(_ & -> & _)|(tt & hh & _ & _ & ->)]);
            [exact Hqs|].
          rewrite crawling. apply Forall_app. split; [exact Hqs|].
          eapply Forall_impl; [|apply harvest_placeholders]. cbn. intros e ->. lia.
      + injection Hr as <- <-. split; [apply Forall_replaceAt; [exact Hts | discriminate]|].
        unfold patchDepths. rewrite crawling. cbn [queue].
        apply Forall_map. eapply Forall_impl; [|exact Hqs].
        intros e He. unfold patchEntry. cbn in Ht, He.
        destruct (Entry.depth e =? -1)%Z; cbn [Entry.depth]; lia.
    - pose proof (dispatch_frame _ _ _ _ _ Hd) as [_ Eq]. cbn [queue] in Eq.
      rewrite <- (firstn_skipn (spliceCount options) (queue st)) in Hq.
      apply Forall_app in Hq as [Hq1 Hq2]. split.
      + eapply dispatch_depths_below; [|exact Hd].
        apply Forall_map. eapply Forall_impl; [|exact Hq1].
        intros [r d] He. unfold fixDepth. cbn [Entry.route Entry.depth] in *.
        destruct (0 <=? d)%Z eqn:E; cbn [Entry.depth]; [lia|].
        apply Z.leb_gt in E. lia.
      + rewrite Eq. eapply Forall_impl; [|exact Hq2]. cbn. intros. lia. }
  rewrite Forall_forall in *. intros e He. specialize (Hlow e He). specialize (Hup e He).
  lia.
Qed.

Lemma crawlInv_loop (fuel : nat) (T : Z) (scheds : list (list nat)) (st final : State) :
  (0 <= T)%Z ->
  (T + Z.of_nat fuel <= maxDepth options + 1)%Z ->
  Forall (fun e => (0 <= Entry.depth e <= T)%Z) (queue st) ->
  cinv [] [] st ->
  loop options resolvedConfig site fuel scheds st = LoopDone final ->
  cinv [] [] final /\ loopGuard options final = false.
Proof.
  revert T scheds st. induction fuel as [|fuel IH]; intros T scheds st HT0 HT Hq HI;
    cbn [loop]; [discriminate|].
  destruct (loopGuard options st) eqn:Hg.
  - destruct (runBatch options resolvedConfig site (hd [] scheds) st) as [st1|] eqn:Hb;
      [|discriminate].
    apply (IH (T + 1)%Z); [lia | lia | eapply runBatch_depths_below; eauto |].
    eapply crawlInv_runBatch; eauto.
    eapply Forall_impl; [|exact Hq]. cbn. intros. lia.
  - intros [= <-]. auto.
Qed.

Lemma crawlInv_initial : cinv [] [] (initialState options).
Proof.
  split.
  - intros r (_ & [(e & He & <-)|(parent & t & hrefs & href & n & [] & _)]).
    right. left. cbn [initialState queue]. now apply in_map.
  - intros r [].
Qed.

End CrawlComplete.

(** X30. A crawl that hits neither limit finds every linked page: when
    the run ends below the page cap and takes no more turns than the
    depth limit ([fuel] counts the turns and the last test of the loop
    condition), every seed that is not excluded and renders is
    captured, and so is, link after link, every link of a captured page
    that is not excluded and renders. *)
Theorem crawl_reaches_every_linked_page
        (options : Options.t) (resolvedConfig : ResolvedConfig.t) (site : Site)
        (localeCompare : string -> string -> Z)
        (fuel : nat) (scheds : list (list nat)) (llms : string) (pages : list Captured.t) :
  Crawl.enabled (Options.crawl options) = true ->
  closeBundle options resolvedConfig site localeCompare fuel scheds = Written llms pages ->
  (Z.of_nat fuel <= Crawl.maxDepth (Options.crawl options) + 1)%Z ->
  (Z.of_nat (length pages) < Crawl.maxPages (Options.crawl options))%Z ->
  forall r, crawlable options resolvedConfig site r -> In r (map Captured.route pages).
Proof.
  intros Hc Hrun Hdepth Hcap.
  unfold closeBundle in Hrun. destruct (negb (Options.enabled options)); [discriminate|].
  destruct (loop options resolvedConfig site fuel scheds (initialState options))
    as [st| |] eqn:Hl; try discriminate.
  injection Hrun as _ <-.
  apply (crawlInv_loop options resolvedConfig site Hc fuel 0%Z) in Hl.
  - destruct Hl as ((Hw & Hv) & Hg).
    assert (Hq : queue st = []).
    { unfold loopGuard, maxPages, crawlEnabled in Hg. rewrite Hc in Hg.
      apply andb_false_iff in Hg as [Hg|Hg].
      - apply negb_false_iff, Nat.eqb_eq in Hg. now destruct (queue st).
      - apply Z.ltb_ge in Hg. lia. }
    assert (Hdone : forall r t h,
               wanted options resolvedConfig site st r -> site r = Rendered t h ->
               In r (capturedRoutes st)).
    { intros r t h Hr Hs. destruct (Hw r Hr) as [H|[H|[]]].
      - destruct (Hv r H) as [[]|[H'|(s & H')]]; [exact H' | congruence].
      - rewrite Hq in H. contradiction. }
    intros r Hr. induction Hr as [e t h He Hx Hs|parent t hrefs href n t' h' _ IH Hs Hh Hn Hx Hs'].
    + apply (Hdone _ t h); [|exact Hs]. split; [exact Hx|]. left. eauto.
    + apply (Hdone _ t' h'); [|exact Hs']. split; [exact Hx|]. right.
      exists parent, t, hrefs, href, n. auto.
  - lia.
  - unfold maxDepth, crawlEnabled. rewrite Hc. lia.
  - apply Forall_forall. intros e He. cbn in He.
    rewrite (seedQueue_depths options e He). lia.
  - apply crawlInv_initial.
Qed.

Lemma crawl_reaches_every_linked_page_witness : In "/b" ["/"; "/a"; "/b"].
Proof.
  pose (opts := Options.mk true None (Crawl.mk true (Some ["/"]) 3 50 3 true)
                           [Literal "/admin"]
                           (Output.mk "sibling" "ai" None "Summary." false)).
  pose (rc := ResolvedConfig.mk "/" None).
  pose (site := fun r => if String.eqb r "/" then Rendered "Home" ["/a"; "#top"; "/admin"]
                         else if String.eqb r "/a" then Rendered "A" ["/b"]
                         else Rendered "B" []).
  refine (crawl_reaches_every_linked_page opts rc site byteCompare 4 []
            _ _ eq_refl eq_refl _ _ "/b" _).
  - cbn. lia.
  - cbn. lia.
  - apply (crawl_link opts rc site "/a" "A" ["/b"] "/b" "/b" "B" []);
      [|reflexivity | now left | reflexivity | reflexivity | reflexivity].
    apply (crawl_link opts rc site "/" "Home" ["/a"; "#top"; "/admin"] "/a" "/a" "A" ["/b"]);
      [|reflexivity | now left | reflexivity | reflexivity | reflexivity].
    apply (crawl_seed opts rc site (Entry.mk "/" 0) "Home" ["/a"; "#top"; "/admin"]);
      [now left | reflexivity | reflexivity].
Defined.
